(** * MSpreadEngine: privilege-aware spread, batch assignment and the
      simulation driver

    Shallow embedding of the propagation engine documented in the
    repository:
    - the [spread] loop of [Documentation/ADMIN_USER_LOGIC.md]
      (malware_engine/malware_base.py);
    - [_apply_node_definitions] of [Docs/BATCH_LOGIC_IMPLEMENTATION.md]
      (api/api.py);
    - [DEFAULT_DEVICE_ATTRIBUTES] of network_model/network_graph.py.

    The simulator loop, the per-step engine and the random distribution
    mode have no code in the documented sources; they are modelled from
    the design specification and marked as such.

    The last part covers the simulation endpoint and the TypeScript web
    interface (MSpreadWebUi): the socket handlers of [App], the sampled
    graph of [transformSimulationToNetwork] and the request of
    [SimulationControl]. *)

From Stdlib Require Import ZArith QArith Qround Qpower Lia Lqa.
From stdpp Require Import base option list gmap sets strings pretty.

Local Open Scope string_scope.
Local Open Scope list_scope.
Local Open Scope nat_scope.

(** ** Attribute values

    Device attributes are JSON values stored in a Python dict.  The
    spread loop only looks at their truthiness. *)

Inductive Value : Type :=
| VNone
| VBool (b : bool)
| VInt (z : Z)
| VStr (s : string).

#[global] Instance Value_eq_dec : EqDecision Value.
Proof. solve_decision. Defined.

(** Python truthiness of a value ([if v:] / [if not v:]). *)
Definition truthy (v : Value) : bool :=
  match v with
  | VNone => false
  | VBool b => b
  | VInt z => negb (z =? 0)%Z
  | VStr s => negb (String.eqb s "")
  end.

(** [DEFAULT_DEVICE_ATTRIBUTES] (network_model/network_graph.py). *)
Definition DEFAULT_DEVICE_ATTRIBUTES : gmap string Value :=
  {[ "os" := VNone;
     "patch_status" := VNone;
     "device_type" := VStr "workstation";
     "firewall_enabled" := VNone;
     "antivirus" := VNone;
     "admin_user" := VBool true ]}.

(** [d.get(key, default)]. *)
Definition dict_get (d : gmap string Value) (key : string) (dflt : Value) : Value :=
  default dflt (d !! key).

(** ** Random draws

    [random.random()] is modelled by an oracle: [random i] is the value of
    the [i]-th call; the number of calls made so far is threaded through
    the code.  Probabilities and draws are rationals. *)

(** [x < y] on rationals, as a test. *)
Definition Qltb (x y : Q) : bool :=
  (Qnum x * QDen y <? Qnum y * QDen x)%Z.

(** ** Malware configuration *)

(** The values of [spread_pattern]: ["random"], ["bfs"], ["dfs"]. *)
Inductive SpreadPattern := PRandom | PBfs | PDfs.

(** The documented parameters of the unified [Malware] class. *)
Record Malware := {
  malware_type : string;
  infection_rate : Q;
  latency : nat;
  spread_pattern : SpreadPattern;
  target_os : option (list string);
  target_node_types : option (list string);
  avoids_admin : bool;
  requires_interaction : bool
}.

(** ** The spread loop (Documentation/ADMIN_USER_LOGIC.md)

    The loop is generic in the type of device identifiers.  [network] is
    [None] when the malware holds no network reference: the documented
    fallback is then [admin_user = True]. *)

Section Spread.
Context {D : Type}.
Variable network : option (D → gmap string Value).
Variable random : nat → Q.

(** [network.get_device_attributes(d).get('admin_user', True)], read as
    a condition. *)
Definition admin_user_of (d : D) : bool :=
  match network with
  | Some get_device_attributes =>
      truthy (dict_get (get_device_attributes d) "admin_user" (VBool true))
  | None => true
  end.

(** The body of [for neighbor in neighbors: ...].  [calls] counts the
    calls to [random.random()] made so far. *)
Fixpoint spread_loop (rate : Q) (source_admin : bool) (neighbors : list D)
    (newly_infected : list D) (calls : nat) : list D * nat :=
  match neighbors with
  | [] => (newly_infected, calls)
  | neighbor :: rest =>
      if negb source_admin && admin_user_of neighbor
      then spread_loop rate source_admin rest newly_infected calls
      else if Qltb (random calls) rate
           then spread_loop rate source_admin rest
                  (newly_infected ++ [neighbor]) (S calls)
           else spread_loop rate source_admin rest newly_infected (S calls)
  end.

(** The loop at an explicit infection probability. *)
Definition spread_at (rate : Q) (source_device : D) (neighbors : list D)
    (calls : nat) : list D * nat :=
  let source_admin := admin_user_of source_device in
  spread_loop rate source_admin neighbors [] calls.

(** [spread(source_device, neighbors)] of the documented fragment
    (lines 38 to 50).  Of the configuration it reads the infection rate
    only: the fragment has no [avoids_admin] parameter, and applies the
    privilege filter for every malware. *)
Definition spread (m : Malware) (source_device : D) (neighbors : list D)
    (calls : nat) : list D * nat :=
  spread_at (infection_rate m) source_device neighbors calls.

(** "Normal infection logic" alone: every neighbor is tested. *)
Fixpoint normal_spread (rate : Q) (neighbors : list D)
    (newly_infected : list D) (calls : nat) : list D * nat :=
  match neighbors with
  | [] => (newly_infected, calls)
  | neighbor :: rest =>
      if Qltb (random calls) rate
      then normal_spread rate rest (newly_infected ++ [neighbor]) (S calls)
      else normal_spread rate rest newly_infected (S calls)
  end.

(** The attribute map of [d] has no usable [admin_user] entry: the key
    is absent, or there is no network to ask. *)
Definition admin_user_missing (d : D) : Prop :=
  match network with
  | Some get_device_attributes => get_device_attributes d !! "admin_user" = None
  | None => True
  end.
End Spread.

(** ** The network: nodes and their attribute dictionaries

    [network.graph.nodes] with its node data: a map from the node name to
    the attribute dictionary of the device.  The node set is the domain
    of the map. *)

(** [f"device_{node_id}"]. *)
Definition device_id (node_id : nat) : string := "device_" +:+ pretty node_id.

(** Modelled from the spec: [NetworkGraph.get_device_attributes], whose
    code is not in the documented sources; it returns the attribute
    dictionary of the device (empty for a device without one). *)
Definition get_device_attributes (network : gmap string (gmap string Value))
    (device : string) : gmap string Value :=
  default ∅ (network !! device).

(** The call [network.set_device_attributes(device_id, **attrs)] passes
    the entries of [attrs] as keyword arguments.  An entry named like a
    positional parameter of the method, [self] or [device_id], makes the
    call a [TypeError] (multiple values for the argument). *)
Definition keyword_clash (attrs : gmap string Value) : bool :=
  bool_decide (is_Some (attrs !! "self"))
  || bool_decide (is_Some (attrs !! "device_id")).

(** Modelled from the spec:
    [NetworkGraph.set_device_attributes(device_id, **attributes)], "update
    existing device attributes", called with the keyword arguments
    [attrs].  A keyword that clashes with a parameter name is a
    [TypeError] ([None]); otherwise the keyword arguments override the
    entries of the device's dictionary; a device that is not a node of
    the graph is an error ([None]). *)
Definition set_device_attributes (network : gmap string (gmap string Value))
    (device : string) (attrs : gmap string Value)
    : option (gmap string (gmap string Value)) :=
  if keyword_clash attrs then None
  else match network !! device with
       | Some old => Some (<[device := attrs ∪ old]> network)
       | None => None
       end.

(** Modelled from the spec: the seeding of the attribute store, steps
    (1) and (2) of its section 4.2: every device
    [device_0 .. device_{N-1}] starts from [DEFAULT_DEVICE_ATTRIBUTES],
    overridden by the uniform [device_attributes] map. *)
Definition seed_attributes (num_nodes : nat) (device_attributes : gmap string Value)
    : gmap string (gmap string Value) :=
  list_to_map ((λ i, (device_id i, device_attributes ∪ DEFAULT_DEVICE_ATTRIBUTES))
                 <$> seq 0 num_nodes).

(** Modelled from the spec:
    [generate_topology(num_nodes, device_attributes)], as far as the
    devices and their attributes go.  A node count that is not positive
    is [InvalidTopologyConfig] ([None]); otherwise the devices are
    seeded. *)
Definition generate_topology (num_nodes : Z) (device_attributes : gmap string Value)
    : option (gmap string (gmap string Value)) :=
  if (num_nodes <=? 0)%Z then None
  else Some (seed_attributes (Z.to_nat num_nodes) device_attributes).

(** ** Batch assignment (api/api.py) *)

(** [NodeDefinition]: [count: int], [attributes: Dict]. *)
Record NodeDefinition := {
  count : Z;
  attributes : gmap string Value
}.

(** One pass of the inner loop body: the state is the network and the
    running [node_id]. *)
Definition assign_next (attrs : gmap string Value)
    (s : gmap string (gmap string Value) * nat)
    : option (gmap string (gmap string Value) * nat) :=
  let '(network, node_id) := s in
  let device := device_id node_id in
  if decide (device ∈ dom network)
  then network' ← set_device_attributes network device attrs;
       Some (network', S node_id)
  else Some (network, S node_id).

(** [for _ in range(n): body]. *)
Fixpoint for_range {S : Type} (n : nat) (body : S → option S) (s : S) : option S :=
  match n with
  | 0 => Some s
  | S n' => s' ← body s; for_range n' body s'
  end.

(** [for definition in node_definitions: ...]. *)
Fixpoint for_definitions (node_definitions : list NodeDefinition)
    (s : gmap string (gmap string Value) * nat)
    : option (gmap string (gmap string Value) * nat) :=
  match node_definitions with
  | [] => Some s
  | definition :: rest =>
      s' ← for_range (Z.to_nat (count definition))
              (assign_next (attributes definition)) s;
      for_definitions rest s'
  end.

(** The inner loop body over a list of attribute maps, one pass per
    entry. *)
Fixpoint assign_all (attrs_list : list (gmap string Value))
    (s : gmap string (gmap string Value) * nat)
    : option (gmap string (gmap string Value) * nat) :=
  match attrs_list with
  | [] => Some s
  | attrs :: rest => s' ← assign_next attrs s; assign_all rest s'
  end.

(** [_apply_node_definitions(network, node_definitions)]: the walk
    starts at [node_id = 0]; [None] is an exception of a call. *)
Definition _apply_node_definitions (network : gmap string (gmap string Value))
    (node_definitions : list NodeDefinition)
    : option (gmap string (gmap string Value)) :=
  fst <$> for_definitions node_definitions (network, 0).

(** The first device id of batch [i]: the counts of the batches before
    it, added up. *)
Definition batch_start (node_definitions : list NodeDefinition) (i : nat) : Z :=
  foldr Z.add 0%Z (count <$> take i node_definitions).

(** ** Random distribution mode

    The [random] branch of the batch assigner has no code in the
    documented sources.  The design specification describes it: "build
    the same ordered pairing, then apply a uniform random permutation to
    the device-id assignment (not to the attribute list) before
    writing." *)

(** Modelled from the spec: the flattened definitions, the attribute map
    of each batch once per device that the batch claims. *)
Definition flatten_definitions (node_definitions : list NodeDefinition)
    : list (gmap string Value) :=
  node_definitions ≫= λ d, replicate (Z.to_nat (count d)) (attributes d).

(** Modelled from the spec: the ordered pairing, "walking device ids
    [0..N-1] in order, consuming batches in sequence". *)
Definition pairing (num_nodes : nat) (node_definitions : list NodeDefinition)
    : list (string * gmap string Value) :=
  zip (device_id <$> seq 0 num_nodes) (flatten_definitions node_definitions).

(** Modelled from the spec: the permutation is a sequence of exchanges;
    this is the exchange of the elements at [i] and [j]. *)
Definition swap {A} (l : list A) (i j : nat) : list A :=
  match l !! i, l !! j with
  | Some x, Some y => <[j := x]> (<[i := y]> l)
  | _, _ => l
  end.

(** Modelled from the spec: the random permutation, by Fisher-Yates
    exchanges; [randbelow i k] is the draw below [k] made at position
    [i]. *)
Fixpoint shuffle_from {A} (randbelow : nat → nat → nat) (i : nat) (l : list A) : list A :=
  match i with
  | 0 => l
  | S i' => shuffle_from randbelow i' (swap l i (randbelow i (S i) `mod` S i))
  end.

(** Modelled from the spec: the random permutation of a list. *)
Definition shuffle {A} (randbelow : nat → nat → nat) (l : list A) : list A :=
  shuffle_from randbelow (length l - 1) l.

(** Modelled from the spec: the pairing of the random mode; the device
    ids are permuted, the attribute list is not. *)
Definition random_pairing (randbelow : nat → nat → nat) (num_nodes : nat)
    (node_definitions : list NodeDefinition) : list (string * gmap string Value) :=
  let pairs := pairing num_nodes node_definitions in
  zip (shuffle randbelow pairs.*1) pairs.*2.

(** Modelled from the spec: writing a pairing to the network. *)
Fixpoint write_pairs (network : gmap string (gmap string Value))
    (pairs : list (string * gmap string Value))
    : option (gmap string (gmap string Value)) :=
  match pairs with
  | [] => Some network
  | (device, attrs) :: rest =>
      network' ← set_device_attributes network device attrs;
      write_pairs network' rest
  end.

(** Modelled from the spec: the distribution modes [sequential] and
    [random]. *)
Inductive Distribution := Sequential | RandomMix.

(** Modelled from the spec:
    [apply_batches(graph, definitions, distribution_mode)].  The
    sequential mode is the repository's function; the random mode writes
    the permuted pairing over the [N] devices of the network. *)
Definition apply_batches (randbelow : nat → nat → nat)
    (network : gmap string (gmap string Value))
    (node_definitions : list NodeDefinition) (mode : Distribution)
    : option (gmap string (gmap string Value)) :=
  match mode with
  | Sequential => _apply_node_definitions network node_definitions
  | RandomMix =>
      write_pairs network (random_pairing randbelow (size network) node_definitions)
  end.

(** The attribute maps of the devices [device_0 .. device_{N-1}], in
    device order. *)
Definition device_attribute_list (num_nodes : nat)
    (network : gmap string (gmap string Value)) : list (gmap string Value) :=
  (λ i, get_device_attributes network (device_id i)) <$> seq 0 num_nodes.

(** The number of devices whose attribute [key] has the value [v]. *)
Definition attribute_count (num_nodes : nat)
    (network : gmap string (gmap string Value)) (key : string) (v : Value) : nat :=
  length (filter (λ a : gmap string Value, a !! key = Some v)
            (device_attribute_list num_nodes network)).

(** ** Topology

    The topology builder, the per-step engine and the simulator have no
    code in the documented sources; the definitions below follow the
    design specification, sections 3, 4.1, 4.4 and 4.5. *)

(** Modelled from the spec: the device graph.  Its node ids are the dense
    integers [0 .. N-1], node [i] being the device [device_<i>]; a graph is
    the list of the adjacency lists of its nodes. *)
Definition neighbors (graph : list (list nat)) (s : nat) : list nat :=
  default [] (graph !! s).

(** Modelled from the spec: the [complete] topology, "every pair of
    devices connected" (no self-loops); a node count of zero is
    [InvalidTopologyConfig]. *)
Definition complete (node_count : nat) : list (list nat) :=
  (λ i, filter (λ j, j ≠ i) (seq 0 node_count)) <$> seq 0 node_count.

(** Modelled from the spec: [build(node_count, "complete")]; [None] is
    [InvalidTopologyConfig]. *)
Definition build_complete (node_count : nat) : option (list (list nat)) :=
  if node_count =? 0 then None else Some (complete node_count).

(** ** Infection state and step records *)

(** Modelled from the spec: [InfectionState], the state of one device. *)
Inductive DeviceState :=
| Healthy
| Incubating (since_step activates_at_step : nat)
| Infectious.

#[global] Instance DeviceState_eq_dec : EqDecision DeviceState.
Proof. solve_decision. Defined.

(** Modelled from the spec: [StepRecord]. *)
Record StepRecord := {
  step_index : nat;
  newly_infected : gset nat;
  total_infectious_or_infected : nat
}.

(** Modelled from the spec: the result of [SpreadEngine.step],
    [{newly_infected, newly_infectious}], with the activation step that
    tags the new infections and the number of draws made so far. *)
Record StepResult := {
  res_newly_infected : gset nat;
  res_newly_infectious : gset nat;
  res_activates_at_step : nat;
  res_calls : nat
}.

(** ** SpreadEngine

    [SpreadEngine.step], section 4.4 of the design specification, items 1
    to 6, computed from the snapshot [state].  The code of the unified
    engine, with its [avoids_admin] flag, is not in the documented
    sources; the privilege filter follows the two sentences of item 2, and
    the Bernoulli test is the repository's spread loop. *)

Section SpreadEngine.
Variable graph : list (list nat).
Variable attributes : gmap string (gmap string Value).
Variable random : nat → Q.
Variable cfg : Malware.

(** Modelled from the spec: [attributes[i]], the attribute map of the
    device [device_<i>]. *)
Definition attributes_of (i : nat) : gmap string Value :=
  get_device_attributes attributes (device_id i).

(** Modelled from the spec: item 1, the device is [Healthy] in the
    snapshot. *)
Definition is_healthy (state : list DeviceState) (i : nat) : bool :=
  match state !! i with Some Healthy => true | _ => false end.

(** Modelled from the spec: the device is [Infectious] in the snapshot. *)
Definition is_infectious (state : list DeviceState) (i : nat) : bool :=
  match state !! i with Some Infectious => true | _ => false end.

(** Modelled from the spec: the infectious devices of the snapshot, the
    sources of the step. *)
Definition infectious_devices (state : list DeviceState) : list nat :=
  filter (λ i, is_infectious state i = true) (seq 0 (length state)).

(** Modelled from the spec: item 2, the privilege filter.  A non-admin
    source keeps its non-admin neighbors only; and with [avoids_admin]
    every admin neighbor is removed, whatever the privilege of the
    source. *)
Definition privilege_ok (s n : nat) : bool :=
  negb (negb (admin_user_of (Some attributes_of) s)
        && admin_user_of (Some attributes_of) n)
  && negb (avoids_admin cfg && admin_user_of (Some attributes_of) n).

(** Modelled from the spec: item 3, membership in an optional
    allow-set. *)
Definition in_allow_set (allow : option (list string)) (v : Value) : bool :=
  match allow with
  | None => true
  | Some l => match v with VStr x => bool_decide (x ∈ l) | _ => false end
  end.

(** Modelled from the spec: item 3, the [target_os] and
    [target_node_types] filters. *)
Definition target_ok (n : nat) : bool :=
  in_allow_set (target_os cfg) (dict_get (attributes_of n) "os" VNone)
  && in_allow_set (target_node_types cfg)
       (dict_get (attributes_of n) "device_type" VNone).

(** Modelled from the spec: item 4, the effective probability. *)
Definition effective_probability : Q :=
  (infection_rate cfg * (if requires_interaction cfg then 6 # 10 else 1))%Q.

(** Modelled from the spec: item 5, [dfs] tests the neighbor of lowest
    device id only. *)
Definition lowest (E : list nat) : list nat :=
  match E with
  | [] => []
  | x :: rest => [foldr Nat.min x rest]
  end.

(** Modelled from the spec: item 5, the spread-pattern policy. *)
Definition sample (E : list nat) : list nat :=
  match spread_pattern cfg with
  | PDfs => lowest E
  | PRandom | PBfs => E
  end.

(** Modelled from the spec: items 1 to 5, the neighbors of [s] that are
    tested. *)
Definition eligible (state : list DeviceState) (s : nat) : list nat :=
  sample
    (filter (λ n, target_ok n = true)
       (filter (λ n, privilege_ok s n = true)
          (filter (λ n, is_healthy state n = true) (neighbors graph s)))).

(** Modelled from the spec: items 5 and 6, the targets that the source
    [s] infects; the test is the repository's spread loop at the
    effective probability. *)
Definition infect_from (state : list DeviceState) (s : nat) (calls : nat)
    : list nat * nat :=
  spread_at (Some attributes_of) random effective_probability s
    (eligible state s) calls.

(** Modelled from the spec: all the sources in turn, with the union of
    their targets ("idempotent union"). *)
Fixpoint infect_all (state : list DeviceState) (sources : list nat)
    (newly : gset nat) (calls : nat) : gset nat * nat :=
  match sources with
  | [] => (newly, calls)
  | s :: rest =>
      let '(targets, calls') := infect_from state s calls in
      infect_all state rest (newly ∪ list_to_set targets) calls'
  end.

(** Modelled from the spec: [SpreadEngine.step] at the step index [k];
    item 6 tags the new infections with [k + latency], and with latency 0
    they are infectious in the same step. *)
Definition step (state : list DeviceState) (k : nat) (calls : nat) : StepResult :=
  let '(newly, calls') := infect_all state (infectious_devices state) ∅ calls in
  {| res_newly_infected := newly;
     res_newly_infectious := if latency cfg =? 0 then newly else ∅;
     res_activates_at_step := k + latency cfg;
     res_calls := calls' |}.
End SpreadEngine.

(** ** SimulationDriver *)

(** Modelled from the spec: the states of the driver's state machine. *)
Inductive Status := Uninitialized | Running | Completed | Aborted.

#[global] Instance Status_eq_dec : EqDecision Status.
Proof. solve_decision. Defined.

(** Modelled from the spec: the simulation driver; it owns the infection
    state and the history.  [calls] counts the random draws made so far,
    [evaluations] the calls to [SpreadEngine.step]. *)
Record Driver := {
  status : Status;
  state : list DeviceState;
  current_step : nat;
  history : list StepRecord;
  calls : nat;
  evaluations : nat
}.

(** Modelled from the spec: the batch response, without its
    floating-point percentage. *)
Record SimulationResult := {
  total_steps : nat;
  total_devices : nat;
  total_infected : nat;
  result_history : list StepRecord
}.

(** Modelled from the spec: a device counts as infected when it is
    incubating or infectious. *)
Definition is_infected (x : DeviceState) : bool :=
  match x with Healthy => false | _ => true end.

(** Modelled from the spec: the device is pending activation. *)
Definition is_incubating (x : DeviceState) : bool :=
  match x with Incubating _ _ => true | _ => false end.

(** Modelled from the spec: the device [i] is infected in the state
    [st]. *)
Definition infected_at (st : list DeviceState) (i : nat) : bool :=
  match st !! i with Some x => is_infected x | None => false end.

(** Modelled from the spec: [total_infectious_or_infected]. *)
Definition count_infected (st : list DeviceState) : nat :=
  length (filter (λ x, is_infected x = true) st).

(** Modelled from the spec: "no further incubating devices remain
    pending activation". *)
Definition no_incubating (st : list DeviceState) : bool :=
  forallb (λ x, negb (is_incubating x)) st.

(** Modelled from the spec: the node of the device id [id] in a graph
    with [N] nodes, if it is one. *)
Definition resolve (N : nat) (id : string) : option nat :=
  fst <$> list_find (λ i, device_id i = id) (seq 0 N).

(** Modelled from the spec: [initialize(initial_infected)] marks each id
    [Infectious]; [None] is [UnknownDeviceId]. *)
Definition initialize (N : nat) (initial_infected : list string) : option Driver :=
  ids ← mapM (resolve N) initial_infected;
  Some {| status := Running;
          state := (λ i, if bool_decide (i ∈ ids) then Infectious else Healthy)
                     <$> seq 0 N;
          current_step := 0;
          history := [];
          calls := 0;
          evaluations := 0 |}.

Section SimulationDriver.
Variable graph : list (list nat).
Variable attributes : gmap string (gmap string Value).
Variable random : nat → Q.
Variable cfg : Malware.

(** Modelled from the spec: applying the infection delta of step [k]. *)
Definition apply_delta (r : StepResult) (k : nat) (st : list DeviceState)
    : list DeviceState :=
  imap (λ i x,
          if bool_decide (i ∈ res_newly_infectious r) then Infectious
          else if bool_decide (i ∈ res_newly_infected r)
               then Incubating k (res_activates_at_step r)
               else x) st.

(** Modelled from the spec: promotion of the incubating devices whose
    [activates_at_step] is the current step [k]. *)
Definition promote (k : nat) (st : list DeviceState) : list DeviceState :=
  (λ x, match x with
        | Incubating _ a => if a =? k then Infectious else x
        | _ => x
        end) <$> st.

(** Modelled from the spec: one evaluation of the loop of [run]: call
    [SpreadEngine.step], apply the delta, promote, append the record. *)
Definition evaluate (d : Driver) : Driver * StepResult :=
  let k := S (current_step d) in
  let r := step graph attributes random cfg (state d) k (calls d) in
  let st := promote k (apply_delta r k (state d)) in
  ({| status := status d;
      state := st;
      current_step := k;
      history := history d ++
                 [{| step_index := k;
                     newly_infected := res_newly_infected r;
                     total_infectious_or_infected := count_infected st |}];
      calls := res_calls r;
      evaluations := S (evaluations d) |}, r).

(** Modelled from the spec: stop condition (a), the steady state: the
    step infected nobody and no device incubates. *)
Definition steady (d : Driver) (r : StepResult) : bool :=
  bool_decide (res_newly_infected r = ∅) && no_incubating (state d).

(** Modelled from the spec: a transition of the state machine. *)
Definition set_status (s : Status) (d : Driver) : Driver :=
  {| status := s; state := state d; current_step := current_step d;
     history := history d; calls := calls d; evaluations := evaluations d |}.

(** Modelled from the spec: one iteration of the loop of [run]; it stops
    on (b) [step_index == max_steps] or, after an evaluation, on (a). *)
Definition tick (max_steps : nat) (d : Driver) : Driver :=
  match status d with
  | Running =>
      if current_step d =? max_steps then set_status Completed d
      else
        let '(d', r) := evaluate d in
        if steady d' r then set_status Completed d' else d'
  | _ => d
  end.

(** Modelled from the spec: [run(max_steps)]; [max_steps + 1] iterations
    are enough for the loop to stop (see [run_terminates]). *)
Definition run (max_steps : nat) (d : Driver) : Driver :=
  Nat.iter (S max_steps) (tick max_steps) d.

(** Modelled from the spec: the last recorded step is the steady step of
    stop condition (a): it infected nobody and no device incubates. *)
Definition ended_steady (d : Driver) : bool :=
  match last (history d) with
  | Some r => bool_decide (newly_infected r = ∅) && no_incubating (state d)
  | None => false
  end.

(** Modelled from the spec: [get_statistics()].  [total_steps] is "how
    many time-steps the simulation ran before stopping"
    (Docs/STATISTICS_GUIDE.md): the steady step on which the run stops is
    not one of them, which is what Scenario A of the specification fixes
    ([total_steps = 1] after the step that infects every device). *)
Definition get_statistics (d : Driver) : SimulationResult :=
  {| total_steps := if ended_steady d then current_step d - 1 else current_step d;
     total_devices := length (state d);
     total_infected := count_infected (state d);
     result_history := history d |}.

(** Modelled from the spec: a whole batch-mode simulation. *)
Definition simulate (initial_infected : list string) (max_steps : nat)
    : option SimulationResult :=
  d ← initialize (length graph) initial_infected;
  Some (get_statistics (run max_steps d)).

(** Modelled from the spec: the cumulative infected count recorded at
    step [k]; step [0] is the initial state. *)
Definition infected_count_at (d0 d : Driver) (k : nat) : option nat :=
  match k with
  | 0 => Some (count_infected (state d0))
  | S k' => total_infectious_or_infected <$> history d !! k'
  end.
End SimulationDriver.

(** The graph invariant of the data model: the nodes are the devices
    [device_0 .. device_{N-1}]. *)
Definition dense_nodes (N : nat) (network : gmap string (gmap string Value)) : Prop :=
  dom network = list_to_set (device_id <$> seq 0 N).

(** What an observation of the attribute maps reads, device by device,
    after the assignment, when it depends on the batch attributes only:
    [h] of the batch attributes on the first devices, [c] on the devices
    that no batch claims. *)
Definition observed_list {X : Type} (N : nat) (h : gmap string Value → X) (c : X)
    (defs : list NodeDefinition) : list X :=
  (h <$> take N (flatten_definitions defs))
  ++ replicate (N - length (flatten_definitions defs)) c.

(** The shape of the driver after [n] iterations of the loop of [run]. *)
Definition loop_invariant (max_steps n : nat) (d : Driver) : Prop :=
  current_step d = evaluations d
  ∧ length (history d) = evaluations d
  ∧ evaluations d ≤ max_steps
  ∧ ((status d = Running ∧ evaluations d = n)
     ∨ (status d = Completed ∧ evaluations d ≤ n)).

(** The history of the driver is the list of the records of the steps
    [1, 2, ...], whose cumulative counts start at [c0], never decrease and
    never exceed the count of the current state. *)
Definition history_invariant (c0 : nat) (d : Driver) : Prop :=
  c0 ≤ count_infected (state d)
  ∧ (∀ i r, history d !! i = Some r →
       step_index r = S i
       ∧ c0 ≤ total_infectious_or_infected r
       ∧ total_infectious_or_infected r ≤ count_infected (state d))
  ∧ (∀ i r1 r2, history d !! i = Some r1 → history d !! S i = Some r2 →
       total_infectious_or_infected r1 ≤ total_infectious_or_infected r2).

(** Every device that a recorded step infected is still infected; while
    it incubates it carries the step of its infection and activates
    [L] steps later, and once infectious those [L] steps have passed. *)
Definition latency_invariant (L : nat) (d : Driver) : Prop :=
  ∀ rec dev, rec ∈ history d → dev ∈ newly_infected rec →
    match state d !! dev with
    | Some Infectious => step_index rec + L ≤ current_step d
    | Some (Incubating s a) =>
        s = step_index rec ∧ a = step_index rec + L ∧ current_step d < a
    | _ => False
    end.

(** Two oracles whose draws give the same outcome of every test at the
    probability [rate]. *)
Definition same_outcomes (rate : Q) (random random' : nat → Q) : Prop :=
  ∀ i, Qltb (random i) rate = Qltb (random' i) rate.

(** ** Sample configurations *)

(** Five devices: [0] and [2] are non-admin, [1] is admin, [3] has no
    [admin_user] entry, [4] has the default attributes. *)
Definition sample_attributes (i : nat) : gmap string Value :=
  match i with
  | 0 => {[ "admin_user" := VBool false ]}
  | 1 => {[ "admin_user" := VBool true ]}
  | 2 => {[ "admin_user" := VBool false ]}
  | 3 => ∅
  | _ => DEFAULT_DEVICE_ATTRIBUTES
  end.

(** A malware that infects at every test and is configured to avoid
    admin devices. *)
Definition sample_malware : Malware :=
  {| malware_type := "worm";
     infection_rate := 1;
     latency := 0;
     spread_pattern := PRandom;
     target_os := None;
     target_node_types := None;
     avoids_admin := true;
     requires_interaction := false |}.

(** Every draw is [x]. *)
Definition always (x : Q) : nat → Q := λ _, x.

(** Two batches over-subscribing a network of four devices: two admin
    devices, then three non-admin ones. *)
Definition sample_definitions : list NodeDefinition :=
  [ {| count := 2; attributes := {[ "admin_user" := VBool true ]} |};
    {| count := 3; attributes := {[ "admin_user" := VBool false ]} |} ].

Definition sample_network : gmap string (gmap string Value) :=
  seed_attributes 4 ∅.

(** Scenario A: the complete topology on 10 devices with the default
    attributes, a malware of infection rate 1.0 and latency 0, and
    [device_0] as patient zero. *)
Definition scenario_A_graph : list (list nat) := complete 10.

Definition scenario_A_attributes : gmap string (gmap string Value) :=
  seed_attributes 10 ∅.

Definition scenario_A_malware : Malware :=
  {| malware_type := "worm";
     infection_rate := 1;
     latency := 0;
     spread_pattern := PRandom;
     target_os := None;
     target_node_types := None;
     avoids_admin := false;
     requires_interaction := false |}.

Definition scenario_A_initial : Driver :=
  {| status := Running;
     state := Infectious :: replicate 9 Healthy;
     current_step := 0;
     history := [];
     calls := 0;
     evaluations := 0 |}.

(** The driver of Scenario A after step 1. *)
Definition scenario_A_step1 : Driver :=
  (evaluate scenario_A_graph scenario_A_attributes (always 0) scenario_A_malware
     scenario_A_initial).1.

(** The driver of Scenario A after step 2. *)
Definition scenario_A_step2 : Driver :=
  (evaluate scenario_A_graph scenario_A_attributes (always 0) scenario_A_malware
     scenario_A_step1).1.

(** A path of three devices and a malware of latency 2. *)
Definition path_graph : list (list nat) := [[1]; [0; 2]; [1]].

Definition path_attributes : gmap string (gmap string Value) :=
  seed_attributes 3 ∅.

Definition slow_malware : Malware :=
  {| malware_type := "virus";
     infection_rate := 1;
     latency := 2;
     spread_pattern := PRandom;
     target_os := None;
     target_node_types := None;
     avoids_admin := false;
     requires_interaction := false |}.

Definition path_initial : Driver :=
  {| status := Running;
     state := [Infectious; Healthy; Healthy];
     current_step := 0;
     history := [];
     calls := 0;
     evaluations := 0 |}.

(** The record of step 1 on the path: device 1 is infected. *)
Definition path_record1 : StepRecord :=
  {| step_index := 1; newly_infected := {[ 1 ]}; total_infectious_or_infected := 2 |}.

(** The driver on the path after three iterations of the loop. *)
Definition path_after3 : Driver :=
  Nat.iter 3 (tick path_graph path_attributes (always (1 # 2)) slow_malware 100)
    path_initial.

(** ** The spread loop, test by test *)

(** The neighbors that the loop tests for the source: all of them for an
    admin source, the non-admin ones for a non-admin source. *)
Definition tested_neighbors {D : Type} (network : option (D → gmap string Value))
    (source_device : D) (neighbors : list D) : list D :=
  if admin_user_of network source_device then neighbors
  else filter (λ n, admin_user_of network n = false) neighbors.

(** The tested neighbors whose draw is below the rate; the [j]-th tested
    neighbor uses the draw number [calls + j]. *)
Fixpoint infected_among {D : Type} (random : nat → Q) (rate : Q) (calls : nat)
    (tested : list D) : list D :=
  match tested with
  | [] => []
  | n :: rest =>
      if Qltb (random calls) rate
      then n :: infected_among random rate (S calls) rest
      else infected_among random rate (S calls) rest
  end.

(** ** The simulation endpoint (api/api.py) *)

Module Api.

(** [NetworkConfig]: [num_nodes: int], [network_type: str],
    [device_attributes: Optional[Dict]],
    [node_definitions: Optional[List[NodeDefinition]]]. *)
Record NetworkConfig := {
  num_nodes : Z;
  network_type : string;
  device_attributes : option (gmap string Value);
  node_definitions : option (list NodeDefinition)
}.

(** The node definitions of the request, when the test
    [if request.network_config.node_definitions:] is true: the field is
    set and the list is not empty. *)
Definition given_definitions (c : NetworkConfig) : list NodeDefinition :=
  default [] (node_definitions c).

Section Endpoint.

(** The topology builder is not in the documented sources.
    [supported_topology t] tells whether [NetworkGraph(network_type=t)]
    can build a graph; the design specification has the builder fail on
    an unknown type. *)
Variable supported_topology : string → bool.

(** The network construction of [POST /api/v1/simulate]:
    [generate_topology] with the uniform attributes, then the node
    definitions if there are any.  [None] is an exception of the builder
    or of the batch assignment. *)
Definition build_network (c : NetworkConfig)
    : option (gmap string (gmap string Value)) :=
  if supported_topology (network_type c)
  then
    network ← generate_topology (num_nodes c) (default ∅ (device_attributes c));
    match node_definitions c with
    | Some (d :: rest) => _apply_node_definitions network (d :: rest)
    | Some [] | None => Some network
    end
  else None.

End Endpoint.

End Api.

(** ** Sample requests *)

(** A malware whose infection rate 0.25 is below the draws of
    [always (1 # 2)]. *)
Definition weak_malware : Malware :=
  {| malware_type := "trojan";
     infection_rate := 1 # 4;
     latency := 0;
     spread_pattern := PRandom;
     target_os := None;
     target_node_types := None;
     avoids_admin := false;
     requires_interaction := false |}.

(** The sample network after the sample batches. *)
Definition sample_assigned : gmap string (gmap string Value) :=
  default ∅ (_apply_node_definitions sample_network sample_definitions).

(** A second call: one batch of three Linux devices. *)
Definition second_definitions : list NodeDefinition :=
  [ {| count := 3; attributes := {[ "os" := VStr "Linux" ]} |} ].

Definition sample_reassigned : gmap string (gmap string Value) :=
  default ∅ (_apply_node_definitions sample_assigned second_definitions).

(** Two batches; the second one names [device_id], a parameter of the
    call that writes the attributes. *)
Definition clashing_definitions : list NodeDefinition :=
  [ {| count := 1; attributes := {[ "admin_user" := VBool true ]} |};
    {| count := 2; attributes := {[ "device_id" := VStr "x" ]} |} ].

(** A topology builder for the documented simple topology types. *)
Definition sample_supported_topology (t : string) : bool :=
  bool_decide (t ∈ ["scale_free"; "small_world"; "random"; "complete"]).

(** A request for four Linux devices, over-subscribed by the sample
    batches. *)
Definition sample_config : Api.NetworkConfig :=
  {| Api.num_nodes := 4;
     Api.network_type := "scale_free";
     Api.device_attributes := Some {[ "os" := VStr "Linux" ]};
     Api.node_definitions := Some sample_definitions |}.

Definition sample_built : gmap string (gmap string Value) :=
  default ∅ (Api.build_network sample_supported_topology sample_config).

(** A request of six devices whose batches claim the first three. *)
Definition partial_config : Api.NetworkConfig :=
  {| Api.num_nodes := 6;
     Api.network_type := "scale_free";
     Api.device_attributes := Some {[ "os" := VStr "Linux" ]};
     Api.node_definitions := Some second_definitions |}.


(** * The web interface (MSpreadWebUi)

    The TypeScript front end: the messages of the simulation socket, the
    graph that [App] keeps for [D3Graph], the sampled graph of
    [networkTransform.ts] and the request of [SimulationControl].  A
    JavaScript number that counts devices or steps is a [nat]; an
    optional field is an [option]. *)

(** ** services/simulationAPI.ts *)

Module SimulationAPI.

(** One entry of [SimulationResult.history]. *)
Record HistoryEntry := {
  step : nat;
  infected_count : nat;
  newly_infected : list string
}.

Record SimulationResult := {
  total_steps : nat;
  total_devices : nat;
  total_infected : nat;
  infection_percentage : Q;
  malware_type : string;
  history : list HistoryEntry
}.

(** The [type] tag of a [WSMessage]: ['initialized' | 'step' |
    'complete' | 'error']. *)
Inductive MessageType := Initialized | Step | Complete | Error.

End SimulationAPI.

Module WSMessage.

Record t := {
  type : SimulationAPI.MessageType;
  total_devices : option nat;
  initial_infected : option nat;
  step : option nat;
  newly_infected : option nat;
  total_infected : option nat;
  devices_infected : option (list string);
  statistics : option SimulationAPI.SimulationResult;
  message : option string
}.

End WSMessage.

(** ** components/D3Graph.tsx *)

Module D3Graph.

Inductive NodeType :=
| firewall | server | client | threat | router | infected | healthy | workstation.

(** The optional [status] of a node: ['healthy' | 'infected']. *)
Inductive NodeStatus := status_healthy | status_infected.

#[global] Instance D3NodeType_eq_dec : EqDecision NodeType.
Proof. solve_decision. Defined.

#[global] Instance D3NodeStatus_eq_dec : EqDecision NodeStatus.
Proof. solve_decision. Defined.

Record D3Node := {
  id : string;
  label : string;
  type : NodeType;
  status : option NodeStatus
}.

Record D3Edge := {
  source : string;
  target : string
}.

(** The [fill] attribute of a node circle. *)
Definition fill (d : D3Node) : string :=
  if bool_decide (status d = Some status_infected)
     || bool_decide (type d = infected) || bool_decide (type d = threat)
  then "#ff1744"
  else if bool_decide (status d = Some status_healthy)
          || bool_decide (type d = healthy) || bool_decide (type d = client)
          || bool_decide (type d = workstation)
  then "#00ff88"
  else if bool_decide (type d = server) then "#00d4ff"
  else if bool_decide (type d = router) then "#7c3aed"
  else if bool_decide (type d = firewall) then "#ffa500"
  else "#cbd5e0".

(** [d3.forceLink(edges).id(d => d.id)] resolves the endpoints of every
    edge among the nodes and throws on an id that no node has. *)
Definition links_resolve (nodes : list D3Node) (edges : list D3Edge) : bool :=
  forallb (λ e, bool_decide (source e ∈ id <$> nodes)
                && bool_decide (target e ∈ id <$> nodes)) edges.

End D3Graph.

(** ** App: the state behind the graph and the socket handlers *)

Module App.

Import D3Graph.

Inductive Tab := settings | analytics | logs_tab.

(** The [useState] cells of [App] and whether [wsRef.current] is an open
    socket.  [isHealthy] belongs to the periodic health check and is left
    out. *)
Record State := {
  activeTab : Tab;
  simulationResult : option SimulationAPI.SimulationResult;
  nodes : list D3Node;
  edges : list D3Edge;
  isSimulating : bool;
  currentStep : nat;
  logs : list string;
  ws_open : bool
}.

Definition setActiveTab (v : Tab) (st : State) : State :=
  {| activeTab := v; simulationResult := simulationResult st; nodes := nodes st;
     edges := edges st; isSimulating := isSimulating st;
     currentStep := currentStep st; logs := logs st; ws_open := ws_open st |}.

Definition setSimulationResult (v : option SimulationAPI.SimulationResult)
    (st : State) : State :=
  {| activeTab := activeTab st; simulationResult := v; nodes := nodes st;
     edges := edges st; isSimulating := isSimulating st;
     currentStep := currentStep st; logs := logs st; ws_open := ws_open st |}.

(** [setNodes(prevNodes => f(prevNodes))]. *)
Definition setNodes (f : list D3Node → list D3Node) (st : State) : State :=
  {| activeTab := activeTab st; simulationResult := simulationResult st;
     nodes := f (nodes st); edges := edges st; isSimulating := isSimulating st;
     currentStep := currentStep st; logs := logs st; ws_open := ws_open st |}.

Definition setEdges (v : list D3Edge) (st : State) : State :=
  {| activeTab := activeTab st; simulationResult := simulationResult st;
     nodes := nodes st; edges := v; isSimulating := isSimulating st;
     currentStep := currentStep st; logs := logs st; ws_open := ws_open st |}.

Definition setIsSimulating (v : bool) (st : State) : State :=
  {| activeTab := activeTab st; simulationResult := simulationResult st;
     nodes := nodes st; edges := edges st; isSimulating := v;
     currentStep := currentStep st; logs := logs st; ws_open := ws_open st |}.

Definition setCurrentStep (v : nat) (st : State) : State :=
  {| activeTab := activeTab st; simulationResult := simulationResult st;
     nodes := nodes st; edges := edges st; isSimulating := isSimulating st;
     currentStep := v; logs := logs st; ws_open := ws_open st |}.

(** [setLogs(prev => f(prev))]. *)
Definition setLogs (f : list string → list string) (st : State) : State :=
  {| activeTab := activeTab st; simulationResult := simulationResult st;
     nodes := nodes st; edges := edges st; isSimulating := isSimulating st;
     currentStep := currentStep st; logs := f (logs st); ws_open := ws_open st |}.

Definition set_ws_open (v : bool) (st : State) : State :=
  {| activeTab := activeTab st; simulationResult := simulationResult st;
     nodes := nodes st; edges := edges st; isSimulating := isSimulating st;
     currentStep := currentStep st; logs := logs st; ws_open := v |}.

(** [`${x}`] for an optional number (a count below 10^21, which prints in
    decimal) and for an optional string. *)
Definition number_text (x : option nat) : string :=
  match x with
  | Some n => pretty n
  | None => "undefined"
  end.

Definition string_text (x : option string) : string := default "undefined" x.

(** The node [{ id: `device_${i}`, label: `Device ${i}`, type:
    'workstation', status: 'healthy' }]. *)
Definition device_node (i : nat) : D3Node :=
  {| id := device_id i;
     label := "Device " +:+ pretty i;
     type := workstation;
     status := Some status_healthy |}.

(** [Array.from({ length }, (_, i) => device_node(i))]. *)
Definition device_nodes (length : nat) : list D3Node := device_node <$> seq 0 length.

(** The edge loop of the [initialized] case:
    [for (i = 0; i < newNodes.length; i++) if (i > 0) newEdges.push(...)]. *)
Definition chain_edges (newNodes : list D3Node) : list D3Edge :=
  foldl (λ newEdges i,
           if 0 <? i
           then newEdges ++ [ {| source := device_id (i - 1); target := device_id i |} ]
           else newEdges)
        [] (seq 0 (length newNodes)).

(** The node update of the [step] case:
    [{ ...node, status: devices_infected.includes(node.id) ? 'infected' :
    node.status }]. *)
Definition mark_infected (devices_infected : list string) (node : D3Node) : D3Node :=
  {| id := id node;
     label := label node;
     type := type node;
     status := if bool_decide (id node ∈ devices_infected)
               then Some status_infected
               else status node |}.

(** [ws.onmessage], after [JSON.parse]. *)
Definition onmessage (msg : WSMessage.t) (st : State) : State :=
  match WSMessage.type msg with
  | SimulationAPI.Initialized =>
      let st :=
        setLogs (λ prev, prev ++ [ "Simulation initialized with "
                                   +:+ number_text (WSMessage.total_devices msg)
                                   +:+ " devices." ]) st in
      match WSMessage.total_devices msg with
      | Some (S n) =>
          let newNodes := device_nodes (S n) in
          setEdges (chain_edges newNodes) (setNodes (λ _, newNodes) st)
      | Some 0 | None => st
      end
  | SimulationAPI.Step =>
      let st := setCurrentStep (default 0 (WSMessage.step msg)) st in
      let st :=
        setLogs (λ prev, prev ++ [ "Step " +:+ number_text (WSMessage.step msg)
                                   +:+ ": "
                                   +:+ number_text (WSMessage.newly_infected msg)
                                   +:+ " new infections." ]) st in
      match WSMessage.devices_infected msg with
      | Some devices_infected =>
          setNodes (λ prevNodes, mark_infected devices_infected <$> prevNodes) st
      | None => st
      end
  | SimulationAPI.Complete =>
      set_ws_open false
        (setActiveTab analytics
           (setLogs (λ prev, prev ++ [ "Simulation complete!" ])
              (setSimulationResult (WSMessage.statistics msg)
                 (setIsSimulating false st))))
  | SimulationAPI.Error =>
      set_ws_open false
        (setIsSimulating false
           (setLogs (λ prev, prev ++ [ "Error: "
                                       +:+ string_text (WSMessage.message msg) ])
              st))
  end.

(** [handleRunSimulation]: the resets before the new socket is opened. *)
Definition handleRunSimulation (st : State) : State :=
  set_ws_open true
    (setSimulationResult None
       (setIsSimulating true (setCurrentStep 0 (setLogs (λ _, []) st)))).

(** [ws.onerror]. *)
Definition onerror (st : State) : State := setIsSimulating false st.

(** The ring of the mount effect: node [i] is linked to node
    [(i + 1) % initialNodes.length]; the index is below the length, so the
    lookup finds a node. *)
Definition ring_edges (initialNodes : list D3Node) : list D3Edge :=
  imap (λ i node,
          {| source := id node;
             target := from_option id (id node)
                         (initialNodes !! ((i + 1) mod length initialNodes)) |})
       initialNodes.

(** The state after the first render and the mount effect. *)
Definition mounted : State :=
  {| activeTab := settings;
     simulationResult := None;
     nodes := device_nodes 20;
     edges := ring_edges (device_nodes 20);
     isSimulating := false;
     currentStep := 0;
     logs := [];
     ws_open := false |}.

(** What can happen to the state: the user starts a run, the socket
    delivers a message, the socket reports an error. *)
Inductive Event :=
| Run
| Message (msg : WSMessage.t)
| SocketError.

Definition handle (st : State) (e : Event) : State :=
  match e with
  | Run => handleRunSimulation st
  | Message msg => onmessage msg st
  | SocketError => onerror st
  end.

Definition after (events : list Event) (st : State) : State :=
  foldl handle st events.

(** The count of the header: [nodes.filter(n => n.status ===
    'infected').length]. *)
Definition infected_shown (st : State) : nat :=
  length (filter (λ n, status n = Some status_infected) (nodes st)).

(** An [initialized] message that replaces the graph: its
    [total_devices] is a positive number. *)
Definition replaces_graph (e : Event) : bool :=
  match e with
  | Message msg =>
      match WSMessage.type msg, WSMessage.total_devices msg with
      | SimulationAPI.Initialized, Some (S _) => true
      | _, _ => false
      end
  | _ => false
  end.

(** The ids that the [step] messages among the events report as
    infected. *)
Definition reported (events : list Event) : list string :=
  e ← events;
  match e with
  | Message msg =>
      match WSMessage.type msg with
      | SimulationAPI.Step => default [] (WSMessage.devices_infected msg)
      | _ => []
      end
  | _ => []
  end.

End App.

(** ** Doubles

    The part of IEEE 754 binary64 arithmetic that
    [Math.random() * nodes.length] needs: the product of two non-negative
    doubles is the exact product, rounded to the nearest double, ties to
    the even one.  Doubles are the rationals that they denote. *)

Module Double.

(** [floor(log2 x)] of a positive rational. *)
Definition ilog2 (x : Q) : Z :=
  let e := (Z.log2 (Qnum x) - Z.log2 (Zpos (Qden x)))%Z in
  if Qle_bool (2 ^ e)%Q x then e else (e - 1)%Z.

(** The nearest integer, ties to the even one. *)
Definition round_half_even (y : Q) : Z :=
  let f := Qfloor y in
  match (y - inject_Z f ?= 1 # 2)%Q with
  | Lt => f
  | Gt => (f + 1)%Z
  | Eq => if Z.even f then f else (f + 1)%Z
  end.

(** The exponent of the spacing of the doubles around [x]: a double has
    53 significant bits, and below [2^-1022] the spacing stays
    [2^-1074]. *)
Definition ulp_exponent (x : Q) : Z := (Z.max (ilog2 x) (-1022) - 52)%Z.

(** Round-to-nearest-even of a non-negative real below the overflow
    threshold. *)
Definition round (x : Q) : Q :=
  if Qle_bool x 0 then 0%Q
  else (inject_Z (round_half_even (x / 2 ^ ulp_exponent x)) * 2 ^ ulp_exponent x)%Q.

(** The product of two non-negative doubles: the exact product,
    rounded. *)
Definition mul (x y : Q) : Q := round (x * y)%Q.

(** A finite double: [m * 2^e] with [|m| < 2^53] and
    [-1074 <= e <= 971]. *)
Definition is_double (x : Q) : Prop :=
  ∃ m e : Z, (Z.abs m < 2 ^ 53)%Z ∧ (-1074 ≤ e ≤ 971)%Z
             ∧ (x == inject_Z m * 2 ^ e)%Q.

End Double.

(** ** utils/networkTransform.ts *)

Module NetworkTransform.

Inductive NodeType := infected | healthy | threat.

#[global] Instance NetworkNodeType_eq_dec : EqDecision NodeType.
Proof. solve_decision. Defined.

Record NetworkNode := {
  id : string;
  label : string;
  type : NodeType
}.

Record NetworkEdge := {
  source : string;
  target : string
}.

(** [new Set(array)] in iteration order: the first occurrence of every
    element. *)
Definition Set_of (array : list string) : list string :=
  foldl (λ s x, if bool_decide (x ∈ s) then s else s ++ [x]) [] array.

(** [infectedIds.forEach(id => { nodes.push(...); nodeIds.add(id) })]. *)
Definition add_infected (infectedIds : list string)
    (s : list NetworkNode * gset string) : list NetworkNode * gset string :=
  foldl (λ '(nodes, nodeIds) id,
           (nodes ++ [ {| id := id; label := id; type := infected |} ],
            {[ id ]} ∪ nodeIds))
        s infectedIds.

(** [for (let i = n; i > 0; i--) { ... }] of the healthy nodes. *)
Fixpoint add_healthy (i : nat) (s : list NetworkNode * gset string)
    : list NetworkNode * gset string :=
  match i with
  | 0 => s
  | S i' =>
      let '(nodes, nodeIds) := s in
      let nodeId := device_id (length nodes) in
      if bool_decide (nodeId ∈ nodeIds)
      then add_healthy i' (nodes, nodeIds)
      else add_healthy i'
             (nodes ++ [ {| id := nodeId; label := nodeId; type := healthy |} ],
              {[ nodeId ]} ∪ nodeIds)
  end.

(** [Math.floor(Math.random() * nodes.length)] for the draw [r], a
    double; the length is below [2^32] and exact as a double, the
    product is the product of doubles, and [Math.floor] is exact. *)
Definition random_index (r : Q) (length : nat) : Z :=
  Qfloor (Double.mul r (inject_Z (Z.of_nat length))).

(** [nodes[idx]] for an integer index; [None] is [undefined]. *)
Definition at_index {A : Type} (l : list A) (idx : Z) : option A :=
  if (idx <? 0)%Z then None else l !! Z.to_nat idx.

(** The number of rounds of [for (i = 0; i < Math.min(nodes.length * 1.5,
    150); i++)]: the integers below the bound. *)
Definition edge_rounds (length : nat) : nat := Nat.min ((3 * length + 1) / 2) 150.

(** The edge loop; each round draws twice.  Reading [.id] of [undefined]
    throws ([None]). *)
Fixpoint add_edges (random : nat → Q) (rounds calls : nat) (nodes : list NetworkNode)
    (edges : list NetworkEdge) : option (list NetworkEdge) :=
  match rounds with
  | 0 => Some edges
  | S rounds' =>
      let sourceIdx := random_index (random calls) (length nodes) in
      let targetIdx := random_index (random (S calls)) (length nodes) in
      if bool_decide (sourceIdx ≠ targetIdx)
      then s ← at_index nodes sourceIdx;
           t ← at_index nodes targetIdx;
           add_edges random rounds' (S (S calls)) nodes
             (edges ++ [ {| source := id s; target := id t |} ])
      else add_edges random rounds' (S (S calls)) nodes edges
  end.

(** The ids of [infectedIds]: the first [nodesToShow / 2] entries of the
    flattened history, without repetition. *)
Definition infected_ids (result : SimulationAPI.SimulationResult) (sampleSize : nat)
    : list string :=
  let nodesToShow := Nat.min sampleSize (SimulationAPI.total_devices result) in
  Set_of (take (nodesToShow / 2)
            (h ← SimulationAPI.history result; SimulationAPI.newly_infected h)).

(** The node part of [transformSimulationToNetwork]. *)
Definition transform_nodes (result : SimulationAPI.SimulationResult)
    (sampleSize : nat) : list NetworkNode :=
  let nodesToShow := Nat.min sampleSize (SimulationAPI.total_devices result) in
  let infectedIds := infected_ids result sampleSize in
  (add_healthy (nodesToShow - length infectedIds)
     (add_infected infectedIds ([], ∅))).1.

(** [transformSimulationToNetwork(result, sampleSize)]. *)
Definition transformSimulationToNetwork (random : nat → Q)
    (result : SimulationAPI.SimulationResult) (sampleSize : nat)
    : option (list NetworkNode * list NetworkEdge) :=
  let nodes := transform_nodes result sampleSize in
  edges ← add_edges random (edge_rounds (length nodes)) 0 nodes [];
  Some (nodes, edges).

End NetworkTransform.

(** ** components/SimulationControl.tsx *)

Module SimulationControl.

Record SubnetConfig := {
  num_nodes : nat;
  network_type : string;
  device_attributes : option (gmap string Value)
}.

Record Interconnect := {
  source_subnet : nat;
  target_subnet : nat;
  firewall : option bool
}.

(** The [interconnects] of the segmented request of [handleRun]. *)
Definition interconnects (subnets : list SubnetConfig) : list Interconnect :=
  if 1 <? length subnets
  then [ {| source_subnet := 0; target_subnet := 1; firewall := Some true |} ]
  else [].

(** [addSubnet]. *)
Definition addSubnet (subnets : list SubnetConfig) : list SubnetConfig :=
  subnets ++ [ {| num_nodes := 50; network_type := "random";
                  device_attributes := None |} ].

(** The remove button of subnet [i]:
    [subnets.filter((_, idx) => idx !== i)]. *)
Definition removeSubnet (i : nat) (subnets : list SubnetConfig) : list SubnetConfig :=
  snd <$> filter (λ p, p.1 ≠ i) (imap (λ idx s, (idx, s)) subnets).

End SimulationControl.

(** ** Derived notions of the web interface *)

(** The chain edge from device [i] to device [i + 1]. *)
Definition chain_edge (i : nat) : D3Graph.D3Edge :=
  {| D3Graph.source := device_id i; D3Graph.target := device_id (S i) |}.

(** The graph that [App] hands to [D3Graph] is drawable: the nodes are
    [device_0 .. device_{N-1}] for a positive [N], all of type
    workstation with a status, and every edge joins two of them. *)
Definition graph_invariant (st : App.State) : Prop :=
  (∃ N, 0 < N ∧ D3Graph.id <$> App.nodes st = device_id <$> seq 0 N)
  ∧ Forall (λ n, D3Graph.type n = D3Graph.workstation ∧ is_Some (D3Graph.status n))
      (App.nodes st)
  ∧ Forall (λ e, D3Graph.source e ∈ D3Graph.id <$> App.nodes st
                 ∧ D3Graph.target e ∈ D3Graph.id <$> App.nodes st)
      (App.edges st).

(** Unfolds the setters and the fields of the [App] state. *)
Ltac app_state :=
  cbn [App.nodes App.edges App.logs App.setEdges App.setNodes App.setLogs
       App.setCurrentStep App.setIsSimulating App.setSimulationResult
       App.setActiveTab App.set_ws_open] in *.

(** The node that [transformSimulationToNetwork] pushes for an infected
    id and for a healthy device. *)
Definition infected_node (id : string) : NetworkTransform.NetworkNode :=
  {| NetworkTransform.id := id; NetworkTransform.label := id;
     NetworkTransform.type := NetworkTransform.infected |}.

Definition healthy_node (i : nat) : NetworkTransform.NetworkNode :=
  {| NetworkTransform.id := device_id i; NetworkTransform.label := device_id i;
     NetworkTransform.type := NetworkTransform.healthy |}.

(** An edge of the sampled graph joins two different nodes of it. *)
Definition edge_ok (nodes : list NetworkTransform.NetworkNode)
    (e : NetworkTransform.NetworkEdge) : Prop :=
  NetworkTransform.source e ∈ NetworkTransform.id <$> nodes
  ∧ NetworkTransform.target e ∈ NetworkTransform.id <$> nodes
  ∧ NetworkTransform.source e ≠ NetworkTransform.target e.

(** ** Programmatic usage (Documentation/ADMIN_USER_LOGIC.md)

    [for i in range(lo, hi): network.set_device_attributes(f"device_{i}",
    **attrs)]; an exception of a call ends the loop. *)
Definition set_range (lo hi : nat) (attrs : gmap string Value)
    (network : gmap string (gmap string Value))
    : option (gmap string (gmap string Value)) :=
  foldl (λ acc i, network ← acc; set_device_attributes network (device_id i) attrs)
        (Some network) (seq lo (hi - lo)).

(** The node definitions that leave the first [lo] devices as they are
    and give [attrs] to the devices [lo .. hi - 1]. *)
Definition range_definitions (lo hi : nat) (attrs : gmap string Value)
    : list NodeDefinition :=
  [ {| count := Z.of_nat lo; attributes := ∅ |};
    {| count := Z.of_nat (hi - lo); attributes := attrs |} ].

(** ** Sample messages and results *)

(** [{ type: 'initialized', total_devices: 3, initial_infected: 1 }]. *)
Definition sample_initialized : WSMessage.t :=
  {| WSMessage.type := SimulationAPI.Initialized;
     WSMessage.total_devices := Some 3;
     WSMessage.initial_infected := Some 1;
     WSMessage.step := None;
     WSMessage.newly_infected := None;
     WSMessage.total_infected := None;
     WSMessage.devices_infected := None;
     WSMessage.statistics := None;
     WSMessage.message := None |}.

(** [{ type: 'step', step: 1, newly_infected: 1, total_infected: 2,
    devices_infected: ['device_0', 'device_1'] }]. *)
Definition sample_step : WSMessage.t :=
  {| WSMessage.type := SimulationAPI.Step;
     WSMessage.total_devices := None;
     WSMessage.initial_infected := None;
     WSMessage.step := Some 1;
     WSMessage.newly_infected := Some 1;
     WSMessage.total_infected := Some 2;
     WSMessage.devices_infected := Some ["device_0"; "device_1"];
     WSMessage.statistics := None;
     WSMessage.message := None |}.

(** [{ type: 'error', message: 'boom' }]. *)
Definition sample_error : WSMessage.t :=
  {| WSMessage.type := SimulationAPI.Error;
     WSMessage.total_devices := None;
     WSMessage.initial_infected := None;
     WSMessage.step := None;
     WSMessage.newly_infected := None;
     WSMessage.total_infected := None;
     WSMessage.devices_infected := None;
     WSMessage.statistics := None;
     WSMessage.message := Some "boom" |}.

(** A step message, an error, and a new run. *)
Definition sample_events : list App.Event :=
  [ App.Message sample_step; App.Message sample_error; App.Run ].

(** A result over six devices in which [device_2] and [device_0] are the
    first infections of the history. *)
Definition sample_result : SimulationAPI.SimulationResult :=
  {| SimulationAPI.total_steps := 2;
     SimulationAPI.total_devices := 6;
     SimulationAPI.total_infected := 3;
     SimulationAPI.infection_percentage := 50;
     SimulationAPI.malware_type := "worm";
     SimulationAPI.history :=
       [ {| SimulationAPI.step := 1; SimulationAPI.infected_count := 2;
            SimulationAPI.newly_infected := ["device_2"; "device_0"] |};
         {| SimulationAPI.step := 2; SimulationAPI.infected_count := 3;
            SimulationAPI.newly_infected := ["device_4"] |} ] |}.

(** Draws that alternate between 0 and 0.5. *)
Definition alternating (i : nat) : Q := if Nat.even i then 0 else 1 # 2.

(** Two subnets, as after one click on the add button. *)
Definition sample_subnets : list SimulationControl.SubnetConfig :=
  SimulationControl.addSubnet
    [ {| SimulationControl.num_nodes := 50;
         SimulationControl.network_type := "scale_free";
         SimulationControl.device_attributes :=
           Some {[ "device_type" := VStr "server"; "admin_user" := VBool true ]} |} ].

(** * Properties *)

Lemma Qltb_lt x y : Qltb x y = true ↔ (x < y)%Q.
Proof. unfold Qltb, Qlt. apply Z.ltb_lt. Qed.

(** ** The spread loop *)

Section SpreadFacts.
Context {D : Type}.
Variable network : option (D → gmap string Value).
Variable random : nat → Q.

Lemma spread_loop_admin rate neighbors acc calls :
  spread_loop network random rate true neighbors acc calls
  = normal_spread random rate neighbors acc calls.
Proof.
  revert acc calls. induction neighbors as [|n rest IH]; intros acc calls; simpl.
  - reflexivity.
  - destruct (Qltb (random calls) rate); apply IH.
Qed.

(** A non-admin source tests its non-admin neighbors, and only them. *)
Lemma spread_loop_non_admin rate neighbors acc calls :
  spread_loop network random rate false neighbors acc calls
  = normal_spread random rate
      (filter (λ n, admin_user_of network n = false) neighbors) acc calls.
Proof.
  revert acc calls. induction neighbors as [|n rest IH]; intros acc calls; simpl.
  - reflexivity.
  - rewrite filter_cons. case_decide as Hn.
    + rewrite Hn. simpl. destruct (Qltb (random calls) rate); apply IH.
    + apply not_false_is_true in Hn. rewrite Hn. apply IH.
Qed.

(** The tests only ever add tested neighbors. *)
Lemma normal_spread_elem rate (neighbors acc : list D) calls (x : D) :
  x ∈ (normal_spread random rate neighbors acc calls).1 →
  x ∈ acc ∨ x ∈ neighbors.
Proof.
  revert acc calls. induction neighbors as [|n rest IH]; intros acc calls; simpl.
  - auto.
  - destruct (Qltb (random calls) rate); intros Hx;
      destruct (IH _ _ Hx) as [Hacc|?]; try (right; by right); try by left.
    apply elem_of_app in Hacc as [?|Hn]; [by left|right].
    apply list_elem_of_singleton in Hn as ->. by left.
Qed.

Lemma spread_at_non_admin rate source neighbors calls :
  admin_user_of network source = false →
  spread_at network random rate source neighbors calls
  = normal_spread random rate
      (filter (λ n, admin_user_of network n = false) neighbors) [] calls.
Proof. intros Hs. unfold spread_at. rewrite Hs. apply spread_loop_non_admin. Qed.

Lemma spread_at_admin rate source neighbors calls :
  admin_user_of network source = true →
  spread_at network random rate source neighbors calls
  = normal_spread random rate neighbors [] calls.
Proof. intros Hs. unfold spread_at. rewrite Hs. apply spread_loop_admin. Qed.

Lemma spread_at_elem rate source (neighbors : list D) calls (x : D) :
  x ∈ (spread_at network random rate source neighbors calls).1 →
  x ∈ neighbors
  ∧ (admin_user_of network source = false → admin_user_of network x = false).
Proof.
  destruct (admin_user_of network source) eqn:Hs.
  - rewrite spread_at_admin by done. intros Hx.
    apply normal_spread_elem in Hx as [Hx|Hx]; [by apply elem_of_nil in Hx|].
    by split.
  - rewrite spread_at_non_admin by done. intros Hx.
    apply normal_spread_elem in Hx as [Hx|Hx]; [by apply elem_of_nil in Hx|].
    apply list_elem_of_filter in Hx as [? ?]. by split.
Qed.

Lemma admin_user_missing_true d :
  admin_user_missing network d → admin_user_of network d = true.
Proof.
  unfold admin_user_missing, admin_user_of, dict_get.
  destruct network as [get|]; [|done]. by intros ->.
Qed.

(** An explicit [admin_user = True] entry reads as admin. *)
Lemma admin_user_explicit_true get d :
  network = Some get →
  get d !! "admin_user" = Some (VBool true) →
  admin_user_of network d = true.
Proof. intros -> Hd. unfold admin_user_of, dict_get. by rewrite Hd. Qed.
End SpreadFacts.

(** ** Privilege boundary *)

(** C1. Privilege invariant: a source whose [admin_user] attribute is
    false tests exactly its non-admin neighbors, so every device it
    infects is one of its neighbors and has [admin_user] false; it never
    infects a neighbor whose [admin_user] attribute is [True]. *)
Theorem privilege_invariant {D : Type} (network : option (D → gmap string Value))
    (random : nat → Q) (m : Malware) (source : D) (neighbors : list D) (calls : nat) :
  admin_user_of network source = false →
  spread network random m source neighbors calls
  = normal_spread random (infection_rate m)
      (filter (λ n, admin_user_of network n = false) neighbors) [] calls
  ∧ (∀ x : D, x ∈ (spread network random m source neighbors calls).1 →
              x ∈ neighbors ∧ admin_user_of network x = false)
  ∧ (∀ get_attributes (x : D),
       network = Some get_attributes →
       get_attributes x !! "admin_user" = Some (VBool true) →
       x ∉ (spread network random m source neighbors calls).1).
Proof.
  intros Hs. split; [|split].
  - by apply spread_at_non_admin.
  - intros x Hx. apply spread_at_elem in Hx as [? Hadm]. auto.
  - intros get x Hnet Hx Hin. apply spread_at_elem in Hin as [_ Hadm].
    rewrite (admin_user_explicit_true network get x Hnet Hx) in Hadm.
    by specialize (Hadm Hs).
Qed.

Lemma privilege_invariant_witness :
  admin_user_of (Some sample_attributes) 0 = false
  ∧ (spread (Some sample_attributes) (always (1 # 2)) sample_malware 0 [1; 2; 3; 4] 0
     = normal_spread (always (1 # 2)) (infection_rate sample_malware)
         (filter (λ n, admin_user_of (Some sample_attributes) n = false) [1; 2; 3; 4])
         [] 0
     ∧ (∀ x : nat,
          x ∈ (spread (Some sample_attributes) (always (1 # 2)) sample_malware 0
                 [1; 2; 3; 4] 0).1 →
          x ∈ [1; 2; 3; 4] ∧ admin_user_of (Some sample_attributes) x = false)
     ∧ (∀ get_attributes (x : nat),
          Some sample_attributes = Some get_attributes →
          get_attributes x !! "admin_user" = Some (VBool true) →
          x ∉ (spread (Some sample_attributes) (always (1 # 2)) sample_malware 0
                 [1; 2; 3; 4] 0).1)).
Proof.
  split; [vm_compute; reflexivity|].
  apply (privilege_invariant (Some sample_attributes) (always (1 # 2))
           sample_malware 0 [1; 2; 3; 4] 0).
  vm_compute; reflexivity.
Defined.

(** C10. A device whose attribute map has no [admin_user] entry (or whose
    attributes cannot be read because there is no network) counts as
    [admin_user = True]: as a source it tests every neighbor, and a
    non-admin source never infects it. *)
Theorem missing_admin_user_is_admin {D : Type}
    (network : option (D → gmap string Value)) (random : nat → Q) (m : Malware)
    (d : D) :
  admin_user_missing network d →
  admin_user_of network d = true
  ∧ (∀ (neighbors : list D) (calls : nat),
       spread network random m d neighbors calls
       = normal_spread random (infection_rate m) neighbors [] calls)
  ∧ (∀ (source : D) (neighbors : list D) (calls : nat),
       admin_user_of network source = false →
       d ∉ (spread network random m source neighbors calls).1).
Proof.
  intros Hd. pose proof (admin_user_missing_true network d Hd) as Hadm.
  split; [done|]. split.
  - intros neighbors calls. by apply spread_at_admin.
  - intros source neighbors calls Hs Hin.
    apply spread_at_elem in Hin as [_ Hn]. specialize (Hn Hs). congruence.
Qed.

Lemma missing_admin_user_is_admin_witness :
  admin_user_missing (Some sample_attributes) 3
  ∧ admin_user_of (Some sample_attributes) 3 = true
  ∧ spread (Some sample_attributes) (always (1 # 2)) sample_malware 3 [0; 1; 2] 0
    = ([0; 1; 2], 3)
  ∧ 3 ∉ (spread (Some sample_attributes) (always (1 # 2)) sample_malware 0
           [1; 2; 3; 4] 0).1.
Proof.
  assert (Hmiss : admin_user_missing (Some sample_attributes) 3)
    by (vm_compute; reflexivity).
  destruct (missing_admin_user_is_admin (Some sample_attributes) (always (1 # 2))
              sample_malware 3 Hmiss) as (Hadm & Hsrc & Htgt).
  split; [exact Hmiss|]. split; [exact Hadm|]. split.
  - rewrite Hsrc. vm_compute; reflexivity.
  - apply Htgt. vm_compute; reflexivity.
Defined.

(** ** Batch assignment *)

#[global] Instance device_id_inj : Inj (=) (=) device_id.
Proof.
  intros a b Hab. unfold device_id in Hab.
  apply (inj (String.app "device_")) in Hab. by apply (inj pretty) in Hab.
Qed.

Section BatchFacts.
Implicit Types network net : gmap string (gmap string Value).
Implicit Types attrs a : gmap string Value.
Implicit Types defs : list NodeDefinition.

(** One loop pass that returns: the device [device_<n>], if it is a
    node, has its attributes overridden; nothing else changes. *)
Lemma assign_next_Some attrs net n net' n' :
  assign_next attrs (net, n) = Some (net', n') →
  n' = S n
  ∧ net' !! device_id n = (λ old, attrs ∪ old) <$> net !! device_id n
  ∧ (∀ s, s ≠ device_id n → net' !! s = net !! s)
  ∧ ∀ s, is_Some (net' !! s) ↔ is_Some (net !! s).
Proof.
  unfold assign_next, set_device_attributes.
  destruct (decide (device_id n ∈ dom net)) as [Hin|Hout].
  - apply elem_of_dom in Hin as [old Hold]. rewrite Hold.
    destruct (keyword_clash attrs); [done|]. simpl. intros [= <- <-].
    split; [done|]. split; [by rewrite lookup_insert_eq|]. split.
    + intros s Hs. by rewrite lookup_insert_ne.
    + intros s. destruct (decide (s = device_id n)) as [->|Hs].
      * rewrite lookup_insert_eq, Hold. split; by eexists.
      * by rewrite lookup_insert_ne.
  - apply not_elem_of_dom in Hout. intros [= <- <-].
    split; [done|]. split; [by rewrite Hout|]. done.
Qed.

(** One loop pass raises exactly when the device is a node and a keyword
    clashes. *)
Lemma assign_next_None attrs net n :
  assign_next attrs (net, n) = None
  ↔ keyword_clash attrs = true ∧ is_Some (net !! device_id n).
Proof.
  unfold assign_next, set_device_attributes.
  destruct (decide (device_id n ∈ dom net)) as [Hin|Hout].
  - apply elem_of_dom in Hin as [old Hold]. rewrite Hold.
    destruct (keyword_clash attrs); simpl.
    + split; [|done]. intros _. split; [done|by eexists].
    + split; [done|]. by intros [? _].
  - apply not_elem_of_dom in Hout. rewrite Hout. split; [done|].
    by intros [_ ?%is_Some_None].
Qed.

Lemma for_range_assign_all attrs c (s : gmap string (gmap string Value) * nat) :
  for_range c (assign_next attrs) s = assign_all (replicate c attrs) s.
Proof.
  revert s. induction c as [|c IH]; intros s; [done|].
  cbn [for_range replicate assign_all]. destruct (assign_next attrs s); [|done].
  cbn [mbind option_bind]. apply IH.
Qed.

Lemma assign_all_app (l1 l2 : list (gmap string Value))
    (s : gmap string (gmap string Value) * nat) :
  assign_all (l1 ++ l2) s = s' ← assign_all l1 s; assign_all l2 s'.
Proof.
  revert s. induction l1 as [|a l1 IH]; intros s; [done|].
  cbn [app assign_all]. destruct (assign_next a s); [|done].
  cbn [mbind option_bind]. apply IH.
Qed.

(** The walk over the definitions is the walk over the flattened
    attribute list. *)
Lemma for_definitions_assign_all defs (s : gmap string (gmap string Value) * nat) :
  for_definitions defs s = assign_all (flatten_definitions defs) s.
Proof.
  revert s. induction defs as [|d defs IH]; intros s; [done|].
  cbn [for_definitions]. unfold flatten_definitions. rewrite bind_cons.
  fold (flatten_definitions defs).
  rewrite assign_all_app, for_range_assign_all.
  destruct (assign_all _ s); [|done]. cbn [mbind option_bind]. apply IH.
Qed.

(** A walk that returns, in terms of the attribute list. *)
Lemma assign_all_Some (l : list (gmap string Value)) net n net' n' :
  assign_all l (net, n) = Some (net', n') →
  n' = n + length l
  ∧ (∀ j a, l !! j = Some a →
       net' !! device_id (n + j) = (λ old, a ∪ old) <$> net !! device_id (n + j))
  ∧ (∀ s, (∀ j, j < length l → s ≠ device_id (n + j)) → net' !! s = net !! s)
  ∧ ∀ s, is_Some (net' !! s) ↔ is_Some (net !! s).
Proof.
  revert net n. induction l as [|a l IH]; intros net n; cbn [assign_all].
  - intros [= <- <-]. rewrite Nat.add_0_r. split; [done|]. split; [|done].
    intros j a Hj. by destruct j.
  - destruct (assign_next a (net, n)) as [[net1 n1]|] eqn:Hnext; [|done].
    cbn [mbind option_bind]. intros Hrest.
    destruct (assign_next_Some _ _ _ _ _ Hnext) as (-> & Hn & Hother & Hdom1).
    destruct (IH _ _ Hrest) as (-> & Hin & Hout & Hdom).
    split; [simpl; lia|]. split; [|split].
    + intros [|j] a' Hj; simpl in Hj.
      * injection Hj as <-. rewrite Nat.add_0_r, Hout, Hn; [done|].
        intros j' _ Heq. apply (inj device_id) in Heq. lia.
      * replace (n + S j) with (S n + j) by lia.
        rewrite (Hin _ _ Hj). rewrite Hother; [done|].
        intros Heq. apply (inj device_id) in Heq. lia.
    + intros s Hs. rewrite Hout, Hother; [done| |].
      * specialize (Hs 0). rewrite Nat.add_0_r in Hs. apply Hs. simpl. lia.
      * intros j Hj. replace (S n + j) with (n + S j) by lia. apply Hs.
        simpl. lia.
    + intros s. by rewrite Hdom, Hdom1.
Qed.

(** A walk raises exactly when an entry with a clashing keyword meets a
    device that is a node. *)
Lemma assign_all_None (l : list (gmap string Value)) net n :
  assign_all l (net, n) = None
  ↔ ∃ j a, l !! j = Some a ∧ keyword_clash a = true
           ∧ is_Some (net !! device_id (n + j)).
Proof.
  revert net n. induction l as [|a l IH]; intros net n; cbn [assign_all].
  - split; [done|]. by intros ([|?] & ? & ? & _).
  - destruct (assign_next a (net, n)) as [[net1 n1]|] eqn:Hnext;
      cbn [mbind option_bind].
    + destruct (assign_next_Some _ _ _ _ _ Hnext) as (-> & _ & _ & Hdom1).
      rewrite IH. split.
      * intros (j & a' & Hj & Hclash & Hex). exists (S j), a'.
        split; [done|]. split; [done|].
        replace (n + S j) with (S n + j) by lia. by apply Hdom1.
      * intros ([|j] & a' & Hj & Hclash & Hex); simpl in Hj.
        -- injection Hj as <-. rewrite Nat.add_0_r in Hex.
           assert (assign_next a (net, n) = None) as Hnone
             by (by apply assign_next_None).
           congruence.
        -- exists j, a'. split; [done|]. split; [done|].
           replace (S n + j) with (n + S j) by lia. by apply Hdom1.
    + split; [|done]. intros _. apply assign_next_None in Hnext as [Hclash Hex].
      exists 0, a. rewrite Nat.add_0_r. done.
Qed.

(** What a returned result holds. *)
Lemma apply_node_definitions_result net defs net' :
  _apply_node_definitions net defs = Some net' →
  (∀ j a, flatten_definitions defs !! j = Some a →
     net' !! device_id j = (λ old, a ∪ old) <$> net !! device_id j)
  ∧ (∀ s, (∀ j, j < length (flatten_definitions defs) → s ≠ device_id j) →
       net' !! s = net !! s)
  ∧ ∀ s, is_Some (net' !! s) ↔ is_Some (net !! s).
Proof.
  unfold _apply_node_definitions. rewrite for_definitions_assign_all.
  destruct (assign_all _ _) as [[net1 n1]|] eqn:Hall; [|done].
  intros [= <-]. destruct (assign_all_Some _ _ _ _ _ Hall) as (_ & Hin & Hout & Hdom).
  done.
Qed.

(** The function raises exactly when a batch with a clashing keyword
    claims a device that is a node. *)
Lemma apply_node_definitions_None net defs :
  _apply_node_definitions net defs = None
  ↔ ∃ j a, flatten_definitions defs !! j = Some a ∧ keyword_clash a = true
           ∧ is_Some (net !! device_id j).
Proof.
  unfold _apply_node_definitions. rewrite for_definitions_assign_all.
  rewrite <-(assign_all_None _ net 0).
  destruct (assign_all _ _); split; done.
Qed.

Lemma flatten_definitions_elem defs j a :
  flatten_definitions defs !! j = Some a →
  ∃ d, d ∈ defs ∧ a = attributes d.
Proof.
  intros Hj. apply list_elem_of_lookup_2 in Hj.
  unfold flatten_definitions in Hj. apply list_elem_of_bind in Hj as (d & Ha & Hd).
  exists d. split; [done|]. by apply elem_of_replicate in Ha as [-> _].
Qed.

(** Without a clashing keyword the function never raises. *)
Lemma apply_node_definitions_total net defs :
  Forall (λ d, keyword_clash (attributes d) = false) defs →
  ∃ net', _apply_node_definitions net defs = Some net'
          ∧ (∀ j a, flatten_definitions defs !! j = Some a →
               net' !! device_id j = (λ old, a ∪ old) <$> net !! device_id j)
          ∧ ∀ s, (∀ j, j < length (flatten_definitions defs) → s ≠ device_id j) →
                 net' !! s = net !! s.
Proof.
  intros Hkeys.
  destruct (_apply_node_definitions net defs) as [net'|] eqn:Hrun.
  - exists net'. split; [done|].
    destruct (apply_node_definitions_result _ _ _ Hrun) as (Hin & Hout & _). done.
  - apply apply_node_definitions_None in Hrun as (j & a & Hj & Hclash & _).
    apply flatten_definitions_elem in Hj as (d & Hd & ->).
    rewrite Forall_forall in Hkeys. rewrite (Hkeys d Hd) in Hclash. done.
Qed.

(** No node is added or removed. *)
Lemma apply_node_definitions_dom net defs net' :
  _apply_node_definitions net defs = Some net' → dom net' = dom net.
Proof.
  intros Hrun. destruct (apply_node_definitions_result _ _ _ Hrun) as (_ & _ & Hdom).
  apply set_eq. intros s. by rewrite !elem_of_dom.
Qed.
End BatchFacts.

Section BatchRanges.
Implicit Types defs : list NodeDefinition.

Lemma batch_start_cons d defs i :
  batch_start (d :: defs) (S i) = (count d + batch_start defs i)%Z.
Proof. reflexivity. Qed.

Lemma batch_start_nonneg defs i :
  Forall (λ d, (0 ≤ count d)%Z) defs → (0 ≤ batch_start defs i)%Z.
Proof.
  intros Hpos. revert i. induction Hpos as [|d defs Hd _ IH]; intros [|i];
    try (unfold batch_start; simpl; lia).
  rewrite batch_start_cons. specialize (IH i). lia.
Qed.

(** Batch [i] owns the positions from [batch_start] on. *)
Lemma flatten_lookup_batch defs i d k :
  Forall (λ d, (0 ≤ count d)%Z) defs →
  defs !! i = Some d →
  (batch_start defs i ≤ Z.of_nat k < batch_start defs i + count d)%Z →
  flatten_definitions defs !! k = Some (attributes d).
Proof.
  intros Hpos. revert i k.
  induction Hpos as [|d0 defs Hd0 Hpos IH]; intros i k Hi Hk; [done|].
  unfold flatten_definitions. rewrite bind_cons. fold (flatten_definitions defs).
  destruct i as [|i]; simpl in Hi.
  - injection Hi as ->. unfold batch_start in Hk. simpl in Hk.
    rewrite lookup_app_l by (rewrite length_replicate; lia).
    apply lookup_replicate_2. lia.
  - rewrite batch_start_cons in Hk.
    pose proof (batch_start_nonneg defs i Hpos).
    rewrite lookup_app_r by (rewrite length_replicate; lia).
    rewrite length_replicate. apply (IH i); [done|lia].
Qed.

Lemma flatten_length defs :
  Forall (λ d, (0 ≤ count d)%Z) defs →
  Z.of_nat (length (flatten_definitions defs)) = batch_start defs (length defs).
Proof.
  induction 1 as [|d defs Hd _ IH]; [done|].
  unfold flatten_definitions. rewrite bind_cons. fold (flatten_definitions defs).
  rewrite length_app, length_replicate. simpl length.
  rewrite batch_start_cons. lia.
Qed.
End BatchRanges.

(** C7. Sequential batch assignment: the walk visits the device ids in
    order and consumes the batches in sequence, so batch [i] writes its
    attributes to exactly the ids from the sum of the preceding counts on,
    [count_i] of them; an id of the range that is not a node of the graph
    receives nothing, and every name outside the ranges keeps its
    attributes.  The attribute keys are keywords of the call: none of them
    is [self] or [device_id]. *)
Theorem sequential_batch_assignment (network : gmap string (gmap string Value))
    (node_definitions : list NodeDefinition) :
  Forall (λ d, (0 ≤ count d)%Z) node_definitions →
  Forall (λ d, keyword_clash (attributes d) = false) node_definitions →
  ∃ network',
    _apply_node_definitions network node_definitions = Some network'
    ∧ (∀ i d k,
         node_definitions !! i = Some d →
         (batch_start node_definitions i ≤ Z.of_nat k
          < batch_start node_definitions i + count d)%Z →
         network' !! device_id k
         = (λ old, attributes d ∪ old) <$> network !! device_id k)
    ∧ (∀ s,
         (∀ k, (Z.of_nat k < batch_start node_definitions (length node_definitions))%Z →
               s ≠ device_id k) →
         network' !! s = network !! s).
Proof.
  intros Hpos Hkeys.
  destruct (apply_node_definitions_total network node_definitions Hkeys)
    as (network' & Hrun & Hin & Hout).
  exists network'. split; [done|]. split.
  - intros i d k Hi Hk. apply Hin. by apply (flatten_lookup_batch _ i).
  - intros s Hs. apply Hout. intros j Hj. apply Hs.
    rewrite <-flatten_length by done. lia.
Qed.

Lemma sequential_batch_assignment_witness :
  Forall (λ d, (0 ≤ count d)%Z) sample_definitions
  ∧ Forall (λ d, keyword_clash (attributes d) = false) sample_definitions
  ∧ ∃ network',
      _apply_node_definitions sample_network sample_definitions = Some network'
      ∧ (∀ i d k,
           sample_definitions !! i = Some d →
           (batch_start sample_definitions i ≤ Z.of_nat k
            < batch_start sample_definitions i + count d)%Z →
           network' !! device_id k
           = (λ old, attributes d ∪ old) <$> sample_network !! device_id k)
      ∧ (∀ s,
           (∀ k, (Z.of_nat k
                  < batch_start sample_definitions (length sample_definitions))%Z →
                 s ≠ device_id k) →
           network' !! s = sample_network !! s).
Proof.
  assert (Hpos : Forall (λ d, (0 ≤ count d)%Z) sample_definitions).
  { repeat constructor; simpl; lia. }
  assert (Hkeys : Forall (λ d, keyword_clash (attributes d) = false)
                    sample_definitions).
  { repeat constructor; vm_compute; reflexivity. }
  split; [exact Hpos|]. split; [exact Hkeys|].
  exact (sequential_batch_assignment sample_network sample_definitions Hpos Hkeys).
Defined.

(** C9. Over-subscribed batches: when the counts add up to more than the
    [N] devices of the graph, the assignment raises no error, adds no
    node, writes to every one of the [N] devices the attributes of the
    batch that claims it, and drops the pairs whose id is not a node.  The
    attribute keys are keywords of the call: none of them is [self] or
    [device_id]. *)
Theorem oversubscribed_batches_truncated (network : gmap string (gmap string Value))
    (N : nat) (node_definitions : list NodeDefinition) :
  (∀ k, is_Some (network !! device_id k) ↔ k < N) →
  Forall (λ d, (0 ≤ count d)%Z) node_definitions →
  Forall (λ d, keyword_clash (attributes d) = false) node_definitions →
  (Z.of_nat N < batch_start node_definitions (length node_definitions))%Z →
  ∃ network',
    _apply_node_definitions network node_definitions = Some network'
    ∧ dom network' = dom network
    ∧ (∀ k, k < N →
         ∃ a old,
           flatten_definitions node_definitions !! k = Some a
           ∧ network !! device_id k = Some old
           ∧ network' !! device_id k = Some (a ∪ old))
    ∧ (∀ k, N ≤ k → network' !! device_id k = None).
Proof.
  intros Hnodes Hpos Hkeys Hover.
  destruct (apply_node_definitions_total network node_definitions Hkeys)
    as (network' & Hrun & Hin & Hout).
  pose proof (apply_node_definitions_dom _ _ _ Hrun) as Hdom.
  exists network'. split; [done|]. split; [done|]. split.
  - intros k Hk.
    assert (Hlen : k < length (flatten_definitions node_definitions)).
    { apply Nat2Z.inj_lt. rewrite flatten_length by done. lia. }
    destruct (lookup_lt_is_Some_2 _ _ Hlen) as [a Ha].
    destruct (proj2 (Hnodes k) Hk) as [old Hold].
    exists a, old. split; [done|]. split; [done|].
    by rewrite (Hin _ _ Ha), Hold.
  - intros k Hk. apply not_elem_of_dom. rewrite Hdom. apply not_elem_of_dom.
    apply eq_None_not_Some. rewrite Hnodes. lia.
Qed.

(** ** Generated networks *)

Lemma seed_attributes_keys N (a : gmap string Value) :
  ((λ i, (device_id i, a ∪ DEFAULT_DEVICE_ATTRIBUTES)) <$> seq 0 N).*1
  = device_id <$> seq 0 N.
Proof. rewrite <-list_fmap_compose. by apply list_fmap_ext. Qed.

Lemma seed_attributes_lookup N (a : gmap string Value) k :
  seed_attributes N a !! device_id k
  = if decide (k < N) then Some (a ∪ DEFAULT_DEVICE_ATTRIBUTES) else None.
Proof.
  unfold seed_attributes. case_decide as Hk.
  - apply elem_of_list_to_map_1.
    + rewrite seed_attributes_keys. apply NoDup_fmap_2; [apply _|apply NoDup_seq].
    + apply list_elem_of_fmap. exists k. split; [done|]. apply elem_of_seq. lia.
  - apply not_elem_of_list_to_map_1. rewrite seed_attributes_keys.
    intros Hin. apply list_elem_of_fmap in Hin as (j & Heq & Hj).
    apply (inj device_id) in Heq as <-. apply elem_of_seq in Hj. lia.
Qed.

Lemma seed_attributes_nodes N (a : gmap string Value) k :
  is_Some (seed_attributes N a !! device_id k) ↔ k < N.
Proof.
  rewrite seed_attributes_lookup. case_decide; split; try done; try lia.
Qed.

Lemma seed_attributes_dom N (a : gmap string Value) :
  dom (seed_attributes N a) = list_to_set (device_id <$> seq 0 N).
Proof.
  unfold seed_attributes. rewrite dom_list_to_map_L.
  by rewrite seed_attributes_keys.
Qed.

Lemma seed_attributes_size N (a : gmap string Value) :
  size (seed_attributes N a) = N.
Proof.
  rewrite <-size_dom, seed_attributes_dom.
  rewrite size_list_to_set by (apply NoDup_fmap_2; [apply _|apply NoDup_seq]).
  by rewrite length_fmap, length_seq.
Qed.

Lemma oversubscribed_batches_truncated_witness :
  (∀ k, is_Some (sample_network !! device_id k) ↔ k < 4)
  ∧ Forall (λ d, (0 ≤ count d)%Z) sample_definitions
  ∧ Forall (λ d, keyword_clash (attributes d) = false) sample_definitions
  ∧ (Z.of_nat 4 < batch_start sample_definitions (length sample_definitions))%Z
  ∧ ∃ network',
      _apply_node_definitions sample_network sample_definitions = Some network'
      ∧ dom network' = dom sample_network
      ∧ (∀ k, k < 4 →
           ∃ a old,
             flatten_definitions sample_definitions !! k = Some a
             ∧ sample_network !! device_id k = Some old
             ∧ network' !! device_id k = Some (a ∪ old))
      ∧ (∀ k, 4 ≤ k → network' !! device_id k = None).
Proof.
  assert (Hnodes : ∀ k, is_Some (sample_network !! device_id k) ↔ k < 4)
    by apply seed_attributes_nodes.
  assert (Hpos : Forall (λ d, (0 ≤ count d)%Z) sample_definitions)
    by (repeat constructor; simpl; lia).
  assert (Hkeys : Forall (λ d, keyword_clash (attributes d) = false)
                    sample_definitions)
    by (repeat constructor; vm_compute; reflexivity).
  assert (Hover : (Z.of_nat 4
                   < batch_start sample_definitions (length sample_definitions))%Z)
    by (vm_compute; reflexivity).
  split; [exact Hnodes|]. split; [exact Hpos|]. split; [exact Hkeys|].
  split; [exact Hover|].
  exact (oversubscribed_batches_truncated sample_network 4 sample_definitions
           Hnodes Hpos Hkeys Hover).
Defined.

(** ** Random distribution mode *)

Section ShuffleFacts.
Context {A : Type}.
Implicit Types l : list A.

Lemma swap_Permutation l i j : swap l i j ≡ₚ l.
Proof.
  unfold swap. destruct (l !! i) as [x|] eqn:Hi; [|done].
  destruct (l !! j) as [y|] eqn:Hj; [|done].
  by apply Permutation_insert_swap.
Qed.

Lemma shuffle_from_Permutation randbelow i l : shuffle_from randbelow i l ≡ₚ l.
Proof.
  revert l. induction i as [|i IH]; intros l; simpl; [done|].
  by rewrite IH, swap_Permutation.
Qed.

Lemma shuffle_Permutation randbelow l : shuffle randbelow l ≡ₚ l.
Proof. apply shuffle_from_Permutation. Qed.

Lemma shuffle_length randbelow l : length (shuffle randbelow l) = length l.
Proof. apply Permutation_length, shuffle_Permutation. Qed.
End ShuffleFacts.

Section PairingFacts.
Implicit Types defs : list NodeDefinition.

Lemma pairing_length_eq N defs :
  length (pairing N defs).*1 = length (pairing N defs).*2.
Proof. by rewrite !length_fmap. Qed.

Lemma pairing_ids N defs :
  (pairing N defs).*1
  = device_id <$> seq 0 (N `min` length (flatten_definitions defs)).
Proof.
  unfold pairing. apply list_eq. intros i.
  rewrite !list_lookup_fmap.
  destruct (decide (i < N `min` length (flatten_definitions defs))) as [Hi|Hi].
  - destruct (lookup_lt_is_Some_2 (flatten_definitions defs) i) as [a Ha]; [lia|].
    rewrite lookup_seq_lt by done. simpl.
    assert (Hz : zip (device_id <$> seq 0 N) (flatten_definitions defs) !! i
                 = Some (device_id i, a)).
    { apply lookup_zip_with_Some. exists (device_id i), a.
      split; [done|]. split; [|done].
      rewrite list_lookup_fmap, lookup_seq_lt by lia. done. }
    by rewrite Hz.
  - rewrite lookup_seq_ge by lia. simpl.
    rewrite (proj2 (lookup_ge_None _ _)); [done|].
    rewrite length_zip, length_fmap, length_seq. lia.
Qed.

Lemma pairing_attrs N defs :
  (pairing N defs).*2 = take N (flatten_definitions defs).
Proof.
  unfold pairing. apply list_eq. intros i.
  rewrite list_lookup_fmap.
  destruct (decide (i < N)) as [Hi|Hi].
  - rewrite lookup_take_lt by done.
    destruct (flatten_definitions defs !! i) as [a|] eqn:Ha.
    + assert (Hz : zip (device_id <$> seq 0 N) (flatten_definitions defs) !! i
                   = Some (device_id i, a)).
      { apply lookup_zip_with_Some. exists (device_id i), a.
        split; [done|]. split; [|done].
        rewrite list_lookup_fmap, lookup_seq_lt by lia. done. }
      by rewrite Hz.
    + apply lookup_ge_None in Ha.
      rewrite (proj2 (lookup_ge_None _ _)); [done|].
      rewrite length_zip, length_fmap, length_seq. lia.
  - rewrite lookup_take_ge by lia.
    rewrite (proj2 (lookup_ge_None _ _)); [done|].
    rewrite length_zip, length_fmap, length_seq. lia.
Qed.

Lemma random_pairing_attrs randbelow N defs :
  (random_pairing randbelow N defs).*2 = (pairing N defs).*2.
Proof.
  unfold random_pairing. apply snd_zip.
  rewrite shuffle_length, pairing_length_eq. done.
Qed.

Lemma random_pairing_ids randbelow N defs :
  (random_pairing randbelow N defs).*1 = shuffle randbelow (pairing N defs).*1.
Proof.
  unfold random_pairing. apply fst_zip.
  rewrite shuffle_length, pairing_length_eq. done.
Qed.

Lemma random_pairing_ids_Permutation randbelow N defs :
  (random_pairing randbelow N defs).*1 ≡ₚ (pairing N defs).*1.
Proof. rewrite random_pairing_ids. apply shuffle_Permutation. Qed.
End PairingFacts.

Section WriteFacts.
Implicit Types net : gmap string (gmap string Value).
Implicit Types ks : list string.
Implicit Types vs : list (gmap string Value).

(** Writing a pairing with distinct device names, all of them nodes, and
    without a clashing keyword. *)
Lemma write_pairs_spec net ks vs :
  NoDup ks →
  (∀ k, k ∈ ks → is_Some (net !! k)) →
  Forall (λ v, keyword_clash v = false) vs →
  length ks = length vs →
  ∃ net', write_pairs net (zip ks vs) = Some net'
          ∧ (∀ i k v, ks !! i = Some k → vs !! i = Some v →
               net' !! k = Some (v ∪ get_device_attributes net k))
          ∧ ∀ s, s ∉ ks → net' !! s = net !! s.
Proof.
  intros Hnd. revert net vs.
  induction Hnd as [|k ks Hk Hnd IH]; intros net vs Hin Hkeys Hlen.
  - exists net. destruct vs; [|done]. split; [done|]. split; [|done].
    intros i k v Hi. by rewrite lookup_nil in Hi.
  - destruct vs as [|v vs]; [done|]. cbn [zip zip_with write_pairs].
    apply Forall_cons in Hkeys as [Hv Hkeys].
    destruct (Hin k) as [old Hold]; [by left|].
    unfold set_device_attributes at 1. rewrite Hv, Hold. cbn [mbind option_bind].
    destruct (IH (<[k := v ∪ old]> net) vs) as (net' & Hrun & Hi & Ho).
    { intros k' Hk'. rewrite lookup_insert_ne by (intros ->; done).
      apply Hin. by right. }
    { done. }
    { simpl in Hlen. lia. }
    exists net'. split; [done|]. split.
    + intros [|i] k' v' Hk' Hv'; simpl in Hk', Hv'.
      * injection Hk' as <-. injection Hv' as <-.
        unfold get_device_attributes. rewrite (Ho k Hk), lookup_insert_eq, Hold.
        done.
      * rewrite (Hi _ _ _ Hk' Hv'). unfold get_device_attributes.
        rewrite lookup_insert_ne; [done|].
        intros ->. apply Hk. by eapply list_elem_of_lookup_2.
    + intros s Hs. apply not_elem_of_cons in Hs as [Hne Hs].
      rewrite (Ho s Hs). by rewrite lookup_insert_ne.
Qed.
End WriteFacts.

Lemma fmap_const_replicate {A B} (f : A → B) (c : B) (l : list A) :
  (∀ x, x ∈ l → f x = c) → f <$> l = replicate (length l) c.
Proof.
  induction l as [|x l IH]; intros Hl; simpl; [done|].
  rewrite Hl by left. f_equal. apply IH. intros y Hy. apply Hl. by right.
Qed.

Section DistributionFacts.
Variable randbelow : nat → nat → nat.
Variable N : nat.
Variable net : gmap string (gmap string Value).
Variable defs : list NodeDefinition.
Hypothesis Hdense : dense_nodes N net.
Hypothesis Hkeys : Forall (λ d, keyword_clash (attributes d) = false) defs.

Let F : list (gmap string Value) := flatten_definitions defs.
Let K : nat := N `min` length (flatten_definitions defs).

Lemma dense_nodes_lookup k : is_Some (net !! device_id k) ↔ k < N.
Proof.
  rewrite <-elem_of_dom, Hdense, elem_of_list_to_set, list_elem_of_fmap. split.
  - intros (j & Heq & Hj). apply (inj device_id) in Heq as <-.
    apply elem_of_seq in Hj. lia.
  - intros Hk. exists k. split; [done|]. apply elem_of_seq. lia.
Qed.

Lemma dense_nodes_size : size net = N.
Proof.
  rewrite <-size_dom, Hdense.
  rewrite size_list_to_set by (apply NoDup_fmap_2; [apply _|apply NoDup_seq]).
  by rewrite length_fmap, length_seq.
Qed.

Lemma pairing_keys_ok : Forall (λ v, keyword_clash v = false) (pairing N defs).*2.
Proof.
  rewrite pairing_attrs. apply Forall_take, Forall_forall. intros v Hv.
  apply list_elem_of_lookup_1 in Hv as [j Hj].
  apply flatten_definitions_elem in Hj as (d & Hd & ->).
  rewrite Forall_forall in Hkeys. by apply Hkeys.
Qed.

(** The repository's sequential function writes the ordered pairing. *)
Lemma sequential_writes_pairing :
  _apply_node_definitions net defs = write_pairs net (pairing N defs).
Proof.
  destruct (apply_node_definitions_total net defs Hkeys)
    as (net1 & -> & Hin1 & Hout1).
  fold F in Hin1, Hout1.
  assert (Hlen : length (pairing N defs).*1 = length (pairing N defs).*2)
    by apply pairing_length_eq.
  assert (Hids : (pairing N defs).*1 = device_id <$> seq 0 (N `min` length F))
    by apply pairing_ids.
  destruct (write_pairs_spec net (pairing N defs).*1 (pairing N defs).*2)
    as (net2 & Hrun & Hin2 & Hout2).
  { rewrite Hids. apply NoDup_fmap_2; [apply _|apply NoDup_seq]. }
  { intros k Hk. rewrite Hids in Hk.
    apply list_elem_of_fmap in Hk as (j & -> & Hj). apply elem_of_seq in Hj.
    apply dense_nodes_lookup. lia. }
  { apply pairing_keys_ok. }
  { done. }
  rewrite zip_fst_snd in Hrun. rewrite Hrun. f_equal.
  apply map_eq. intros s.
  destruct (decide (s ∈ device_id <$> seq 0 (length F))) as [Hs|Hs].
  - apply list_elem_of_fmap in Hs as (j & -> & Hj). apply elem_of_seq in Hj.
    destruct (lookup_lt_is_Some_2 F j) as [v Hv]; [lia|].
    rewrite (Hin1 _ _ Hv).
    destruct (decide (j < N)) as [HjN|HjN].
    + assert (Hk : (pairing N defs).*1 !! j = Some (device_id j)).
      { rewrite Hids, list_lookup_fmap, lookup_seq_lt by lia. done. }
      assert (Hv' : (pairing N defs).*2 !! j = Some v).
      { rewrite pairing_attrs, lookup_take_lt by done. done. }
      rewrite (Hin2 _ _ _ Hk Hv'). unfold get_device_attributes.
      destruct (proj2 (dense_nodes_lookup j) HjN) as [old ->]. done.
    + rewrite Hout2.
      * assert (net !! device_id j = None) as ->; [|done].
        apply eq_None_not_Some. rewrite dense_nodes_lookup. lia.
      * rewrite Hids. intros Hel.
        apply list_elem_of_fmap in Hel as (j' & Heq & Hj').
        apply (inj device_id) in Heq as <-. apply elem_of_seq in Hj'. lia.
  - rewrite Hout1, Hout2; [done| |].
    + rewrite Hids. intros Hel. apply Hs.
      apply list_elem_of_fmap in Hel as (j' & -> & Hj').
      apply list_elem_of_fmap. exists j'. split; [done|].
      apply elem_of_seq in Hj'. apply elem_of_seq. lia.
    + intros j Hj ->. apply Hs. apply list_elem_of_fmap. exists j.
      split; [done|]. apply elem_of_seq. lia.
Qed.

Lemma shuffled_ids_elem k :
  k ∈ shuffle randbelow (pairing N defs).*1 ↔ ∃ j, k = device_id j ∧ j < K.
Proof.
  rewrite shuffle_Permutation, pairing_ids, list_elem_of_fmap.
  fold K. split; intros (j & -> & Hj); exists j; split; try done.
  - apply elem_of_seq in Hj. lia.
  - apply elem_of_seq. lia.
Qed.

Lemma shuffled_ids_NoDup : NoDup (shuffle randbelow (pairing N defs).*1).
Proof.
  rewrite shuffle_Permutation, pairing_ids.
  apply NoDup_fmap_2; [apply _|apply NoDup_seq].
Qed.

(** An observation [obs] of the attribute maps that, on the devices of
    the network, depends on the batch attributes only. *)
Context {X : Type}.
Variable obs : gmap string Value → X.
Variable h : gmap string Value → X.
Variable c : X.
Hypothesis Hobs : ∀ k v, k < N →
  obs (v ∪ get_device_attributes net (device_id k)) = h v.
Hypothesis Hc : ∀ k, k < N → obs (get_device_attributes net (device_id k)) = c.

(** The sequential mode, device by device. *)
Lemma sequential_observed sequential :
  _apply_node_definitions net defs = Some sequential →
  obs <$> device_attribute_list N sequential = observed_list N h c defs.
Proof.
  intros Hrun.
  destruct (apply_node_definitions_result _ _ _ Hrun) as (Hin & Hout & _).
  unfold device_attribute_list, observed_list. fold F in Hin, Hout |- *.
  rewrite <-list_fmap_compose.
  apply list_eq. intros i. rewrite list_lookup_fmap.
  destruct (decide (i < N)) as [Hi|Hi].
  - rewrite lookup_seq_lt by done. simpl.
    destruct (proj2 (dense_nodes_lookup i) Hi) as [old Hold].
    destruct (F !! i) as [v|] eqn:Hv.
    + pose proof (lookup_lt_Some _ _ _ Hv) as Hlt.
      rewrite lookup_app_l by (rewrite length_fmap, length_take; lia).
      rewrite list_lookup_fmap, lookup_take_lt, Hv by done. simpl. f_equal.
      rewrite <-(Hobs i v Hi). unfold get_device_attributes.
      by rewrite (Hin _ _ Hv), Hold.
    + apply lookup_ge_None in Hv.
      rewrite lookup_app_r by (rewrite length_fmap, length_take; lia).
      rewrite length_fmap, length_take, lookup_replicate_2 by lia. f_equal.
      rewrite <-(Hc i Hi). unfold get_device_attributes. rewrite Hout; [done|].
      intros j Hj Heq. apply (inj device_id) in Heq. lia.
  - rewrite lookup_seq_ge by lia. simpl. symmetry. apply lookup_ge_None.
    rewrite length_app, length_fmap, length_take, length_replicate. lia.
Qed.

(** The random mode never fails and leaves the same observations, in
    another order. *)
Lemma random_observed :
  ∃ random, write_pairs net (random_pairing randbelow N defs) = Some random
            ∧ obs <$> device_attribute_list N random ≡ₚ observed_list N h c defs.
Proof.
  unfold random_pairing. cbn zeta.
  set (ks := shuffle randbelow (pairing N defs).*1).
  set (vs := (pairing N defs).*2).
  assert (Hlen : length ks = length vs).
  { unfold ks, vs. by rewrite shuffle_length, pairing_length_eq. }
  destruct (write_pairs_spec net ks vs) as (random & Hrun & Hin & Hout).
  { apply shuffled_ids_NoDup. }
  { intros k Hk. apply shuffled_ids_elem in Hk as (j & -> & Hj).
    apply dense_nodes_lookup. unfold K in Hj. lia. }
  { apply pairing_keys_ok. }
  { done. }
  exists random. split; [done|].
  set (g := λ k : string, obs (get_device_attributes random k)).
  unfold device_attribute_list, observed_list.
  transitivity (g <$> (device_id <$> seq 0 N)).
  { apply reflexive_eq. by rewrite <-!list_fmap_compose. }
  replace N with (K + (N - K)) at 1 by (unfold K; lia).
  rewrite seq_app, !fmap_app. apply Permutation_app.
  - unfold K. rewrite <-pairing_ids.
    rewrite <-(shuffle_Permutation randbelow (pairing N defs).*1). fold ks.
    rewrite <-pairing_attrs. fold vs.
    apply reflexive_eq. apply list_eq. intros i.
    rewrite !list_lookup_fmap.
    destruct (ks !! i) as [k|] eqn:Hk.
    + destruct (lookup_lt_is_Some_2 vs i) as [v Hv].
      { rewrite <-Hlen. by eapply lookup_lt_Some. }
      rewrite Hv. simpl. f_equal. unfold g, get_device_attributes at 1.
      rewrite (Hin _ _ _ Hk Hv). simpl.
      assert (Hel : k ∈ ks) by (by eapply list_elem_of_lookup_2).
      apply shuffled_ids_elem in Hel as (j & -> & Hj).
      apply Hobs. unfold K in Hj. lia.
    + apply lookup_ge_None in Hk. rewrite Hlen in Hk.
      apply lookup_ge_None in Hk. by rewrite Hk.
  - apply reflexive_eq. rewrite <-list_fmap_compose.
    rewrite (fmap_const_replicate _ c).
    + rewrite length_seq. f_equal. unfold K. lia.
    + intros j Hj. apply elem_of_seq in Hj. simpl. unfold g.
      rewrite <-(Hc j) by lia. f_equal.
      unfold get_device_attributes. rewrite Hout; [done|].
      intros Hel. apply shuffled_ids_elem in Hel as (j' & Heq & Hj').
      apply (inj device_id) in Heq. lia.
Qed.
End DistributionFacts.



(** ** The simulation driver *)

Lemma initialize_fresh N initial_infected d0 :
  initialize N initial_infected = Some d0 →
  status d0 = Running ∧ current_step d0 = 0 ∧ evaluations d0 = 0
  ∧ history d0 = [] ∧ length (state d0) = N.
Proof.
  unfold initialize. intros Hinit.
  destruct (mapM (resolve N) initial_infected) as [ids|]; [|done].
  simpl in Hinit. injection Hinit as <-. simpl.
  by rewrite length_fmap, length_seq.
Qed.

Section DriverFacts.
Variable graph : list (list nat).
Variable attributes : gmap string (gmap string Value).
Variable random : nat → Q.
Variable cfg : Malware.
Variable max_steps : nat.

Local Abbreviation eval_step := (evaluate graph attributes random cfg).
Local Abbreviation loop_tick := (tick graph attributes random cfg max_steps).

Lemma tick_idle d : status d ≠ Running → loop_tick d = d.
Proof. unfold tick. by destruct (status d). Qed.

Lemma iter_tick_idle n d : status d ≠ Running → Nat.iter n loop_tick d = d.
Proof.
  intros Hd. induction n as [|n IH]; simpl; [done|].
  rewrite IH. by apply tick_idle.
Qed.

Lemma tick_cap d :
  status d = Running → current_step d = max_steps →
  loop_tick d = set_status Completed d.
Proof.
  intros Hs Hc. unfold tick. rewrite Hs.
  by rewrite (proj2 (Nat.eqb_eq _ _) Hc).
Qed.

Lemma tick_evaluate d :
  status d = Running → current_step d ≠ max_steps →
  loop_tick d = if steady (eval_step d).1 (eval_step d).2
           then set_status Completed (eval_step d).1
           else (eval_step d).1.
Proof.
  intros Hs Hc. unfold tick. rewrite Hs.
  rewrite (proj2 (Nat.eqb_neq _ _) Hc). by destruct (eval_step d).
Qed.

Lemma tick_invariant n d : loop_invariant max_steps n d → loop_invariant max_steps (S n) (loop_tick d).
Proof.
  intros (Hc & Hh & Hm & [[Hs He]|[Hs He]]).
  - destruct (decide (current_step d = max_steps)) as [Hcap|Hcap].
    + rewrite tick_cap by done. repeat split; simpl; try done.
      right. split; [done|lia].
    + rewrite tick_evaluate by done.
      destruct (steady _ _); repeat split; simpl;
        rewrite ?length_app; simpl; try lia.
      * right. split; [done|lia].
      * left. split; [done|lia].
  - rewrite tick_idle by (rewrite Hs; done).
    repeat split; try done. right. split; [done|lia].
Qed.

Lemma iter_tick_invariant n d0 :
  loop_invariant max_steps 0 d0 →
  loop_invariant max_steps n (Nat.iter n loop_tick d0).
Proof.
  intros H0. induction n as [|n IH]; simpl; [done|]. by apply tick_invariant.
Qed.

Lemma initialize_invariant N initial_infected d0 :
  initialize N initial_infected = Some d0 → loop_invariant max_steps 0 d0.
Proof.
  intros (Hs & Hc & He & Hh & _)%initialize_fresh.
  unfold loop_invariant. rewrite Hc, He, Hh. simpl.
  repeat split; try lia. by left.
Qed.
End DriverFacts.

(** C5. Termination: from an initialized driver, [run] ends in the state
    [Completed] after at most [max_steps + 1] step evaluations (never
    more than [max_steps]); and as soon as a step infects nobody while no
    device incubates, the run stops there: that evaluation is the last. *)
Theorem run_terminates (graph : list (list nat))
    (attributes : gmap string (gmap string Value)) (random : nat → Q)
    (cfg : Malware) (initial_infected : list string) (max_steps : nat)
    (d0 : Driver) :
  initialize (length graph) initial_infected = Some d0 →
  status (run graph attributes random cfg max_steps d0) = Completed
  ∧ evaluations (run graph attributes random cfg max_steps d0) ≤ max_steps + 1
  ∧ ∀ n,
      let d := Nat.iter n (tick graph attributes random cfg max_steps) d0 in
      let e := evaluate graph attributes random cfg d in
      status d = Running →
      current_step d ≠ max_steps →
      steady e.1 e.2 = true →
      run graph attributes random cfg max_steps d0 = set_status Completed e.1
      ∧ evaluations (run graph attributes random cfg max_steps d0) = S n.
Proof.
  intros Hinit.
  pose proof (initialize_invariant max_steps _ _ _ Hinit) as H0.
  pose proof (iter_tick_invariant graph attributes random cfg max_steps
                (S max_steps) d0 H0) as (Hc & Hh & Hm & Hst).
  fold (run graph attributes random cfg max_steps d0) in Hc, Hh, Hm, Hst.
  split; [|split].
  - destruct Hst as [[_ He]|[Hs _]]; [lia|done].
  - lia.
  - intros n d e Hs Hcap Hsteady.
    pose proof (iter_tick_invariant graph attributes random cfg max_steps
                  n d0 H0) as (Hcn & _ & Hmn & Hstn).
    fold d in Hcn, Hmn, Hstn.
    assert (Hn : evaluations d = n).
    { destruct Hstn as [[_ ?]|[Hs' _]]; [done|]. rewrite Hs in Hs'. done. }
    assert (Hlt : n < max_steps) by lia.
    assert (Htick : tick graph attributes random cfg max_steps d
                    = set_status Completed e.1).
    { rewrite tick_evaluate by done. fold e. by rewrite Hsteady. }
    unfold run. replace (S max_steps) with ((max_steps - n) + S n) by lia.
    rewrite Nat.iter_add, Nat.iter_succ. fold d. rewrite Htick.
    rewrite iter_tick_idle by done.
    split; [done|]. simpl. by rewrite Hn.
Qed.

Lemma run_terminates_witness :
  initialize (length scenario_A_graph) ["device_0"] = Some scenario_A_initial
  ∧ status (run scenario_A_graph scenario_A_attributes (always (1 # 2))
              scenario_A_malware 100 scenario_A_initial) = Completed
  ∧ evaluations (run scenario_A_graph scenario_A_attributes (always (1 # 2))
                   scenario_A_malware 100 scenario_A_initial) ≤ 100 + 1
  ∧ evaluations (run scenario_A_graph scenario_A_attributes (always (1 # 2))
                   scenario_A_malware 100 scenario_A_initial) = 2.
Proof.
  assert (Hinit : initialize (length scenario_A_graph) ["device_0"]
                  = Some scenario_A_initial) by (vm_compute; reflexivity).
  split; [exact Hinit|].
  destruct (run_terminates scenario_A_graph scenario_A_attributes (always (1 # 2))
              scenario_A_malware ["device_0"] 100 scenario_A_initial Hinit)
    as (Hdone & Hbound & Hearly).
  split; [exact Hdone|]. split; [exact Hbound|].
  apply (Hearly 1); vm_compute; [reflexivity|discriminate|reflexivity].
Defined.

(** ** Monotonicity of the infected count *)

Lemma count_infected_cons x st :
  count_infected (x :: st) = (if is_infected x then 1 else 0) + count_infected st.
Proof.
  unfold count_infected. rewrite filter_cons.
  destruct (is_infected x); by case_decide.
Qed.

Lemma count_infected_imap_le (f : nat → DeviceState → DeviceState) st :
  (∀ i x, is_infected x = true → is_infected (f i x) = true) →
  count_infected st ≤ count_infected (imap f st).
Proof.
  revert f. induction st as [|x st IH]; intros f Hf; [done|].
  rewrite imap_cons, !count_infected_cons.
  specialize (IH (f ∘ S) (λ i, Hf (S i))).
  destruct (is_infected x) eqn:Hx; [rewrite (Hf 0 x Hx)|]; lia.
Qed.

Lemma count_infected_fmap (g : DeviceState → DeviceState) st :
  (∀ x, is_infected (g x) = is_infected x) →
  count_infected (g <$> st) = count_infected st.
Proof.
  intros Hg. induction st as [|x st IH]; [done|].
  rewrite fmap_cons, !count_infected_cons, Hg, IH. done.
Qed.

Section MonotonicityFacts.
Variable graph : list (list nat).
Variable attributes : gmap string (gmap string Value).
Variable random : nat → Q.
Variable cfg : Malware.
Variable max_steps : nat.

Local Abbreviation eval_step := (evaluate graph attributes random cfg).
Local Abbreviation loop_tick := (tick graph attributes random cfg max_steps).

Lemma count_infected_promote k st :
  count_infected (promote k st) = count_infected st.
Proof.
  apply count_infected_fmap. intros [|s a|]; try done.
  simpl. by destruct (a =? k).
Qed.

Lemma count_infected_apply_delta r k st :
  count_infected st ≤ count_infected (apply_delta r k st).
Proof.
  apply count_infected_imap_le. intros i x Hx.
  repeat case_bool_decide; done.
Qed.

Lemma evaluate_count d :
  count_infected (state d) ≤ count_infected (state (eval_step d).1).
Proof.
  simpl. rewrite count_infected_promote. apply count_infected_apply_delta.
Qed.

Lemma evaluate_stays_infected d i :
  infected_at (state d) i = true →
  infected_at (state (eval_step d).1) i = true.
Proof.
  unfold infected_at. cbn [evaluate fst state]. unfold promote, apply_delta.
  rewrite list_lookup_fmap, list_lookup_imap.
  destruct (state d !! i) as [x|]; [|done]. simpl. intros Hx.
  repeat case_bool_decide; try done.
  - by destruct (_ =? _).
  - destruct x as [|s a|]; try done. by destruct (_ =? _).
Qed.

Lemma tick_stays_infected d i :
  infected_at (state d) i = true → infected_at (state (loop_tick d)) i = true.
Proof.
  intros Hi. unfold tick. destruct (status d); try done.
  destruct (current_step d =? max_steps); [done|].
  pose proof (evaluate_stays_infected d i Hi).
  destruct (eval_step d) as [d' r]. by destruct (steady d' r).
Qed.

Lemma iter_tick_stays_infected m d i :
  infected_at (state d) i = true →
  infected_at (state (Nat.iter m loop_tick d)) i = true.
Proof.
  intros Hi. induction m as [|m IH]; simpl; [done|].
  by apply tick_stays_infected.
Qed.

Lemma evaluate_history_invariant c0 d :
  current_step d = length (history d) →
  history_invariant c0 d → history_invariant c0 (eval_step d).1.
Proof.
  intros Hlen (Hc0 & Hrec & Hmono).
  pose proof (evaluate_count d) as Hle.
  unfold history_invariant.
  set (st := state (eval_step d).1) in *.
  split; [lia|]. split.
  - intros i r Hi. cbn [evaluate fst history] in Hi.
    apply lookup_app_Some in Hi as [Hi|[Hge Hi]].
    + destruct (Hrec _ _ Hi) as (? & ? & ?). fold st. split; [done|lia].
    + apply list_lookup_singleton_Some in Hi as [Hi <-].
      split; [simpl; lia|].
      change (c0 ≤ count_infected st ≤ count_infected st). lia.
  - intros i r1 r2 H1 H2. cbn [evaluate fst history] in H1, H2.
    apply lookup_app_Some in H2 as [H2|[Hge H2]].
    + rewrite lookup_app_l in H1 by (apply lookup_lt_Some in H2; lia).
      by eapply Hmono.
    + apply list_lookup_singleton_Some in H2 as [H2 <-].
      rewrite lookup_app_l in H1 by lia.
      destruct (Hrec _ _ H1) as (_ & _ & ?).
      change (total_infectious_or_infected r1 ≤ count_infected st). lia.
Qed.

Lemma set_status_history_invariant c0 s d :
  history_invariant c0 d → history_invariant c0 (set_status s d).
Proof. done. Qed.

Lemma tick_history_invariant c0 n d :
  loop_invariant max_steps n d →
  history_invariant c0 d → history_invariant c0 (loop_tick d).
Proof.
  intros (Hc & Hh & _ & _) Hinv.
  destruct (decide (status d = Running)) as [Hs|Hs];
    [|by rewrite tick_idle].
  destruct (decide (current_step d = max_steps)) as [Hcap|Hcap].
  - rewrite tick_cap by done. by apply set_status_history_invariant.
  - rewrite tick_evaluate by done.
    assert (history_invariant c0 (eval_step d).1)
      by (apply evaluate_history_invariant; [lia|done]).
    destruct (steady _ _); [by apply set_status_history_invariant|done].
Qed.

Lemma iter_tick_history_invariant n d0 :
  loop_invariant max_steps 0 d0 →
  history d0 = [] →
  history_invariant (count_infected (state d0)) (Nat.iter n loop_tick d0).
Proof.
  intros H0 Hh. induction n as [|n IH]; simpl.
  - split; [done|]. rewrite Hh. split; intros i r; by rewrite lookup_nil.
  - eapply tick_history_invariant; [|done].
    by apply iter_tick_invariant.
Qed.
End MonotonicityFacts.

(** C4. Monotonicity: at every point of a run, the cumulative infected
    count recorded at step [k + 1] is at least the count recorded at step
    [k] (step 0 being the initial state); the record at position [k] of
    the history is the record of step [k + 1]; and a device that is
    infected stays infected, whatever the number of further iterations. *)
Theorem infected_count_monotone (graph : list (list nat))
    (attributes : gmap string (gmap string Value)) (random : nat → Q)
    (cfg : Malware) (initial_infected : list string) (max_steps : nat)
    (d0 : Driver) (n k c1 c2 : nat) :
  initialize (length graph) initial_infected = Some d0 →
  let d := Nat.iter n (tick graph attributes random cfg max_steps) d0 in
  infected_count_at d0 d k = Some c1 →
  infected_count_at d0 d (S k) = Some c2 →
  c1 ≤ c2
  ∧ (∀ r, history d !! k = Some r → step_index r = S k)
  ∧ (∀ i m, infected_at (state d) i = true →
            infected_at
              (state (Nat.iter m (tick graph attributes random cfg max_steps) d))
              i = true).
Proof.
  intros Hinit d H1 H2.
  pose proof (initialize_invariant max_steps _ _ _ Hinit) as H0.
  destruct (initialize_fresh _ _ _ Hinit) as (_ & _ & _ & Hh & _).
  pose proof (iter_tick_history_invariant graph attributes random cfg max_steps
                n d0 H0 Hh) as (Hc0 & Hrec & Hmono).
  fold d in Hc0, Hrec, Hmono.
  split; [|split; [intros r Hr; by destruct (Hrec _ _ Hr)|]].
  2: { intros i m Hi. by apply iter_tick_stays_infected. }
  simpl in H2. destruct (history d !! k) as [r2|] eqn:Hr2; [|done].
  injection H2 as <-.
  destruct k as [|k]; simpl in H1.
  - injection H1 as <-. by destruct (Hrec _ _ Hr2) as (_ & ? & _).
  - destruct (history d !! k) as [r1|] eqn:Hr1; [|done].
    injection H1 as <-. by eapply Hmono.
Qed.

Lemma infected_count_monotone_witness :
  initialize (length scenario_A_graph) ["device_0"] = Some scenario_A_initial
  ∧ infected_count_at scenario_A_initial
      (Nat.iter 2 (tick scenario_A_graph scenario_A_attributes (always (1 # 2))
                     scenario_A_malware 100) scenario_A_initial) 0 = Some 1
  ∧ infected_count_at scenario_A_initial
      (Nat.iter 2 (tick scenario_A_graph scenario_A_attributes (always (1 # 2))
                     scenario_A_malware 100) scenario_A_initial) 1 = Some 10
  ∧ 1 ≤ 10
  ∧ infected_at
      (state (Nat.iter 5 (tick scenario_A_graph scenario_A_attributes
                            (always (1 # 2)) scenario_A_malware 100)
                (Nat.iter 2 (tick scenario_A_graph scenario_A_attributes
                               (always (1 # 2)) scenario_A_malware 100)
                   scenario_A_initial))) 7 = true.
Proof.
  assert (Hinit : initialize (length scenario_A_graph) ["device_0"]
                  = Some scenario_A_initial) by (vm_compute; reflexivity).
  assert (H0 : infected_count_at scenario_A_initial
                 (Nat.iter 2 (tick scenario_A_graph scenario_A_attributes
                                (always (1 # 2)) scenario_A_malware 100)
                    scenario_A_initial) 0 = Some 1) by (vm_compute; reflexivity).
  assert (H1 : infected_count_at scenario_A_initial
                 (Nat.iter 2 (tick scenario_A_graph scenario_A_attributes
                                (always (1 # 2)) scenario_A_malware 100)
                    scenario_A_initial) 1 = Some 10) by (vm_compute; reflexivity).
  destruct (infected_count_monotone scenario_A_graph scenario_A_attributes
              (always (1 # 2)) scenario_A_malware ["device_0"] 100
              scenario_A_initial 2 0 1 10 Hinit H0 H1) as (Hle & _ & Hstay).
  split; [exact Hinit|]. split; [exact H0|]. split; [exact H1|].
  split; [exact Hle|].
  apply (Hstay 7 5). vm_compute; reflexivity.
Defined.

(** ** The engine: where the targets of a step come from *)

Lemma lowest_elem (E : list nat) x : x ∈ lowest E → x ∈ E.
Proof.
  destruct E as [|y rest]; simpl; [done|].
  intros ->%list_elem_of_singleton.
  induction rest as [|z rest IH]; simpl; [by left|].
  destruct (Nat.min_dec z (foldr Nat.min y rest)) as [->| ->].
  - right. by left.
  - apply elem_of_cons in IH as [->|?]; [by left|]. right. by right.
Qed.

Section EngineFacts.
Variable graph : list (list nat).
Variable attributes : gmap string (gmap string Value).
Variable random : nat → Q.
Variable cfg : Malware.

Lemma infectious_devices_elem st u :
  u ∈ infectious_devices st ↔ st !! u = Some Infectious.
Proof.
  unfold infectious_devices, is_infectious.
  rewrite list_elem_of_filter, elem_of_seq. split.
  - intros [Hu _]. destruct (st !! u) as [[| |]|]; done.
  - intros Hu. rewrite Hu. split; [done|].
    apply lookup_lt_Some in Hu. lia.
Qed.

Lemma is_healthy_lookup st t : is_healthy st t = true ↔ st !! t = Some Healthy.
Proof.
  unfold is_healthy. destruct (st !! t) as [[| |]|]; split; done.
Qed.

(** The tested neighbors of [s] are healthy neighbors that pass the
    privilege filter. *)
Lemma eligible_elem st s t :
  t ∈ eligible graph attributes cfg st s →
  t ∈ neighbors graph s ∧ st !! t = Some Healthy
  ∧ privilege_ok attributes cfg s t = true.
Proof.
  unfold eligible, sample. intros Ht.
  assert (Hin : t ∈ filter (λ n, target_ok attributes cfg n = true)
                  (filter (λ n, privilege_ok attributes cfg s n = true)
                     (filter (λ n, is_healthy st n = true) (neighbors graph s)))).
  { destruct (spread_pattern cfg); [done|done|by apply lowest_elem]. }
  apply list_elem_of_filter in Hin as [_ Hin].
  apply list_elem_of_filter in Hin as [Hpriv Hin].
  apply list_elem_of_filter in Hin as [Hh Hin].
  by rewrite <-is_healthy_lookup.
Qed.

Lemma infect_from_elem st s calls t :
  t ∈ (infect_from graph attributes random cfg st s calls).1 →
  t ∈ neighbors graph s ∧ st !! t = Some Healthy
  ∧ privilege_ok attributes cfg s t = true.
Proof.
  unfold infect_from. intros [Ht _]%spread_at_elem. by apply eligible_elem.
Qed.

Lemma infect_all_elem st sources newly calls t :
  t ∈ (infect_all graph attributes random cfg st sources newly calls).1 →
  t ∈ newly
  ∨ ∃ s, s ∈ sources ∧ t ∈ neighbors graph s ∧ st !! t = Some Healthy
         ∧ privilege_ok attributes cfg s t = true.
Proof.
  revert newly calls.
  induction sources as [|s rest IH]; intros newly calls; simpl; [by left|].
  destruct (infect_from graph attributes random cfg st s calls)
    as [targets calls'] eqn:Hfrom.
  intros Ht. destruct (IH _ _ Ht) as [Hacc|(s' & Hs' & Hrest)].
  - apply elem_of_union in Hacc as [?|Hnew]; [by left|right].
    apply elem_of_list_to_set in Hnew. exists s. split; [by left|].
    apply (infect_from_elem st s calls). by rewrite Hfrom.
  - right. exists s'. split; [by right|done].
Qed.

(** Every device infected in a step is a healthy neighbor of a device
    that is infectious in the snapshot. *)
Lemma step_newly_elem st k calls t :
  t ∈ res_newly_infected (step graph attributes random cfg st k calls) →
  ∃ u, u ∈ infectious_devices st ∧ t ∈ neighbors graph u
       ∧ st !! t = Some Healthy ∧ privilege_ok attributes cfg u t = true.
Proof.
  unfold step.
  destruct (infect_all graph attributes random cfg st (infectious_devices st) ∅ calls)
    as [newly calls'] eqn:Hall.
  simpl. intros Ht.
  destruct (infect_all_elem st (infectious_devices st) ∅ calls t) as [Hacc|Hsrc].
  - by rewrite Hall.
  - by apply not_elem_of_empty in Hacc.
  - done.
Qed.

Lemma step_newly_infectious st k calls :
  res_newly_infectious (step graph attributes random cfg st k calls)
  = if latency cfg =? 0
    then res_newly_infected (step graph attributes random cfg st k calls)
    else ∅.
Proof. unfold step. by destruct (infect_all _ _ _ _ _ _ _ _). Qed.

Lemma step_activates_at st k calls :
  res_activates_at_step (step graph attributes random cfg st k calls)
  = k + latency cfg.
Proof. unfold step. by destruct (infect_all _ _ _ _ _ _ _ _). Qed.

(** With [avoids_admin] the privilege filter does not look at the
    source. *)
Lemma privilege_ok_avoids_admin s n :
  avoids_admin cfg = true →
  privilege_ok attributes cfg s n
  = negb (admin_user_of (Some (attributes_of attributes)) n).
Proof.
  intros Hcfg. unfold privilege_ok. rewrite Hcfg.
  destruct (admin_user_of _ s), (admin_user_of _ n); done.
Qed.
End EngineFacts.

(** C2. With [avoids_admin] set, the spread step removes every neighbor
    with [admin_user == true] from the eligible set of every source,
    whatever the privilege of the source: the eligible set is computed
    from the healthy non-admin neighbors alone, so no admin device is
    tested, and no device that a step infects is an admin device. *)
Theorem avoids_admin_removes_admin_neighbors (graph : list (list nat))
    (attributes : gmap string (gmap string Value)) (random : nat → Q)
    (cfg : Malware) (state : list DeviceState) :
  avoids_admin cfg = true →
  (∀ s, eligible graph attributes cfg state s
        = sample cfg
            (filter (λ n, target_ok attributes cfg n = true)
               (filter (λ n, admin_user_of (Some (attributes_of attributes)) n
                             = false)
                  (filter (λ n, is_healthy state n = true) (neighbors graph s)))))
  ∧ (∀ s t, t ∈ eligible graph attributes cfg state s →
            admin_user_of (Some (attributes_of attributes)) t = false)
  ∧ (∀ k calls t,
       t ∈ res_newly_infected (step graph attributes random cfg state k calls) →
       admin_user_of (Some (attributes_of attributes)) t = false).
Proof.
  intros Hcfg.
  assert (Hpriv : ∀ s n, privilege_ok attributes cfg s n = true
                         ↔ admin_user_of (Some (attributes_of attributes)) n = false).
  { intros s n. rewrite privilege_ok_avoids_admin by done.
    by destruct (admin_user_of _ n). }
  split; [|split].
  - intros s. unfold eligible. f_equal. f_equal.
    apply list_filter_iff. intros n. apply Hpriv.
  - intros s t Ht. apply eligible_elem in Ht as (_ & _ & Hok).
    by apply (Hpriv s).
  - intros k calls t Ht. apply step_newly_elem in Ht as (u & _ & _ & _ & Hok).
    by apply (Hpriv u).
Qed.

Lemma avoids_admin_removes_admin_neighbors_witness :
  avoids_admin sample_malware = true
  ∧ eligible (complete 4) sample_assigned sample_malware
      [Infectious; Healthy; Healthy; Healthy] 0 = [2; 3]
  ∧ (∀ s t, t ∈ eligible (complete 4) sample_assigned sample_malware
                  [Infectious; Healthy; Healthy; Healthy] s →
            admin_user_of (Some (attributes_of sample_assigned)) t = false)
  ∧ (∀ k calls t,
       t ∈ res_newly_infected
             (step (complete 4) sample_assigned (always (1 # 2)) sample_malware
                [Infectious; Healthy; Healthy; Healthy] k calls) →
       admin_user_of (Some (attributes_of sample_assigned)) t = false).
Proof.
  split; [reflexivity|]. split; [vm_compute; reflexivity|].
  exact (proj2 (avoids_admin_removes_admin_neighbors (complete 4) sample_assigned
                  (always (1 # 2)) sample_malware
                  [Infectious; Healthy; Healthy; Healthy] eq_refl)).
Defined.

(** ** Latency *)

Section LatencyFacts.
Variable graph : list (list nat).
Variable attributes : gmap string (gmap string Value).
Variable random : nat → Q.
Variable cfg : Malware.
Variable max_steps : nat.

Local Abbreviation eval_step := (evaluate graph attributes random cfg).
Local Abbreviation loop_tick := (tick graph attributes random cfg max_steps).

Lemma evaluate_latency_invariant d :
  latency_invariant (latency cfg) d →
  latency_invariant (latency cfg) (eval_step d).1.
Proof.
  intros Hinv rec dev Hrec Hdev.
  set (k := S (current_step d)).
  set (r := step graph attributes random cfg (state d) k (calls d)).
  assert (Hstate : state (eval_step d).1 = promote k (apply_delta r k (state d)))
    by done.
  assert (Hstep : current_step (eval_step d).1 = k) by done.
  rewrite Hstate, Hstep. unfold promote, apply_delta.
  rewrite list_lookup_fmap, list_lookup_imap.
  pose proof (step_newly_infectious graph attributes random cfg
                (state d) k (calls d)) as Hinf.
  pose proof (step_activates_at graph attributes random cfg
                (state d) k (calls d)) as Hact.
  fold r in Hinf, Hact.
  cbn [evaluate fst history] in Hrec. fold k r in Hrec.
  apply elem_of_app in Hrec as [Hold|Hnew].
  - specialize (Hinv rec dev Hold Hdev).
    assert (Hnot : dev ∉ res_newly_infected r).
    { intros Hin. apply step_newly_elem in Hin as (_ & _ & _ & Hh & _).
      rewrite Hh in Hinv. done. }
    assert (Hnot' : dev ∉ res_newly_infectious r).
    { rewrite Hinf. destruct (latency cfg =? 0); [done|set_solver]. }
    destruct (state d !! dev) as [[|s a|]|]; simpl; try done;
      rewrite !bool_decide_eq_false_2 by done.
    + destruct Hinv as (-> & -> & Hlt).
      destruct (step_index rec + latency cfg =? k) eqn:Heq.
      * apply Nat.eqb_eq in Heq. lia.
      * apply Nat.eqb_neq in Heq. repeat split; try done. unfold k in *. lia.
    + unfold k. lia.
  - apply list_elem_of_singleton in Hnew as ->. simpl in Hdev |- *.
    pose proof Hdev as Hin.
    apply step_newly_elem in Hin as (_ & _ & _ & Hh & _).
    rewrite Hh. simpl. rewrite Hinf, Hact.
    destruct (latency cfg) as [|L] eqn:HL; simpl.
    + rewrite bool_decide_eq_true_2 by done. lia.
    + rewrite bool_decide_eq_false_2 by set_solver.
      rewrite bool_decide_eq_true_2 by done.
      rewrite (proj2 (Nat.eqb_neq _ _)) by lia. repeat split; lia.
Qed.

Lemma tick_latency_invariant d :
  latency_invariant (latency cfg) d →
  latency_invariant (latency cfg) (loop_tick d).
Proof.
  intros Hinv.
  destruct (decide (status d = Running)) as [Hs|Hs];
    [|by rewrite tick_idle].
  destruct (decide (current_step d = max_steps)) as [Hcap|Hcap].
  - by rewrite tick_cap.
  - rewrite tick_evaluate by done.
    pose proof (evaluate_latency_invariant d Hinv).
    by destruct (steady _ _).
Qed.

Lemma iter_tick_latency_invariant n d0 :
  history d0 = [] →
  latency_invariant (latency cfg) (Nat.iter n loop_tick d0).
Proof.
  intros Hh. induction n as [|n IH]; simpl.
  - intros rec dev Hrec. rewrite Hh in Hrec. by apply elem_of_nil in Hrec.
  - by apply tick_latency_invariant.
Qed.
End LatencyFacts.

(** C3. Latency invariant: at every point of a run, a device that acts as
    an infectious source of the next step [k] and that a recorded step [s]
    infected satisfies [s + L <= k]; and every device that step [k]
    infects is a neighbor of such a source. *)
Theorem latency_respected (graph : list (list nat))
    (attributes : gmap string (gmap string Value)) (random : nat → Q)
    (cfg : Malware) (initial_infected : list string) (max_steps : nat)
    (d0 : Driver) (n : nat) :
  initialize (length graph) initial_infected = Some d0 →
  let d := Nat.iter n (tick graph attributes random cfg max_steps) d0 in
  let k := S (current_step d) in
  (∀ u rec, u ∈ infectious_devices (state d) →
            rec ∈ history d → u ∈ newly_infected rec →
            step_index rec + latency cfg ≤ k)
  ∧ (∀ t, t ∈ res_newly_infected
                (step graph attributes random cfg (state d) k (calls d)) →
          ∃ u, u ∈ infectious_devices (state d) ∧ t ∈ neighbors graph u).
Proof.
  intros Hinit d k.
  destruct (initialize_fresh _ _ _ Hinit) as (_ & _ & _ & Hh & _).
  pose proof (iter_tick_latency_invariant graph attributes random cfg max_steps
                n d0 Hh) as Hinv.
  fold d in Hinv. split.
  - intros u rec Hu Hrec Hnew. specialize (Hinv rec u Hrec Hnew).
    apply infectious_devices_elem in Hu. rewrite Hu in Hinv. unfold k. lia.
  - intros t Ht. apply step_newly_elem in Ht as (u & Hu & Hn & _).
    by exists u.
Qed.

Lemma latency_respected_witness :
  initialize (length path_graph) ["device_0"] = Some path_initial
  ∧ 1 ∈ infectious_devices (state path_after3)
  ∧ path_record1 ∈ history path_after3
  ∧ 1 ∈ newly_infected path_record1
  ∧ step_index path_record1 + latency slow_malware ≤ S (current_step path_after3)
  ∧ infectious_devices
      (state (Nat.iter 2 (tick path_graph path_attributes (always (1 # 2))
                            slow_malware 100) path_initial)) = [0].
Proof.
  assert (Hinit : initialize (length path_graph) ["device_0"] = Some path_initial)
    by (vm_compute; reflexivity).
  assert (Hsrc : 1 ∈ infectious_devices (state path_after3)).
  { replace (infectious_devices (state path_after3)) with [0; 1]
      by (vm_compute; reflexivity).
    apply list_elem_of_further, list_elem_of_here. }
  assert (Hrec : path_record1 ∈ history path_after3).
  { replace (history path_after3)
      with [path_record1;
            {| step_index := 2; newly_infected := ∅;
               total_infectious_or_infected := 2 |};
            {| step_index := 3; newly_infected := ∅;
               total_infectious_or_infected := 2 |}]
      by (vm_compute; reflexivity).
    apply list_elem_of_here. }
  assert (Hnew : 1 ∈ newly_infected path_record1)
    by (vm_compute; reflexivity).
  split; [exact Hinit|]. split; [exact Hsrc|]. split; [exact Hrec|].
  split; [exact Hnew|]. split.
  - exact (proj1 (latency_respected path_graph path_attributes (always (1 # 2))
                    slow_malware ["device_0"] 100 path_initial 3 Hinit)
             1 path_record1 Hsrc Hrec Hnew).
  - vm_compute; reflexivity.
Defined.

(** ** The outcome of a run depends on the draws through the tests only *)

Section OracleFacts.
Context {D : Type}.
Variable network : option (D → gmap string Value).
Variables random random' : nat → Q.
Variable rate : Q.
Hypothesis Hsame : same_outcomes rate random random'.

Lemma spread_loop_ext source_admin (neighbors acc : list D) calls :
  spread_loop network random rate source_admin neighbors acc calls
  = spread_loop network random' rate source_admin neighbors acc calls.
Proof.
  revert acc calls. induction neighbors as [|n rest IH]; intros acc calls;
    simpl; [done|].
  rewrite Hsame. destruct (negb source_admin && admin_user_of network n);
    [apply IH|]. destruct (Qltb (random' calls) rate); apply IH.
Qed.

Lemma spread_at_ext source (neighbors : list D) calls :
  spread_at network random rate source neighbors calls
  = spread_at network random' rate source neighbors calls.
Proof. apply spread_loop_ext. Qed.
End OracleFacts.

Section EngineOracleFacts.
Variable graph : list (list nat).
Variable attributes : gmap string (gmap string Value).
Variables random random' : nat → Q.
Variable cfg : Malware.
Hypothesis Hsame : same_outcomes (effective_probability cfg) random random'.

Lemma infect_all_ext st sources newly calls :
  infect_all graph attributes random cfg st sources newly calls
  = infect_all graph attributes random' cfg st sources newly calls.
Proof.
  revert newly calls. induction sources as [|s rest IH]; intros newly calls;
    simpl; [done|].
  unfold infect_from. rewrite (spread_at_ext _ random random' _ Hsame).
  destruct (spread_at _ random' _ _ _ _). apply IH.
Qed.

Lemma step_ext st k calls :
  step graph attributes random cfg st k calls
  = step graph attributes random' cfg st k calls.
Proof. unfold step. by rewrite infect_all_ext. Qed.

Lemma evaluate_ext d :
  evaluate graph attributes random cfg d
  = evaluate graph attributes random' cfg d.
Proof. unfold evaluate. by rewrite step_ext. Qed.
End EngineOracleFacts.

(** ** Scenario A *)

Lemma scenario_A_same_outcomes (random : nat → Q) :
  (∀ i, (0 <= random i < 1)%Q) →
  same_outcomes (effective_probability scenario_A_malware) random (always 0).
Proof.
  intros Hdraw i.
  transitivity true; [|symmetry]; apply Qltb_lt.
  - apply Hdraw.
  - done.
Qed.

Lemma scenario_A_topology : build_complete 10 = Some scenario_A_graph.
Proof. reflexivity. Qed.

Lemma scenario_A_initialize :
  initialize (length scenario_A_graph) ["device_0"] = Some scenario_A_initial.
Proof. vm_compute. reflexivity. Qed.

(** The first two iterations of the loop. *)
Lemma scenario_A_first_tick (random : nat → Q) (max_steps : nat) :
  (∀ i, (0 <= random i < 1)%Q) → 1 ≤ max_steps →
  tick scenario_A_graph scenario_A_attributes random scenario_A_malware max_steps
    scenario_A_initial = scenario_A_step1.
Proof.
  intros Hdraw Hmax.
  rewrite tick_evaluate by (simpl; done || lia).
  rewrite (evaluate_ext _ _ random (always 0) _ (scenario_A_same_outcomes _ Hdraw)).
  fold scenario_A_step1.
  replace (steady _ _) with false by (vm_compute; reflexivity). done.
Qed.

Lemma scenario_A_second_tick (random : nat → Q) (max_steps : nat) :
  (∀ i, (0 <= random i < 1)%Q) →
  tick scenario_A_graph scenario_A_attributes random scenario_A_malware max_steps
    scenario_A_step1
  = set_status Completed
      (if max_steps =? 1 then scenario_A_step1 else scenario_A_step2).
Proof.
  intros Hdraw. destruct (max_steps =? 1) eqn:Hmax.
  - apply Nat.eqb_eq in Hmax as ->. by rewrite tick_cap.
  - apply Nat.eqb_neq in Hmax.
    rewrite tick_evaluate; [|done|simpl; lia].
    rewrite (evaluate_ext _ _ random (always 0) _ (scenario_A_same_outcomes _ Hdraw)).
    fold scenario_A_step2.
    replace (steady _ _) with true by (vm_compute; reflexivity). done.
Qed.

Lemma scenario_A_run (random : nat → Q) (max_steps : nat) :
  (∀ i, (0 <= random i < 1)%Q) → 1 ≤ max_steps →
  run scenario_A_graph scenario_A_attributes random scenario_A_malware max_steps
    scenario_A_initial
  = set_status Completed
      (if max_steps =? 1 then scenario_A_step1 else scenario_A_step2).
Proof.
  intros Hdraw Hmax. unfold run.
  replace (S max_steps) with ((max_steps - 1) + 2) by lia.
  rewrite Nat.iter_add. cbn [Nat.iter nat_rect].
  rewrite scenario_A_first_tick, scenario_A_second_tick by done.
  by rewrite iter_tick_idle.
Qed.




(** * Further properties of the documented code *)

(** ** The spread loop: order, draws, rates *)

Section SpreadLoopFacts.
Context {D : Type}.
Variable network : option (D → gmap string Value).
Variable random : nat → Q.

Lemma normal_spread_infected_among rate (tested acc : list D) calls :
  normal_spread random rate tested acc calls
  = (acc ++ infected_among random rate calls tested, calls + length tested).
Proof.
  revert acc calls. induction tested as [|n rest IH]; intros acc calls; simpl.
  - by rewrite app_nil_r, Nat.add_0_r.
  - destruct (Qltb (random calls) rate); rewrite IH.
    + rewrite <-app_assoc. simpl. f_equal. lia.
    + f_equal. lia.
Qed.

Lemma spread_at_infected_among rate source (neighbors : list D) calls :
  spread_at network random rate source neighbors calls
  = (infected_among random rate calls (tested_neighbors network source neighbors),
     calls + length (tested_neighbors network source neighbors)).
Proof.
  unfold tested_neighbors.
  destruct (admin_user_of network source) eqn:Hs.
  - rewrite spread_at_admin by done. by rewrite normal_spread_infected_among.
  - rewrite spread_at_non_admin by done. by rewrite normal_spread_infected_among.
Qed.

Lemma infected_among_sublist rate calls (tested : list D) :
  infected_among random rate calls tested `sublist_of` tested.
Proof.
  revert calls. induction tested as [|n rest IH]; intros calls; simpl; [done|].
  destruct (Qltb (random calls) rate).
  - by apply sublist_skip.
  - by apply sublist_cons.
Qed.

Lemma tested_neighbors_sublist source (neighbors : list D) :
  tested_neighbors network source neighbors `sublist_of` neighbors.
Proof.
  unfold tested_neighbors. destruct (admin_user_of network source); [done|].
  apply sublist_filter.
Qed.

Lemma infected_among_app rate calls (t1 t2 : list D) :
  infected_among random rate calls (t1 ++ t2)
  = infected_among random rate calls t1
    ++ infected_among random rate (calls + length t1) t2.
Proof.
  revert calls. induction t1 as [|n rest IH]; intros calls; simpl.
  - by rewrite Nat.add_0_r.
  - rewrite IH. replace (S calls + length rest) with (calls + S (length rest)) by lia.
    by destruct (Qltb (random calls) rate).
Qed.

Lemma tested_neighbors_app source (l1 l2 : list D) :
  tested_neighbors network source (l1 ++ l2)
  = tested_neighbors network source l1 ++ tested_neighbors network source l2.
Proof.
  unfold tested_neighbors. destruct (admin_user_of network source); [done|].
  apply filter_app.
Qed.

Lemma infected_among_monotone rate1 rate2 calls (tested : list D) :
  (rate1 <= rate2)%Q →
  infected_among random rate1 calls tested
  `sublist_of` infected_among random rate2 calls tested.
Proof.
  intros Hle. revert calls.
  induction tested as [|n rest IH]; intros calls; simpl; [done|].
  destruct (Qltb (random calls) rate1) eqn:H1.
  - apply Qltb_lt in H1.
    assert (H2 : Qltb (random calls) rate2 = true)
      by (apply Qltb_lt; eapply Qlt_le_trans; eauto).
    rewrite H2. by apply sublist_skip.
  - destruct (Qltb (random calls) rate2); [by apply sublist_cons|done].
Qed.

Lemma infected_among_none rate calls (tested : list D) :
  (∀ i, (0 <= random i)%Q) → (rate <= 0)%Q →
  infected_among random rate calls tested = [].
Proof.
  intros Hdraw Hrate. revert calls.
  induction tested as [|n rest IH]; intros calls; simpl; [done|].
  destruct (Qltb (random calls) rate) eqn:Ht; [|apply IH].
  apply Qltb_lt in Ht. exfalso.
  apply (Qlt_irrefl 0). eapply Qle_lt_trans; [apply (Hdraw calls)|].
  eapply Qlt_le_trans; eauto.
Qed.

Lemma infected_among_all rate calls (tested : list D) :
  (∀ i, (random i < 1)%Q) → (1 <= rate)%Q →
  infected_among random rate calls tested = tested.
Proof.
  intros Hdraw Hrate. revert calls.
  induction tested as [|n rest IH]; intros calls; simpl; [done|].
  assert (Ht : Qltb (random calls) rate = true)
    by (apply Qltb_lt; eapply Qlt_le_trans; eauto).
  rewrite Ht. by rewrite IH.
Qed.
End SpreadLoopFacts.

(** X1. The devices that [spread] returns are neighbors of the call, in
    the order of the [neighbors] list, each at most as often as the list
    holds it. *)
Theorem spread_returns_sublist {D : Type} (network : option (D → gmap string Value))
    (random : nat → Q) (m : Malware) (source : D) (neighbors : list D) (calls : nat) :
  (spread network random m source neighbors calls).1 `sublist_of` neighbors.
Proof.
  unfold spread. rewrite spread_at_infected_among. simpl.
  etransitivity; [apply infected_among_sublist|apply tested_neighbors_sublist].
Qed.

(** X2. [spread] calls [random.random()] once per tested neighbor and
    not at all for a neighbor that the privilege filter skips: an admin
    source draws once per neighbor, a non-admin source once per non-admin
    neighbor. *)
Theorem spread_draws_per_tested_neighbor {D : Type}
    (network : option (D → gmap string Value)) (random : nat → Q) (m : Malware)
    (source : D) (neighbors : list D) (calls : nat) :
  (spread network random m source neighbors calls).2
  = calls + length (if admin_user_of network source then neighbors
                    else filter (λ n, admin_user_of network n = false) neighbors).
Proof. unfold spread. by rewrite spread_at_infected_among. Qed.

(** X3. With draws in [0, 1): an infection rate of 0 or less infects
    nobody, and a rate of 1 or more infects every tested neighbor. *)
Theorem spread_rate_extremes {D : Type} (network : option (D → gmap string Value))
    (random : nat → Q) (m : Malware) (source : D) (neighbors : list D) (calls : nat) :
  (∀ i, (0 <= random i < 1)%Q) →
  ((infection_rate m <= 0)%Q →
   (spread network random m source neighbors calls).1 = [])
  ∧ ((1 <= infection_rate m)%Q →
     (spread network random m source neighbors calls).1
     = tested_neighbors network source neighbors).
Proof.
  intros Hdraw. unfold spread. rewrite spread_at_infected_among. simpl. split.
  - intros Hrate. apply infected_among_none; [|done]. intros i. apply Hdraw.
  - intros Hrate. apply infected_among_all; [|done]. intros i. apply Hdraw.
Qed.

Lemma spread_rate_extremes_witness :
  (∀ i, (0 <= always (1 # 2) i < 1)%Q)
  ∧ (1 <= infection_rate sample_malware)%Q
  ∧ (spread (Some sample_attributes) (always (1 # 2)) sample_malware 0
       [1; 2; 3; 4] 0).1 = [2].
Proof.
  assert (Hdraw : ∀ i, (0 <= always (1 # 2) i < 1)%Q).
  { intros i. split; [by vm_compute|by vm_compute]. }
  assert (Hrate : (1 <= infection_rate sample_malware)%Q) by (by vm_compute).
  split; [exact Hdraw|]. split; [exact Hrate|].
  exact (proj2 (spread_rate_extremes (Some sample_attributes) (always (1 # 2))
                  sample_malware 0 [1; 2; 3; 4] 0 Hdraw) Hrate).
Defined.

(** X4. With the same draws, a higher infection rate infects at least
    the same devices: the result at the lower rate is a sublist of the
    result at the higher rate. *)
Theorem spread_rate_monotone {D : Type} (network : option (D → gmap string Value))
    (random : nat → Q) (m1 m2 : Malware) (source : D) (neighbors : list D)
    (calls : nat) :
  (infection_rate m1 <= infection_rate m2)%Q →
  (spread network random m1 source neighbors calls).1
  `sublist_of` (spread network random m2 source neighbors calls).1.
Proof.
  intros Hle. unfold spread. rewrite !spread_at_infected_among. simpl.
  by apply infected_among_monotone.
Qed.

Lemma spread_rate_monotone_witness :
  (infection_rate weak_malware <= infection_rate sample_malware)%Q
  ∧ (spread (Some sample_attributes) (always (1 # 2)) weak_malware 1
       [0; 2; 3] 0).1
    `sublist_of` (spread (Some sample_attributes) (always (1 # 2)) sample_malware 1
                    [0; 2; 3] 0).1.
Proof.
  assert (Hle : (infection_rate weak_malware <= infection_rate sample_malware)%Q)
    by (by vm_compute).
  split; [exact Hle|].
  exact (spread_rate_monotone (Some sample_attributes) (always (1 # 2))
           weak_malware sample_malware 1 [0; 2; 3] 0 Hle).
Defined.

(** X5. Spreading over a concatenated neighbor list is spreading over the
    first part, then over the second part with the draws that remain. *)
Theorem spread_app {D : Type} (network : option (D → gmap string Value))
    (random : nat → Q) (m : Malware) (source : D) (l1 l2 : list D) (calls : nat) :
  spread network random m source (l1 ++ l2) calls
  = ((spread network random m source l1 calls).1
     ++ (spread network random m source l2
           (spread network random m source l1 calls).2).1,
     (spread network random m source l2
        (spread network random m source l1 calls).2).2).
Proof.
  unfold spread. rewrite !spread_at_infected_among. simpl.
  rewrite tested_neighbors_app, infected_among_app, length_app. f_equal. lia.
Qed.

(** ** Batch assignment: what the result depends on *)

Section BatchAlgebra.
Implicit Types net : gmap string (gmap string Value).
Implicit Types defs : list NodeDefinition.

(** The result is determined by the sequence of attribute maps that the
    walk hands out. *)
Lemma apply_node_definitions_flatten net defs defs' :
  flatten_definitions defs = flatten_definitions defs' →
  _apply_node_definitions net defs = _apply_node_definitions net defs'.
Proof.
  intros Hflat. unfold _apply_node_definitions.
  by rewrite !for_definitions_assign_all, Hflat.
Qed.

Lemma flatten_definitions_app defs1 defs2 :
  flatten_definitions (defs1 ++ defs2)
  = flatten_definitions defs1 ++ flatten_definitions defs2.
Proof. unfold flatten_definitions. apply bind_app. Qed.

Lemma flatten_definitions_cons d defs :
  flatten_definitions (d :: defs)
  = replicate (Z.to_nat (count d)) (attributes d) ++ flatten_definitions defs.
Proof. unfold flatten_definitions. by rewrite bind_cons. Qed.
End BatchAlgebra.

(** X6. [_apply_node_definitions] adds no node and removes none.  It
    raises exactly when a batch that has an attribute key [self] or
    [device_id] claims a device of the network, the keywords of the call
    then clashing with its parameters; without such a key it returns. *)
Theorem apply_node_definitions_keeps_nodes
    (network : gmap string (gmap string Value))
    (node_definitions : list NodeDefinition) :
  (∀ network',
     _apply_node_definitions network node_definitions = Some network' →
     dom network' = dom network)
  ∧ (_apply_node_definitions network node_definitions = None
     ↔ ∃ j a, flatten_definitions node_definitions !! j = Some a
              ∧ keyword_clash a = true
              ∧ is_Some (network !! device_id j))
  ∧ (Forall (λ d, keyword_clash (attributes d) = false) node_definitions →
     is_Some (_apply_node_definitions network node_definitions)).
Proof.
  split; [|split].
  - intros network'. apply apply_node_definitions_dom.
  - apply apply_node_definitions_None.
  - intros Hkeys.
    destruct (apply_node_definitions_total network node_definitions Hkeys)
      as (network' & -> & _). by eexists.
Qed.

Lemma apply_node_definitions_keeps_nodes_witness :
  dom sample_assigned = dom sample_network
  ∧ _apply_node_definitions sample_network clashing_definitions = None
  ∧ is_Some (_apply_node_definitions sample_network sample_definitions).
Proof.
  destruct (apply_node_definitions_keeps_nodes sample_network sample_definitions)
    as (Hdom & _ & Hreturns).
  destruct (apply_node_definitions_keeps_nodes sample_network clashing_definitions)
    as (_ & Hraises & _).
  split; [|split].
  - apply Hdom. vm_compute; reflexivity.
  - apply Hraises. exists 1, {[ "device_id" := VStr "x" ]}.
    split; [reflexivity|]. split; [vm_compute; reflexivity|].
    apply seed_attributes_nodes. lia.
  - apply Hreturns. repeat constructor; vm_compute; reflexivity.
Defined.

(** X7. A batch whose count is zero or negative claims no device: the
    result is the same as without the batch. *)
Theorem nonpositive_batch_is_skipped (network : gmap string (gmap string Value))
    (before after : list NodeDefinition) (d : NodeDefinition) :
  (count d ≤ 0)%Z →
  _apply_node_definitions network (before ++ d :: after)
  = _apply_node_definitions network (before ++ after).
Proof.
  intros Hd. apply apply_node_definitions_flatten.
  rewrite !flatten_definitions_app, flatten_definitions_cons.
  by replace (Z.to_nat (count d)) with 0 by lia.
Qed.

Lemma nonpositive_batch_is_skipped_witness :
  (count {| count := -2; attributes := {[ "os" := VStr "Linux" ]} |} ≤ 0)%Z
  ∧ _apply_node_definitions sample_network
      ([ {| count := 1; attributes := ∅ |} ]
       ++ {| count := -2; attributes := {[ "os" := VStr "Linux" ]} |}
       :: sample_definitions)
    = _apply_node_definitions sample_network
        ([ {| count := 1; attributes := ∅ |} ] ++ sample_definitions).
Proof.
  assert (Hd : (count {| count := -2; attributes := {[ "os" := VStr "Linux" ]} |}
                ≤ 0)%Z) by (simpl; lia).
  split; [exact Hd|].
  exact (nonpositive_batch_is_skipped sample_network
           [ {| count := 1; attributes := ∅ |} ] sample_definitions
           {| count := -2; attributes := {[ "os" := VStr "Linux" ]} |} Hd).
Defined.

(** X8. Two consecutive batches with the same attributes act as one batch
    with the counts added. *)
Theorem adjacent_batches_merge (network : gmap string (gmap string Value))
    (before after : list NodeDefinition) (c1 c2 : Z) (a : gmap string Value) :
  (0 ≤ c1)%Z → (0 ≤ c2)%Z →
  _apply_node_definitions network
    (before ++ {| count := c1; attributes := a |}
            :: {| count := c2; attributes := a |} :: after)
  = _apply_node_definitions network
      (before ++ {| count := c1 + c2; attributes := a |} :: after).
Proof.
  intros H1 H2. apply apply_node_definitions_flatten.
  rewrite !flatten_definitions_app, !flatten_definitions_cons. simpl.
  rewrite Z2Nat.inj_add by done. by rewrite replicate_add, <-app_assoc.
Qed.

Lemma adjacent_batches_merge_witness :
  _apply_node_definitions sample_network
    ([] ++ {| count := 1; attributes := {[ "admin_user" := VBool true ]} |}
        :: {| count := 2; attributes := {[ "admin_user" := VBool true ]} |}
        :: second_definitions)
  = _apply_node_definitions sample_network
      ([] ++ {| count := 1 + 2; attributes := {[ "admin_user" := VBool true ]} |}
          :: second_definitions).
Proof.
  apply (adjacent_batches_merge sample_network [] second_definitions 1 2
           {[ "admin_user" := VBool true ]}); lia.
Defined.

(** X9. Applying the same node definitions a second time changes
    nothing. *)
Theorem apply_node_definitions_idempotent
    (network network' : gmap string (gmap string Value))
    (node_definitions : list NodeDefinition) :
  _apply_node_definitions network node_definitions = Some network' →
  _apply_node_definitions network' node_definitions = Some network'.
Proof.
  intros Hrun.
  destruct (apply_node_definitions_result _ _ _ Hrun) as (Hin1 & Hout1 & Hdom1).
  destruct (_apply_node_definitions network' node_definitions) as [net2|] eqn:Hrun2.
  2:{ apply apply_node_definitions_None in Hrun2 as (j & a & Hj & Hclash & Hex).
      assert (_apply_node_definitions network node_definitions = None) as Hnone.
      { apply apply_node_definitions_None. exists j, a.
        split; [done|]. split; [done|]. by apply Hdom1. }
      congruence. }
  destruct (apply_node_definitions_result _ _ _ Hrun2) as (Hin2 & Hout2 & _).
  f_equal. apply map_eq. intros s.
  destruct (decide (s ∈ device_id
                        <$> seq 0 (length (flatten_definitions node_definitions))))
    as [Hs|Hs].
  - apply list_elem_of_fmap in Hs as (j & -> & Hj). apply elem_of_seq in Hj.
    destruct (lookup_lt_is_Some_2 (flatten_definitions node_definitions) j)
      as [a Ha]; [lia|].
    rewrite (Hin2 _ _ Ha), (Hin1 _ _ Ha).
    destruct (network !! device_id j) as [old|]; simpl; [|done].
    by rewrite (assoc_L (∪)), (idemp_L (∪)).
  - apply Hout2. intros j Hj ->. apply Hs. apply list_elem_of_fmap. exists j.
    split; [done|]. apply elem_of_seq. lia.
Qed.

Lemma apply_node_definitions_idempotent_witness :
  _apply_node_definitions sample_network sample_definitions = Some sample_assigned
  ∧ _apply_node_definitions sample_assigned sample_definitions
    = Some sample_assigned.
Proof.
  assert (Hrun : _apply_node_definitions sample_network sample_definitions
                 = Some sample_assigned) by (vm_compute; reflexivity).
  split; [exact Hrun|].
  exact (apply_node_definitions_idempotent sample_network sample_assigned
           sample_definitions Hrun).
Defined.

(** X10. On a device that a batch claims, the batch overrides exactly the
    keys that it names: such a key reads the batch's value, every other key
    reads what the device had before. *)
Theorem batch_overrides_named_keys (network network' : gmap string (gmap string Value))
    (node_definitions : list NodeDefinition) (i k : nat) (d : NodeDefinition)
    (old : gmap string Value) (key : string) :
  Forall (λ d, (0 ≤ count d)%Z) node_definitions →
  _apply_node_definitions network node_definitions = Some network' →
  node_definitions !! i = Some d →
  (batch_start node_definitions i ≤ Z.of_nat k
   < batch_start node_definitions i + count d)%Z →
  network !! device_id k = Some old →
  get_device_attributes network' (device_id k) !! key
  = match attributes d !! key with
    | Some v => Some v
    | None => old !! key
    end.
Proof.
  intros Hpos Hrun Hi Hk Hold.
  destruct (apply_node_definitions_result _ _ _ Hrun) as (Hin1 & _ & _).
  unfold get_device_attributes.
  rewrite (Hin1 k (attributes d)) by (by apply (flatten_lookup_batch _ i)).
  rewrite Hold. simpl. rewrite lookup_union.
  destruct (attributes d !! key), (old !! key); done.
Qed.

Lemma batch_overrides_named_keys_witness :
  get_device_attributes sample_assigned (device_id 3) !! "admin_user"
  = Some (VBool false)
  ∧ get_device_attributes sample_assigned (device_id 3) !! "device_type"
    = Some (VStr "workstation").
Proof.
  assert (Hpos : Forall (λ d, (0 ≤ count d)%Z) sample_definitions)
    by (repeat constructor; simpl; lia).
  assert (Hrun : _apply_node_definitions sample_network sample_definitions
                 = Some sample_assigned) by (vm_compute; reflexivity).
  assert (Hd : sample_definitions !! 1
               = Some {| count := 3;
                         attributes := {[ "admin_user" := VBool false ]} |})
    by reflexivity.
  assert (Hk : (batch_start sample_definitions 1 ≤ Z.of_nat 3
                < batch_start sample_definitions 1
                  + count {| count := 3;
                             attributes := {[ "admin_user" := VBool false ]} |})%Z)
    by (vm_compute; split; [discriminate|reflexivity]).
  assert (Hold : sample_network !! device_id 3 = Some DEFAULT_DEVICE_ATTRIBUTES)
    by (vm_compute; reflexivity).
  split.
  - exact (batch_overrides_named_keys sample_network sample_assigned
             sample_definitions 1 3 _ _ "admin_user" Hpos Hrun Hd Hk Hold).
  - exact (batch_overrides_named_keys sample_network sample_assigned
             sample_definitions 1 3 _ _ "device_type" Hpos Hrun Hd Hk Hold).
Defined.

(** X11. A second call does not continue the numbering of the first: it
    starts again at [device_0], and on a device that a batch of each call
    claims the attributes of the second call override those of the
    first. *)
Theorem second_call_restarts_at_device_0
    (network network1 network2 : gmap string (gmap string Value))
    (defs1 defs2 : list NodeDefinition) (i1 i2 k : nat) (d1 d2 : NodeDefinition) :
  Forall (λ d, (0 ≤ count d)%Z) defs1 →
  Forall (λ d, (0 ≤ count d)%Z) defs2 →
  _apply_node_definitions network defs1 = Some network1 →
  _apply_node_definitions network1 defs2 = Some network2 →
  defs1 !! i1 = Some d1 →
  (batch_start defs1 i1 ≤ Z.of_nat k < batch_start defs1 i1 + count d1)%Z →
  defs2 !! i2 = Some d2 →
  (batch_start defs2 i2 ≤ Z.of_nat k < batch_start defs2 i2 + count d2)%Z →
  network2 !! device_id k
  = (λ old, attributes d2 ∪ (attributes d1 ∪ old)) <$> network !! device_id k.
Proof.
  intros Hpos1 Hpos2 Hrun1 Hrun2 Hd1 Hk1 Hd2 Hk2.
  pose proof (flatten_lookup_batch _ _ _ _ Hpos1 Hd1 Hk1) as H1.
  pose proof (flatten_lookup_batch _ _ _ _ Hpos2 Hd2 Hk2) as H2.
  destruct (apply_node_definitions_result _ _ _ Hrun1) as (Hin1 & _ & _).
  destruct (apply_node_definitions_result _ _ _ Hrun2) as (Hin2 & _ & _).
  rewrite (Hin2 _ _ H2), (Hin1 _ _ H1). by destruct (network !! device_id k).
Qed.

Lemma second_call_restarts_at_device_0_witness :
  sample_reassigned !! device_id 2
  = (λ old, {[ "os" := VStr "Linux" ]} ∪ ({[ "admin_user" := VBool false ]} ∪ old))
      <$> sample_network !! device_id 2.
Proof.
  assert (Hpos1 : Forall (λ d, (0 ≤ count d)%Z) sample_definitions)
    by (repeat constructor; simpl; lia).
  assert (Hpos2 : Forall (λ d, (0 ≤ count d)%Z) second_definitions)
    by (repeat constructor; simpl; lia).
  assert (Hrun1 : _apply_node_definitions sample_network sample_definitions
                  = Some sample_assigned) by (vm_compute; reflexivity).
  assert (Hrun2 : _apply_node_definitions sample_assigned second_definitions
                  = Some sample_reassigned) by (vm_compute; reflexivity).
  assert (Hd1 : sample_definitions !! 1
                = Some {| count := 3;
                          attributes := {[ "admin_user" := VBool false ]} |})
    by reflexivity.
  assert (Hd2 : second_definitions !! 0
                = Some {| count := 3; attributes := {[ "os" := VStr "Linux" ]} |})
    by reflexivity.
  exact (second_call_restarts_at_device_0 sample_network sample_assigned
           sample_reassigned sample_definitions second_definitions 1 0 2 _ _
           Hpos1 Hpos2 Hrun1 Hrun2 Hd1
           ltac:(vm_compute; split; [discriminate|reflexivity]) Hd2
           ltac:(vm_compute; split; [discriminate|reflexivity])).
Defined.

(** ** The simulation endpoint: the attribute hierarchy *)

Lemma build_network_apply (supported_topology : string → bool)
    (c : Api.NetworkConfig) :
  Api.build_network supported_topology c
  = if supported_topology (Api.network_type c) && (0 <? Api.num_nodes c)%Z
    then _apply_node_definitions
           (seed_attributes (Z.to_nat (Api.num_nodes c))
              (default ∅ (Api.device_attributes c)))
           (Api.given_definitions c)
    else None.
Proof.
  unfold Api.build_network, Api.given_definitions, generate_topology.
  destruct (supported_topology _); [|done]. simpl.
  destruct (Z.leb_spec (Api.num_nodes c) 0) as [Hn|Hn];
    destruct (Z.ltb_spec 0 (Api.num_nodes c)) as [Hn'|Hn']; try lia; [done|].
  cbn [mbind option_bind].
  destruct (Api.node_definitions c) as [[|d rest]|]; done.
Qed.

(** X12. The network that the endpoint builds: on a device that a batch
    claims, an attribute reads the batch's value if the batch names the
    key, else the value of the uniform [device_attributes] if they name
    it, else the default. *)
Theorem endpoint_attribute_hierarchy (supported_topology : string → bool)
    (c : Api.NetworkConfig)
    (network : gmap string (gmap string Value)) (i k : nat) (d : NodeDefinition)
    (key : string) :
  Forall (λ d, (0 ≤ count d)%Z) (Api.given_definitions c) →
  Api.build_network supported_topology c = Some network →
  Api.given_definitions c !! i = Some d →
  (batch_start (Api.given_definitions c) i ≤ Z.of_nat k
   < batch_start (Api.given_definitions c) i + count d)%Z →
  (Z.of_nat k < Api.num_nodes c)%Z →
  get_device_attributes network (device_id k) !! key
  = match attributes d !! key with
    | Some v => Some v
    | None =>
        match default ∅ (Api.device_attributes c) !! key with
        | Some v => Some v
        | None => DEFAULT_DEVICE_ATTRIBUTES !! key
        end
    end.
Proof.
  intros Hpos Hrun Hd Hk HkN. rewrite build_network_apply in Hrun.
  destruct (_ && _); [|done].
  destruct (apply_node_definitions_result _ _ _ Hrun) as (Hin1 & _ & _).
  unfold get_device_attributes.
  rewrite (Hin1 k (attributes d)) by (by apply (flatten_lookup_batch _ i)).
  rewrite seed_attributes_lookup, decide_True by lia. simpl.
  rewrite !lookup_union.
  destruct (attributes d !! key), (default ∅ (Api.device_attributes c) !! key),
    (DEFAULT_DEVICE_ATTRIBUTES !! key); done.
Qed.

Lemma endpoint_attribute_hierarchy_witness :
  get_device_attributes sample_built (device_id 1) !! "admin_user"
  = Some (VBool true)
  ∧ get_device_attributes sample_built (device_id 1) !! "os" = Some (VStr "Linux")
  ∧ get_device_attributes sample_built (device_id 1) !! "firewall_enabled"
    = DEFAULT_DEVICE_ATTRIBUTES !! "firewall_enabled".
Proof.
  assert (Hpos : Forall (λ d, (0 ≤ count d)%Z) (Api.given_definitions sample_config))
    by (repeat constructor; simpl; lia).
  assert (Hrun : Api.build_network sample_supported_topology sample_config
                 = Some sample_built)
    by (vm_compute; reflexivity).
  assert (Hd : Api.given_definitions sample_config !! 0
               = Some {| count := 2;
                         attributes := {[ "admin_user" := VBool true ]} |})
    by reflexivity.
  assert (Hk : (batch_start (Api.given_definitions sample_config) 0 ≤ Z.of_nat 1
                < batch_start (Api.given_definitions sample_config) 0
                  + count {| count := 2;
                             attributes := {[ "admin_user" := VBool true ]} |})%Z)
    by (vm_compute; split; [discriminate|reflexivity]).
  assert (HkN : (Z.of_nat 1 < Api.num_nodes sample_config)%Z) by (simpl; lia).
  split; [|split].
  - exact (endpoint_attribute_hierarchy sample_supported_topology sample_config
             sample_built 0 1 _ "admin_user" Hpos Hrun Hd Hk HkN).
  - exact (endpoint_attribute_hierarchy sample_supported_topology sample_config
             sample_built 0 1 _ "os" Hpos Hrun Hd Hk HkN).
  - exact (endpoint_attribute_hierarchy sample_supported_topology sample_config
             sample_built 0 1 _ "firewall_enabled" Hpos Hrun Hd Hk HkN).
Defined.



(** * The web interface *)

(** ** The graph of [App] *)

Lemma chain_edges_from (acc : list D3Graph.D3Edge) (a n : nat) :
  foldl (λ newEdges i,
           if 0 <? i
           then newEdges ++ [ {| D3Graph.source := device_id (i - 1);
                                 D3Graph.target := device_id i |} ]
           else newEdges)
        acc (seq (S a) n)
  = acc ++ (chain_edge <$> seq a n).
Proof.
  revert acc a. induction n as [|n IH]; intros acc a.
  - simpl. by rewrite app_nil_r.
  - cbn [seq foldl]. rewrite IH. cbn [Nat.ltb Nat.leb]. cbn [fmap list_fmap].
    rewrite <-app_assoc. simpl. by rewrite Nat.sub_0_r.
Qed.

Lemma chain_edges_spec (newNodes : list D3Graph.D3Node) :
  App.chain_edges newNodes = chain_edge <$> seq 0 (length newNodes - 1).
Proof.
  unfold App.chain_edges. destruct (length newNodes) as [|n]; [done|].
  cbn [seq foldl]. rewrite chain_edges_from. simpl. by rewrite Nat.sub_0_r.
Qed.

Lemma device_nodes_ids (N : nat) :
  D3Graph.id <$> App.device_nodes N = device_id <$> seq 0 N.
Proof. unfold App.device_nodes. rewrite <-list_fmap_compose. done. Qed.

Lemma device_nodes_length (N : nat) : length (App.device_nodes N) = N.
Proof. unfold App.device_nodes. by rewrite length_fmap, length_seq. Qed.

Lemma mark_infected_ids (l : list string) (ns : list D3Graph.D3Node) :
  D3Graph.id <$> (App.mark_infected l <$> ns) = D3Graph.id <$> ns.
Proof. rewrite <-list_fmap_compose. by apply list_fmap_ext. Qed.

Lemma mark_infected_nil (n : D3Graph.D3Node) : App.mark_infected [] n = n.
Proof. by destruct n. Qed.

Lemma mark_infected_app (l1 l2 : list string) (n : D3Graph.D3Node) :
  App.mark_infected l2 (App.mark_infected l1 n) = App.mark_infected (l1 ++ l2) n.
Proof.
  unfold App.mark_infected. cbn [D3Graph.id D3Graph.status]. f_equal.
  destruct (decide (D3Graph.id n ∈ l1)) as [H1|H1];
    destruct (decide (D3Graph.id n ∈ l2)) as [H2|H2];
    rewrite ?(bool_decide_eq_true_2 _ H1), ?(bool_decide_eq_false_2 _ H1),
      ?(bool_decide_eq_true_2 _ H2), ?(bool_decide_eq_false_2 _ H2);
    (rewrite bool_decide_eq_true_2 by (apply elem_of_app; tauto))
    || (rewrite bool_decide_eq_false_2 by (rewrite elem_of_app; tauto));
    done.
Qed.

Lemma ring_edges_closed (l : list D3Graph.D3Node) :
  Forall (λ e, D3Graph.source e ∈ D3Graph.id <$> l
               ∧ D3Graph.target e ∈ D3Graph.id <$> l)
    (App.ring_edges l).
Proof.
  apply Forall_forall. intros e He. unfold App.ring_edges in He.
  apply elem_of_lookup_imap in He as (i & n & -> & Hn).
  assert (Hin : D3Graph.id n ∈ D3Graph.id <$> l).
  { apply list_elem_of_fmap. exists n. split; [done|].
    by eapply list_elem_of_lookup_2. }
  cbn [D3Graph.source D3Graph.target]. split; [done|].
  destruct (l !! ((i + 1) mod length l)) as [n'|] eqn:Hn'; [|done].
  cbn [from_option]. apply list_elem_of_fmap. exists n'. split; [done|].
  by eapply list_elem_of_lookup_2.
Qed.

Lemma device_nodes_workstations (N : nat) :
  Forall (λ n, D3Graph.type n = D3Graph.workstation ∧ is_Some (D3Graph.status n))
    (App.device_nodes N).
Proof.
  unfold App.device_nodes. apply Forall_fmap, Forall_forall.
  intros i _. split; [done|by eexists].
Qed.

Lemma graph_invariant_mounted : graph_invariant App.mounted.
Proof.
  unfold graph_invariant. cbn [App.nodes App.edges App.mounted].
  split; [|split].
  - exists 20. split; [lia|]. apply device_nodes_ids.
  - apply device_nodes_workstations.
  - apply ring_edges_closed.
Qed.

Lemma graph_invariant_onmessage (msg : WSMessage.t) (st : App.State) :
  graph_invariant st → graph_invariant (App.onmessage msg st).
Proof.
  intros (HN & Hty & Hed). unfold App.onmessage.
  destruct (WSMessage.type msg).
  - destruct (WSMessage.total_devices msg) as [[|n]|]; [done| |done].
    unfold graph_invariant. app_state. split; [|split].
    + exists (S n). split; [lia|]. apply device_nodes_ids.
    + apply device_nodes_workstations.
    + rewrite chain_edges_spec, device_nodes_length, device_nodes_ids.
      apply Forall_fmap, Forall_forall. intros i Hi. apply elem_of_seq in Hi.
      cbn [chain_edge D3Graph.source D3Graph.target compose].
      split; apply list_elem_of_fmap; eexists; (split; [done|]);
        apply elem_of_seq; lia.
  - destruct (WSMessage.devices_infected msg) as [l|]; [|done].
    unfold graph_invariant. app_state. split; [|split].
    + by rewrite mark_infected_ids.
    + apply Forall_fmap. eapply Forall_impl; [exact Hty|].
      intros n [Ht Hs]. split; [done|].
      cbn [compose App.mark_infected D3Graph.status]. by case_bool_decide.
    + by rewrite mark_infected_ids.
  - done.
  - done.
Qed.

Lemma graph_invariant_handle (st : App.State) (e : App.Event) :
  graph_invariant st → graph_invariant (App.handle st e).
Proof.
  destruct e; simpl; [done| |done]. apply graph_invariant_onmessage.
Qed.

Lemma graph_invariant_after (events : list App.Event) (st : App.State) :
  graph_invariant st → graph_invariant (App.after events st).
Proof.
  revert st. induction events as [|e events IH]; intros st Hst; [done|].
  simpl. apply IH. by apply graph_invariant_handle.
Qed.

(** X14. Whatever the user and the socket do after the page is mounted,
    the graph handed to [D3Graph] can be drawn: it has at least one node,
    the node ids are distinct, every edge joins two nodes of the graph (so
    [d3.forceLink] finds both ends), and every node is filled red if its
    status is infected and green otherwise. *)
Theorem app_graph_is_drawable (events : list App.Event) :
  App.nodes (App.after events App.mounted) ≠ []
  ∧ NoDup (D3Graph.id <$> App.nodes (App.after events App.mounted))
  ∧ D3Graph.links_resolve (App.nodes (App.after events App.mounted))
      (App.edges (App.after events App.mounted)) = true
  ∧ ∀ n, n ∈ App.nodes (App.after events App.mounted) →
         D3Graph.fill n
         = if bool_decide (D3Graph.status n = Some D3Graph.status_infected)
           then "#ff1744" else "#00ff88".
Proof.
  destruct (graph_invariant_after events App.mounted graph_invariant_mounted)
    as ((N & HN & Hids) & Hty & Hed).
  split; [|split; [|split]].
  - intros Hnil. rewrite Hnil in Hids. destruct N; [lia|done].
  - rewrite Hids. apply (NoDup_fmap_2 _), NoDup_seq.
  - unfold D3Graph.links_resolve. apply forallb_forall. intros e He.
    apply list_elem_of_In in He.
    rewrite Forall_forall in Hed. destruct (Hed e He) as [Hs Ht].
    by rewrite !bool_decide_eq_true_2.
  - intros n Hn. rewrite Forall_forall in Hty. destruct (Hty n Hn) as [Ht [s Hs]].
    unfold D3Graph.fill. rewrite Ht, Hs. by destruct s.
Qed.

(** X15. An [initialized] message with a positive [total_devices] replaces
    the graph by the chain [device_0 - device_1 - ... - device_{N-1}] of
    healthy workstations; with [total_devices] zero or missing the graph
    stays as it was. *)
Theorem initialized_builds_chain (msg : WSMessage.t) (st : App.State) :
  WSMessage.type msg = SimulationAPI.Initialized →
  match WSMessage.total_devices msg with
  | Some (S n) =>
      App.nodes (App.onmessage msg st) = App.device_nodes (S n)
      ∧ App.edges (App.onmessage msg st) = chain_edge <$> seq 0 n
      ∧ App.infected_shown (App.onmessage msg st) = 0
  | Some 0 | None =>
      App.nodes (App.onmessage msg st) = App.nodes st
      ∧ App.edges (App.onmessage msg st) = App.edges st
  end.
Proof.
  intros Hty. unfold App.onmessage. rewrite Hty.
  destruct (WSMessage.total_devices msg) as [[|n]|]; [done| |done].
  split; [done|]. split.
  - cbn [App.edges App.setEdges]. rewrite chain_edges_spec, device_nodes_length.
    by rewrite Nat.sub_1_r.
  - unfold App.infected_shown. cbn [App.nodes App.setEdges App.setNodes App.setLogs].
    unfold App.device_nodes. generalize (seq 0 (S n)). intros l.
    induction l as [|i l IH]; [done|]. cbn [fmap list_fmap] in *.
    rewrite filter_cons_False; [exact IH|]. simpl. done.
Qed.

Lemma initialized_builds_chain_witness :
  App.nodes (App.onmessage sample_initialized App.mounted) = App.device_nodes 3
  ∧ App.edges (App.onmessage sample_initialized App.mounted)
    = chain_edge <$> seq 0 2
  ∧ App.infected_shown (App.onmessage sample_initialized App.mounted) = 0.
Proof.
  exact (initialized_builds_chain sample_initialized App.mounted eq_refl).
Defined.

Lemma handle_nodes (st : App.State) (e : App.Event) :
  App.replaces_graph e = false →
  App.nodes (App.handle st e) = App.mark_infected (App.reported [e]) <$> App.nodes st
  ∧ App.edges (App.handle st e) = App.edges st.
Proof.
  assert (Hid : App.mark_infected [] <$> App.nodes st = App.nodes st).
  { rewrite <-(list_fmap_id (App.nodes st)) at 2.
    apply list_fmap_ext. intros ? n _. apply mark_infected_nil. }
  intros He. destruct e as [|msg|]; simpl; [by rewrite Hid| |by rewrite Hid].
  unfold App.reported. simpl. rewrite app_nil_r. simpl in He.
  unfold App.onmessage.
  destruct (WSMessage.type msg).
  - destruct (WSMessage.total_devices msg) as [[|n]|]; [|done|]; by rewrite Hid.
  - destruct (WSMessage.devices_infected msg) as [l|]; simpl; [done|].
    by rewrite Hid.
  - by rewrite Hid.
  - by rewrite Hid.
Qed.

Lemma after_nodes (events : list App.Event) (st : App.State) :
  Forall (λ e, App.replaces_graph e = false) events →
  App.nodes (App.after events st)
  = App.mark_infected (App.reported events) <$> App.nodes st
  ∧ App.edges (App.after events st) = App.edges st.
Proof.
  revert st. induction events as [|e events IH]; intros st Hev.
  - simpl. split; [|done]. rewrite <-(list_fmap_id (App.nodes st)) at 1.
    apply list_fmap_ext. intros ? n _. by rewrite mark_infected_nil.
  - apply Forall_cons in Hev as [He Hev]. simpl.
    destruct (IH (App.handle st e) Hev) as [-> ->].
    destruct (handle_nodes st e He) as [-> ->]. split; [|done].
    rewrite <-list_fmap_compose. apply list_fmap_ext. intros ? n _. simpl.
    rewrite mark_infected_app. unfold App.reported. by rewrite app_nil_r.
Qed.

(** X16. Between two graph replacements the node list only changes by
    infection marks: after any events that are not an [initialized]
    message with a positive count (step, complete and error messages,
    a new run, a socket error) the nodes are the earlier nodes, in the
    same order, where exactly the ones reported by a step message have
    become infected and the others keep their status; the edges are
    unchanged.  In particular a new run does not clear the marks. *)
Theorem steps_only_mark_reported (events : list App.Event) (st : App.State) :
  Forall (λ e, App.replaces_graph e = false) events →
  App.nodes (App.after events st)
  = App.mark_infected (App.reported events) <$> App.nodes st
  ∧ App.edges (App.after events st) = App.edges st.
Proof.
  intros Hev. destruct (after_nodes events st Hev) as [Hnodes Hedges].
  split; [exact Hnodes|exact Hedges].
Qed.

Lemma steps_only_mark_reported_witness :
  Forall (λ e, App.replaces_graph e = false) sample_events
  ∧ App.nodes (App.after sample_events App.mounted)
    = App.mark_infected ["device_0"; "device_1"] <$> App.nodes App.mounted
  ∧ App.edges (App.after sample_events App.mounted) = App.edges App.mounted.
Proof.
  assert (Hev : Forall (λ e, App.replaces_graph e = false) sample_events)
    by (repeat constructor).
  split; [exact Hev|].
  exact (steps_only_mark_reported sample_events App.mounted Hev).
Defined.

Lemma infected_shown_mark (l : list string) (ns : list D3Graph.D3Node) :
  length (filter (λ n, D3Graph.status n = Some D3Graph.status_infected) ns)
  ≤ length (filter (λ n, D3Graph.status n = Some D3Graph.status_infected)
              (App.mark_infected l <$> ns)).
Proof.
  induction ns as [|n ns IH]; [done|]. cbn [fmap list_fmap].
  rewrite !filter_cons.
  destruct (decide (D3Graph.status n = Some D3Graph.status_infected)) as [Hn|Hn].
  - rewrite decide_True; [simpl; lia|]. simpl. by case_bool_decide.
  - case_decide; simpl; lia.
Qed.

(** X17. The infected count of the header never decreases between two
    graph replacements, and never exceeds the number of nodes. *)
Theorem infected_shown_never_decreases (events : list App.Event) (st : App.State) :
  Forall (λ e, App.replaces_graph e = false) events →
  App.infected_shown st ≤ App.infected_shown (App.after events st)
  ∧ App.infected_shown (App.after events st) ≤ length (App.nodes st).
Proof.
  intros Hev. unfold App.infected_shown.
  destruct (after_nodes events st Hev) as [-> _]. split.
  - apply infected_shown_mark.
  - etransitivity; [apply length_filter|]. by rewrite length_fmap.
Qed.

Lemma infected_shown_never_decreases_witness :
  Forall (λ e, App.replaces_graph e = false) sample_events
  ∧ App.infected_shown App.mounted
    ≤ App.infected_shown (App.after sample_events App.mounted)
  ∧ App.infected_shown (App.after sample_events App.mounted)
    ≤ length (App.nodes App.mounted).
Proof.
  assert (Hev : Forall (λ e, App.replaces_graph e = false) sample_events)
    by (repeat constructor).
  split; [exact Hev|].
  exact (infected_shown_never_decreases sample_events App.mounted Hev).
Defined.

Lemma onmessage_logs (msg : WSMessage.t) (st : App.State) :
  ∃ line, App.logs (App.onmessage msg st) = App.logs st ++ [line].
Proof.
  unfold App.onmessage. destruct (WSMessage.type msg).
  - destruct (WSMessage.total_devices msg) as [[|n]|]; by eexists.
  - destruct (WSMessage.devices_infected msg); by eexists.
  - by eexists.
  - by eexists.
Qed.

(** X18. Every message of the socket adds exactly one line at the end of
    the log and changes no earlier line: after a sequence of messages the
    old log is a prefix of the new one, which is longer by the number of
    messages. *)
Theorem every_message_logs_one_line (msgs : list WSMessage.t) (st : App.State) :
  App.logs st `prefix_of` App.logs (App.after (App.Message <$> msgs) st)
  ∧ length (App.logs (App.after (App.Message <$> msgs) st))
    = length (App.logs st) + length msgs.
Proof.
  revert st. induction msgs as [|msg msgs IH]; intros st.
  - simpl. split; [done|lia].
  - cbn [fmap list_fmap App.after foldl]. cbn [App.handle].
    destruct (IH (App.onmessage msg st)) as [Hpre Hlen].
    destruct (onmessage_logs msg st) as [line Hline].
    unfold App.after in *. rewrite Hline in Hpre, Hlen. split.
    + etransitivity; [|exact Hpre]. by apply prefix_app_r.
    + rewrite Hlen, length_app. simpl. lia.
Qed.

(** ** The sampled graph of [transformSimulationToNetwork] *)

Lemma Set_of_from (s array : list string) :
  NoDup s →
  NoDup (foldl (λ s x, if bool_decide (x ∈ s) then s else s ++ [x]) s array)
  ∧ (∀ x, x ∈ foldl (λ s x, if bool_decide (x ∈ s) then s else s ++ [x]) s array
          ↔ x ∈ s ∨ x ∈ array)
  ∧ length (foldl (λ s x, if bool_decide (x ∈ s) then s else s ++ [x]) s array)
    ≤ length s + length array.
Proof.
  revert s. induction array as [|y array IH]; intros s Hs.
  - simpl. split; [done|]. split; [|lia]. intros x. rewrite elem_of_nil. tauto.
  - cbn [foldl]. case_bool_decide as Hy.
    + destruct (IH s Hs) as (Hnd & Hel & Hlen). split; [done|]. split.
      * intros x. rewrite Hel, elem_of_cons. split; [tauto|].
        intros [?|[->|?]]; tauto.
      * simpl. lia.
    + destruct (IH (s ++ [y])) as (Hnd & Hel & Hlen).
      { apply NoDup_app. split; [done|]. split; [|apply NoDup_singleton].
        intros x Hx ->%list_elem_of_singleton. done. }
      split; [done|]. split.
      * intros x. rewrite Hel, elem_of_app, list_elem_of_singleton, elem_of_cons.
        tauto.
      * rewrite length_app in Hlen. simpl in *. lia.
Qed.

Lemma Set_of_spec (array : list string) :
  NoDup (NetworkTransform.Set_of array)
  ∧ (∀ x, x ∈ NetworkTransform.Set_of array ↔ x ∈ array)
  ∧ length (NetworkTransform.Set_of array) ≤ length array.
Proof.
  destruct (Set_of_from [] array (NoDup_nil_2)) as (Hnd & Hel & Hlen).
  split; [done|]. split; [|done].
  intros x. rewrite (Hel x), elem_of_nil. tauto.
Qed.

Lemma add_infected_spec (infectedIds : list string)
    (nodes : list NetworkTransform.NetworkNode) (nodeIds : gset string) :
  NetworkTransform.add_infected infectedIds (nodes, nodeIds)
  = (nodes ++ (infected_node <$> infectedIds), list_to_set infectedIds ∪ nodeIds).
Proof.
  unfold NetworkTransform.add_infected.
  revert nodes nodeIds. induction infectedIds as [|x l IH]; intros nodes nodeIds.
  - simpl. f_equal; [by rewrite app_nil_r|]. by rewrite (left_id_L ∅ (∪)).
  - cbn [foldl]. rewrite IH. f_equal.
    + by rewrite <-app_assoc.
    + rewrite list_to_set_cons, (comm_L (∪) {[x]} (list_to_set l)).
      by rewrite <-(assoc_L (∪)).
Qed.

Lemma add_healthy_stuck (i : nat) (nodes : list NetworkTransform.NetworkNode)
    (nodeIds : gset string) :
  device_id (length nodes) ∈ nodeIds →
  NetworkTransform.add_healthy i (nodes, nodeIds) = (nodes, nodeIds).
Proof.
  intros Hin. induction i as [|i IH]; [done|].
  cbn [NetworkTransform.add_healthy]. by rewrite bool_decide_eq_true_2.
Qed.

Lemma add_healthy_spec (infectedIds : list string) (i j : nat) :
  ∃ h, h ≤ i
    ∧ (NetworkTransform.add_healthy i
         ((infected_node <$> infectedIds)
            ++ (healthy_node <$> seq (length infectedIds) j),
          list_to_set infectedIds
            ∪ list_to_set (device_id <$> seq (length infectedIds) j))).1
      = (infected_node <$> infectedIds)
          ++ (healthy_node <$> seq (length infectedIds) (j + h))
    ∧ (h < i → device_id (length infectedIds + j + h) ∈ infectedIds)
    ∧ (∀ k, j ≤ k < j + h → device_id (length infectedIds + k) ∉ infectedIds).
Proof.
  revert j. induction i as [|i IH]; intros j.
  - exists 0. split; [done|]. split; [|split; [lia|intros k; lia]].
    simpl. by rewrite Nat.add_0_r.
  - set (nodes := (infected_node <$> infectedIds)
                    ++ (healthy_node <$> seq (length infectedIds) j)).
    set (nodeIds := (list_to_set infectedIds
            ∪ list_to_set (device_id <$> seq (length infectedIds) j) : gset string)).
    assert (Hlen : length nodes = length infectedIds + j).
    { unfold nodes. by rewrite length_app, !length_fmap, length_seq. }
    destruct (decide (device_id (length nodes) ∈ nodeIds)) as [Hin|Hin].
    + exists 0. split; [lia|]. rewrite add_healthy_stuck by done.
      split; [simpl; by rewrite Nat.add_0_r|]. split; [|intros k; lia].
      intros _. rewrite Hlen in Hin. unfold nodeIds in Hin.
      apply elem_of_union in Hin as [Hin|Hin].
      * apply elem_of_list_to_set in Hin. by rewrite Nat.add_0_r.
      * apply elem_of_list_to_set, list_elem_of_fmap in Hin as (k & Hk & Hks).
        apply (inj device_id) in Hk as <-. apply elem_of_seq in Hks. lia.
    + destruct (IH (S j)) as (h & Hh & Hres & Hstuck & Hfresh).
      exists (S h). split; [lia|]. split; [|split].
      * cbn [NetworkTransform.add_healthy]. rewrite bool_decide_eq_false_2 by done.
        replace (j + S h) with (S j + h) by lia. rewrite <-Hres, Hlen.
        unfold nodes, nodeIds.
        rewrite !seq_S, !fmap_app, app_assoc, list_to_set_app_L.
        cbn [fmap list_fmap list_to_set].
        rewrite (right_id_L ∅ (∪)).
        rewrite (comm_L (∪) {[device_id (length infectedIds + j)]}).
        by rewrite (assoc_L (∪)).
      * intros Hlt. replace (length infectedIds + j + S h)
          with (length infectedIds + S j + h) by lia. apply Hstuck. lia.
      * intros k Hk. destruct (decide (k = j)) as [->|Hkj]; [|apply Hfresh; lia].
        intros Hbad. apply Hin. rewrite Hlen. unfold nodeIds.
        apply elem_of_union_l. by apply elem_of_list_to_set.
Qed.

Lemma transform_nodes_spec (result : SimulationAPI.SimulationResult)
    (sampleSize : nat) :
  ∃ h, h ≤ Nat.min sampleSize (SimulationAPI.total_devices result)
           - length (NetworkTransform.infected_ids result sampleSize)
    ∧ NetworkTransform.transform_nodes result sampleSize
      = (infected_node <$> NetworkTransform.infected_ids result sampleSize)
          ++ (healthy_node
                <$> seq (length (NetworkTransform.infected_ids result sampleSize)) h)
    ∧ (h < Nat.min sampleSize (SimulationAPI.total_devices result)
           - length (NetworkTransform.infected_ids result sampleSize) →
       device_id (length (NetworkTransform.infected_ids result sampleSize) + h)
       ∈ NetworkTransform.infected_ids result sampleSize)
    ∧ (∀ k, k < h →
         device_id (length (NetworkTransform.infected_ids result sampleSize) + k)
         ∉ NetworkTransform.infected_ids result sampleSize).
Proof.
  unfold NetworkTransform.transform_nodes.
  set (I := NetworkTransform.infected_ids result sampleSize).
  set (n := Nat.min sampleSize (SimulationAPI.total_devices result)).
  cbn zeta. rewrite add_infected_spec.
  destruct (add_healthy_spec I (n - length I) 0)
    as (h & Hh & Hres & Hstuck & Hfresh).
  exists h. split; [done|]. split; [|split].
  - cbn [seq fmap list_fmap list_to_set Nat.add] in Hres.
    rewrite app_nil_r in Hres. exact Hres.
  - intros Hlt. specialize (Hstuck Hlt). by rewrite Nat.add_0_r in Hstuck.
  - intros k Hk. apply Hfresh. lia.
Qed.

Lemma infected_ids_spec (result : SimulationAPI.SimulationResult) (sampleSize : nat) :
  NoDup (NetworkTransform.infected_ids result sampleSize)
  ∧ length (NetworkTransform.infected_ids result sampleSize)
    ≤ Nat.min sampleSize (SimulationAPI.total_devices result) / 2
  ∧ ∀ x, x ∈ NetworkTransform.infected_ids result sampleSize →
         ∃ entry, entry ∈ SimulationAPI.history result
                  ∧ x ∈ SimulationAPI.newly_infected entry.
Proof.
  unfold NetworkTransform.infected_ids. cbn zeta.
  set (flat := SimulationAPI.history result ≫= _).
  set (n := Nat.min sampleSize (SimulationAPI.total_devices result)).
  destruct (Set_of_spec (take (n / 2) flat)) as (Hnd & Hel & Hlen).
  split; [done|]. split.
  - etransitivity; [exact Hlen|]. rewrite length_take. lia.
  - intros x Hx. apply Hel in Hx.
    assert (Hflat : x ∈ flat) by (by eapply subseteq_take).
    unfold flat in Hflat. apply list_elem_of_bind in Hflat as (entry & ? & ?).
    by exists entry.
Qed.

Lemma transform_nodes_ids_NoDup (result : SimulationAPI.SimulationResult)
    (sampleSize : nat) :
  NoDup (NetworkTransform.id <$> NetworkTransform.transform_nodes result sampleSize).
Proof.
  destruct (transform_nodes_spec result sampleSize) as (h & Hh & -> & Hstuck & Hfresh).
  destruct (infected_ids_spec result sampleSize) as (Hnd & _ & _).
  set (I := NetworkTransform.infected_ids result sampleSize) in *.
  rewrite fmap_app, <-!list_fmap_compose.
  replace (NetworkTransform.id ∘ infected_node <$> I) with I
    by (rewrite <-(list_fmap_id I) at 1; by apply list_fmap_ext).
  replace (NetworkTransform.id ∘ healthy_node <$> seq (length I) h)
    with (device_id <$> seq (length I) h) by (by apply list_fmap_ext).
  apply NoDup_app. split; [done|]. split; [|apply (NoDup_fmap_2 _), NoDup_seq].
  intros x Hx Hx'. apply list_elem_of_fmap in Hx' as (k & -> & Hk).
  apply elem_of_seq in Hk. apply (Hfresh (k - length I)); [lia|].
  by replace (length I + (k - length I)) with k by lia.
Qed.

(** X19. The nodes of the sampled graph have distinct ids; there are at
    most [min(sampleSize, total_devices)] of them, of which at most half
    are infected, however many devices the history reports; and every
    infected node is a device that some history entry reports as newly
    infected. *)
Theorem sampled_nodes_distinct_and_bounded (result : SimulationAPI.SimulationResult)
    (sampleSize : nat) :
  NoDup (NetworkTransform.id <$> NetworkTransform.transform_nodes result sampleSize)
  ∧ length (NetworkTransform.transform_nodes result sampleSize)
    ≤ Nat.min sampleSize (SimulationAPI.total_devices result)
  ∧ length (filter (λ n, NetworkTransform.type n = NetworkTransform.infected)
              (NetworkTransform.transform_nodes result sampleSize))
    ≤ Nat.min sampleSize (SimulationAPI.total_devices result) / 2
  ∧ ∀ n, n ∈ NetworkTransform.transform_nodes result sampleSize →
         NetworkTransform.type n = NetworkTransform.infected →
         ∃ entry, entry ∈ SimulationAPI.history result
                  ∧ NetworkTransform.id n ∈ SimulationAPI.newly_infected entry.
Proof.
  split; [apply transform_nodes_ids_NoDup|].
  destruct (transform_nodes_spec result sampleSize) as (h & Hh & -> & _ & _).
  destruct (infected_ids_spec result sampleSize) as (_ & Hhalf & Hhist).
  set (I := NetworkTransform.infected_ids result sampleSize) in *.
  set (n := Nat.min sampleSize (SimulationAPI.total_devices result)) in *.
  assert (Hle : n / 2 ≤ n) by (apply Nat.Div0.div_le_upper_bound; lia).
  split; [|split].
  - rewrite length_app, !length_fmap, length_seq. lia.
  - rewrite filter_app, length_app.
    replace (filter (λ n, NetworkTransform.type n = NetworkTransform.infected)
               (healthy_node <$> seq (length I) h)) with (@nil NetworkTransform.NetworkNode).
    + simpl. rewrite Nat.add_0_r. etransitivity; [apply length_filter|].
      by rewrite length_fmap.
    + generalize (seq (length I) h). intros l. induction l as [|k l IH]; [done|].
      cbn [fmap list_fmap]. by rewrite filter_cons_False.
  - intros x Hx Hty. apply elem_of_app in Hx as [Hx|Hx].
    + apply list_elem_of_fmap in Hx as (s & -> & Hs). by apply Hhist.
    + apply list_elem_of_fmap in Hx as (k & -> & _). done.
Qed.

Lemma sampled_nodes_distinct_and_bounded_witness :
  NoDup (NetworkTransform.id <$> NetworkTransform.transform_nodes sample_result 4)
  ∧ length (NetworkTransform.transform_nodes sample_result 4) ≤ 4
  ∧ length (filter (λ n, NetworkTransform.type n = NetworkTransform.infected)
              (NetworkTransform.transform_nodes sample_result 4)) ≤ 2
  ∧ ∀ n, n ∈ NetworkTransform.transform_nodes sample_result 4 →
         NetworkTransform.type n = NetworkTransform.infected →
         ∃ entry, entry ∈ SimulationAPI.history sample_result
                  ∧ NetworkTransform.id n ∈ SimulationAPI.newly_infected entry.
Proof. exact (sampled_nodes_distinct_and_bounded sample_result 4). Defined.

(** X20. The sampled graph lists the infected nodes first, then healthy
    nodes with the consecutive ids [device_k, device_{k+1}, ...] where
    [k] is the number of infected nodes.  It holds fewer nodes than
    [min(sampleSize, total_devices)] only if the next healthy id is the
    id of an infected node: the loop then proposes that same id in every
    remaining round and adds nothing more. *)
Theorem sampled_nodes_shape (result : SimulationAPI.SimulationResult)
    (sampleSize : nat) :
  ∃ h,
    NetworkTransform.transform_nodes result sampleSize
    = (infected_node <$> NetworkTransform.infected_ids result sampleSize)
        ++ (healthy_node
              <$> seq (length (NetworkTransform.infected_ids result sampleSize)) h)
    ∧ length (NetworkTransform.infected_ids result sampleSize) + h
      ≤ Nat.min sampleSize (SimulationAPI.total_devices result)
    ∧ (length (NetworkTransform.infected_ids result sampleSize) + h
       < Nat.min sampleSize (SimulationAPI.total_devices result) →
       device_id (length (NetworkTransform.infected_ids result sampleSize) + h)
       ∈ NetworkTransform.infected_ids result sampleSize).
Proof.
  destruct (transform_nodes_spec result sampleSize) as (h & Hh & Hres & Hstuck & _).
  destruct (infected_ids_spec result sampleSize) as (_ & Hhalf & _).
  set (I := NetworkTransform.infected_ids result sampleSize) in *.
  set (n := Nat.min sampleSize (SimulationAPI.total_devices result)) in *.
  assert (Hle : n / 2 ≤ n) by (apply Nat.Div0.div_le_upper_bound; lia).
  exists h. split; [done|]. split; [lia|]. intros Hlt. apply Hstuck. lia.
Qed.

Lemma sampled_nodes_shape_witness :
  NetworkTransform.transform_nodes sample_result 4
  = [ infected_node "device_2"; infected_node "device_0" ]
  ∧ ∃ h,
      NetworkTransform.transform_nodes sample_result 4
      = (infected_node <$> NetworkTransform.infected_ids sample_result 4)
          ++ (healthy_node
                <$> seq (length (NetworkTransform.infected_ids sample_result 4)) h)
      ∧ length (NetworkTransform.infected_ids sample_result 4) + h ≤ 4
      ∧ (length (NetworkTransform.infected_ids sample_result 4) + h < 4 →
         device_id (length (NetworkTransform.infected_ids sample_result 4) + h)
         ∈ NetworkTransform.infected_ids sample_result 4).
Proof.
  split; [vm_compute; reflexivity|].
  exact (sampled_nodes_shape sample_result 4).
Defined.

(** ** Doubles: the product of a draw and a length *)

Lemma pow2_pos (k : Z) : (0 < 2 ^ k)%Q.
Proof. by apply Qpower_0_lt. Qed.

Lemma pow2_inject (k : Z) : (0 ≤ k)%Z → (2 ^ k == inject_Z (2 ^ k))%Q.
Proof. intros Hk. by rewrite Zpower_Qpower. Qed.

Lemma pow2_le (a b : Z) : (a ≤ b)%Z → (2 ^ a <= 2 ^ b)%Q.
Proof. intros Hab. by apply Qpower_le_compat_l. Qed.

(** The power of two at [ilog2 x] is at most [x]. *)
Lemma ilog2_le (x : Q) : (0 < x)%Q → (2 ^ Double.ilog2 x <= x)%Q.
Proof.
  intros Hx. unfold Double.ilog2. cbn zeta.
  destruct (Qle_bool _ x) eqn:Htest; [by apply Qle_bool_iff|].
  destruct x as [a b]. cbn [Qnum Qden].
  assert (Ha : (0 < a)%Z).
  { unfold Qlt in Hx. simpl in Hx. lia. }
  destruct (Z.log2_spec a Ha) as [Hla _].
  destruct (Z.log2_spec (Z.pos b) ltac:(lia)) as [_ Hlb].
  pose proof (Z.log2_nonneg a) as Hla0.
  pose proof (Z.log2_nonneg (Z.pos b)) as Hlb0.
  replace (Z.log2 a - Z.log2 (Z.pos b) - 1)%Z
    with (Z.log2 a - Z.succ (Z.log2 (Z.pos b)))%Z by lia.
  rewrite Qpower_minus by done.
  rewrite !pow2_inject by lia.
  apply Qle_shift_div_r.
  { rewrite <-(Zlt_Qlt 0). lia. }
  unfold Qle, Qmult, inject_Z. cbn [Qnum Qden].
  rewrite !Z.mul_1_r, Pos.mul_1_r.
  transitivity (a * Z.pos b)%Z; [nia|]. nia.
Qed.

(** The rounded value is within a half of the real one, from above. *)
Lemma round_half_even_le (y : Q) :
  (inject_Z (Double.round_half_even y) <= y + (1 # 2))%Q.
Proof.
  unfold Double.round_half_even. cbn zeta.
  pose proof (Qfloor_le y) as Hf.
  destruct (Qcompare_spec (y - inject_Z (Qfloor y)) (1 # 2)) as [He|Hl|Hg].
  - destruct (Z.even (Qfloor y)); [lra|]. rewrite inject_Z_plus.
    change (inject_Z 1) with 1%Q. lra.
  - lra.
  - rewrite inject_Z_plus. change (inject_Z 1) with 1%Q. lra.
Qed.

Lemma round_half_even_nonneg (y : Q) :
  (0 <= y)%Q → (0 ≤ Double.round_half_even y)%Z.
Proof.
  intros Hy. unfold Double.round_half_even. cbn zeta.
  assert (Hf : (0 ≤ Qfloor y)%Z).
  { change 0%Z with (Qfloor 0). by apply Qfloor_resp_le. }
  destruct (_ ?= _)%Q; [destruct (Z.even _)| |]; lia.
Qed.

(** Rounding stays below a bound that the real value misses by
    [2^-53] of the bound. *)
Lemma round_lt (x b : Q) :
  (0 <= x)%Q → (1 <= b)%Q → (x <= b - b * 2 ^ (-53))%Q →
  (0 <= Double.round x < b)%Q.
Proof.
  intros Hx Hb Hxb. unfold Double.round.
  pose proof (pow2_pos (-53)) as H53.
  destruct (Qle_bool x 0) eqn:Hzero; [lra|].
  assert (Hpos : (0 < x)%Q).
  { destruct (Qlt_le_dec 0 x) as [|Hle]; [done|].
    apply Qle_bool_iff in Hle. congruence. }
  set (k := Double.ulp_exponent x).
  pose proof (pow2_pos k) as Hq.
  set (y := (x / 2 ^ k)%Q).
  assert (Hy : (y * 2 ^ k == x)%Q).
  { unfold y. field. lra. }
  assert (Hy0 : (0 <= y)%Q).
  { unfold y. apply Qle_shift_div_l; [done|]. lra. }
  pose proof (round_half_even_le y) as Hr.
  pose proof (round_half_even_nonneg y Hy0) as Hr0.
  rewrite (Zle_Qle 0) in Hr0. change (inject_Z 0) with 0%Q in Hr0.
  set (R := inject_Z (Double.round_half_even y)) in *.
  split; [by apply Qmult_le_0_compat; lra|].
  (* R * q <= x + q / 2 *)
  assert (Hup : (R * 2 ^ k <= x + (1 # 2) * 2 ^ k)%Q).
  { rewrite <-Hy. rewrite <-Qmult_plus_distr_l.
    apply Qmult_le_compat_r; lra. }
  (* q / 2 is below 2^-53 of the bound *)
  assert (Hhalf : ((1 # 2) * 2 ^ k < b * 2 ^ (-53))%Q).
  { assert (Hk : (2 ^ k == 2 ^ (Z.max (Double.ilog2 x) (-1022)) * 2 ^ (-52))%Q).
    { unfold k, Double.ulp_exponent.
      replace (Z.max (Double.ilog2 x) (-1022) - 52)%Z
        with (Z.max (Double.ilog2 x) (-1022) + -52)%Z by lia.
      by rewrite Qpower_plus. }
    assert (H52 : ((1 # 2) * 2 ^ (-52) == 2 ^ (-53))%Q) by reflexivity.
    assert (Hmax : (2 ^ (Z.max (Double.ilog2 x) (-1022)) < b)%Q).
    { destruct (Z.max_spec (Double.ilog2 x) (-1022)) as [[_ ->]|[_ ->]].
      - assert ((2 ^ (-1022) < 1)%Q) by reflexivity. lra.
      - pose proof (ilog2_le x Hpos). nra. }
    assert (Hlt : (2 ^ Z.max (Double.ilog2 x) (-1022) * 2 ^ (-53)
                   < b * 2 ^ (-53))%Q) by (by apply Qmult_lt_compat_r).
    nra. }
  lra.
Qed.

Lemma scaled_mantissa_bound (m E : Z) :
  (Z.abs m < 2 ^ 53)%Z → (0 ≤ E)%Z → (m * 2 ^ E < 2 ^ 1074)%Z →
  (m * 2 ^ E ≤ 2 ^ 1074 - 2 ^ 1021)%Z.
Proof.
  intros Hm HE Hlt.
  assert (H2E : (0 < 2 ^ E)%Z) by (apply Z.pow_pos_nonneg; lia).
  assert (Hconst : (2 ^ 1073 ≤ 2 ^ 1074 - 2 ^ 1021)%Z) by (vm_compute; discriminate).
  assert (Hconst' : (0 ≤ 2 ^ 1074 - 2 ^ 1021)%Z) by (vm_compute; discriminate).
  destruct (Z_le_gt_dec m 0) as [Hneg|Hpos]; [nia|].
  destruct (Z_lt_le_dec E 1021) as [Hsmall|Hbig].
  - (* the mantissa bounds the value *)
    assert (m * 2 ^ E < 2 ^ 53 * 2 ^ E)%Z by nia.
    rewrite <-Z.pow_add_r in H by lia.
    assert (2 ^ (53 + E) ≤ 2 ^ 1073)%Z by (apply Z.pow_le_mono_r; lia).
    lia.
  - destruct (Z_lt_le_dec E 1074) as [HE'|HE'].
    + (* the value is a multiple of 2^E below 2^1074 *)
      assert (Hsplit : (2 ^ 1074 = 2 ^ (1074 - E) * 2 ^ E)%Z).
      { rewrite <-Z.pow_add_r by lia. f_equal. lia. }
      assert (H1021 : (2 ^ 1021 ≤ 2 ^ E)%Z) by (apply Z.pow_le_mono_r; lia).
      rewrite Hsplit in Hlt |- *.
      assert (m < 2 ^ (1074 - E))%Z by nia.
      nia.
    + assert (2 ^ 1074 ≤ 2 ^ E)%Z by (apply Z.pow_le_mono_r; lia). nia.
Qed.

(** A double below 1 is at most [1 - 2^-53]. *)
Lemma double_below_one (r : Q) :
  Double.is_double r → (r < 1)%Q → (r <= 1 - 2 ^ (-53))%Q.
Proof.
  intros (m & e & Hm & He & Hr) Hlt.
  assert (Hscale : (2 ^ e == inject_Z (2 ^ (e + 1074)) * 2 ^ (-1074))%Q).
  { rewrite <-pow2_inject by lia. rewrite <-Qpower_plus by done.
    by replace (e + 1074 + -1074)%Z with e by lia. }
  assert (Hunit : (2 ^ (-1074) * inject_Z (2 ^ 1074) == 1)%Q) by reflexivity.
  pose proof (pow2_pos (-1074)) as Hpos.
  assert (HP : (0 < inject_Z (2 ^ 1074))%Q) by reflexivity.
  set (t := (2 ^ (-1074))%Q) in *. set (P := inject_Z (2 ^ 1074)) in *.
  assert (HrM : (r == inject_Z (m * 2 ^ (e + 1074)) * t)%Q).
  { rewrite Hr, Hscale, inject_Z_mult. ring. }
  assert (HM : (m * 2 ^ (e + 1074) < 2 ^ 1074)%Z).
  { rewrite Zlt_Qlt. fold P.
    set (M := inject_Z (m * 2 ^ (e + 1074))) in *.
    assert (M == r * P)%Q as ->.
    { rewrite HrM. rewrite <-Qmult_assoc, Hunit. ring. }
    nra. }
  apply scaled_mantissa_bound in HM; [|done|lia].
  rewrite Zle_Qle in HM.
  assert (Hend : (inject_Z (2 ^ 1074 - 2 ^ 1021) * t == 1 - 2 ^ (-53))%Q)
    by reflexivity.
  rewrite HrM, <-Hend. apply Qmult_le_compat_r; [done|lra].
Qed.

Lemma random_index_empty (r : Q) : NetworkTransform.random_index r 0 = 0%Z.
Proof.
  unfold NetworkTransform.random_index, Double.mul, Double.round.
  assert (Qle_bool (r * inject_Z (Z.of_nat 0)) 0 = true) as ->; [|done].
  apply Qle_bool_iff. destruct r as [a b]. unfold Qle, Qmult. simpl. lia.
Qed.

(** The index that a draw picks is an index of the array. *)
Lemma random_index_range (r : Q) (n : nat) :
  Double.is_double r → (0 <= r < 1)%Q → 0 < n →
  (0 ≤ NetworkTransform.random_index r n < Z.of_nat n)%Z.
Proof.
  intros Hd [H0 H1] Hn. unfold NetworkTransform.random_index, Double.mul.
  pose proof (double_below_one r Hd H1) as Hr.
  pose proof (pow2_pos (-53)) as H53.
  assert (Hb : (1 <= inject_Z (Z.of_nat n))%Q).
  { change 1%Q with (inject_Z 1). rewrite <-Zle_Qle. lia. }
  set (b := inject_Z (Z.of_nat n)) in *.
  destruct (round_lt (r * b) b) as [Hlo Hhi]; [nra|done|nra|].
  split.
  - change 0%Z with (Qfloor 0). by apply Qfloor_resp_le.
  - rewrite Zlt_Qlt. fold b. eapply Qle_lt_trans; [apply Qfloor_le|done].
Qed.

Lemma add_edges_spec (random : nat → Q) (nodes : list NetworkTransform.NetworkNode)
    (rounds calls : nat) (edges : list NetworkTransform.NetworkEdge) :
  (∀ i, Double.is_double (random i) ∧ (0 <= random i < 1)%Q) →
  NoDup (NetworkTransform.id <$> nodes) →
  Forall (edge_ok nodes) edges →
  ∃ edges',
    NetworkTransform.add_edges random rounds calls nodes edges = Some edges'
    ∧ Forall (edge_ok nodes) edges'
    ∧ length edges' ≤ length edges + rounds.
Proof.
  intros Hdraw Hnd. revert calls edges.
  induction rounds as [|rounds IH]; intros calls edges Hok.
  - exists edges. split; [done|]. split; [done|lia].
  - cbn [NetworkTransform.add_edges]. cbn zeta. case_bool_decide as Hne.
    + destruct (decide (length nodes = 0)) as [Hz|Hz].
      { exfalso. apply Hne. by rewrite Hz, !random_index_empty. }
      pose proof (random_index_range (random calls) (length nodes)
                    (proj1 (Hdraw calls)) (proj2 (Hdraw calls)) ltac:(lia)) as Hs.
      pose proof (random_index_range (random (S calls)) (length nodes)
                    (proj1 (Hdraw (S calls))) (proj2 (Hdraw (S calls)))
                    ltac:(lia)) as Ht.
      set (si := NetworkTransform.random_index (random calls) (length nodes)) in *.
      set (ti := NetworkTransform.random_index (random (S calls)) (length nodes)) in *.
      unfold NetworkTransform.at_index.
      destruct (Z.ltb_spec si 0) as [?|_]; [lia|].
      destruct (Z.ltb_spec ti 0) as [?|_]; [lia|].
      destruct (lookup_lt_is_Some_2 nodes (Z.to_nat si)) as [s Hsn]; [lia|].
      destruct (lookup_lt_is_Some_2 nodes (Z.to_nat ti)) as [t Htn]; [lia|].
      rewrite Hsn, Htn. cbn [mbind option_bind].
      destruct (IH (S (S calls))
                  (edges ++ [ {| NetworkTransform.source := NetworkTransform.id s;
                                 NetworkTransform.target := NetworkTransform.id t |} ]))
        as (edges' & Hrun & Hok' & Hlen).
      { apply Forall_app. split; [done|]. apply Forall_singleton.
        unfold edge_ok. cbn [NetworkTransform.source NetworkTransform.target].
        split; [|split].
        - apply list_elem_of_fmap. exists s. split; [done|].
          by eapply list_elem_of_lookup_2.
        - apply list_elem_of_fmap. exists t. split; [done|].
          by eapply list_elem_of_lookup_2.
        - intros Heq.
          assert (Z.to_nat si = Z.to_nat ti); [|lia].
          eapply (NoDup_lookup _ _ _ (NetworkTransform.id s) Hnd).
          + by rewrite list_lookup_fmap, Hsn.
          + by rewrite list_lookup_fmap, Htn, Heq. }
      exists edges'. split; [done|]. split; [done|].
      rewrite length_app in Hlen. simpl in Hlen. lia.
    + destruct (IH (S (S calls)) edges Hok) as (edges' & Hrun & Hok' & Hlen).
      exists edges'. split; [done|]. split; [done|lia].
Qed.

(** X21. When every draw of [Math.random()] is a double in [0, 1),
    [transformSimulationToNetwork] returns a graph and never reads a node
    that does not exist: the product of the draw and the length, rounded
    as a double and floored, is an index of the node array.  Every edge
    joins two different nodes of the graph, and there are at most
    [min(ceil(1.5 * nodes), 150)] edges. *)
Theorem sampled_edges_well_formed (random : nat → Q)
    (result : SimulationAPI.SimulationResult) (sampleSize : nat) :
  (∀ i, Double.is_double (random i) ∧ (0 <= random i < 1)%Q) →
  ∃ edges,
    NetworkTransform.transformSimulationToNetwork random result sampleSize
    = Some (NetworkTransform.transform_nodes result sampleSize, edges)
    ∧ Forall (edge_ok (NetworkTransform.transform_nodes result sampleSize)) edges
    ∧ length edges
      ≤ NetworkTransform.edge_rounds
          (length (NetworkTransform.transform_nodes result sampleSize)).
Proof.
  intros Hdraw. unfold NetworkTransform.transformSimulationToNetwork. cbn zeta.
  destruct (add_edges_spec random (NetworkTransform.transform_nodes result sampleSize)
              (NetworkTransform.edge_rounds
                 (length (NetworkTransform.transform_nodes result sampleSize)))
              0 [] Hdraw (transform_nodes_ids_NoDup result sampleSize)
              (Forall_nil_2 _))
    as (edges & Hrun & Hok & Hlen).
  exists edges. rewrite Hrun. split; [done|]. split; [done|]. simpl in Hlen. lia.
Qed.

Lemma sampled_edges_well_formed_witness :
  (∀ i, Double.is_double (alternating i) ∧ (0 <= alternating i < 1)%Q)
  ∧ ∃ edges,
      NetworkTransform.transformSimulationToNetwork alternating sample_result 4
      = Some (NetworkTransform.transform_nodes sample_result 4, edges)
      ∧ Forall (edge_ok (NetworkTransform.transform_nodes sample_result 4)) edges
      ∧ length edges
        ≤ NetworkTransform.edge_rounds
            (length (NetworkTransform.transform_nodes sample_result 4)).
Proof.
  assert (Hdraw : ∀ i, Double.is_double (alternating i)
                       ∧ (0 <= alternating i < 1)%Q).
  { intros i. unfold alternating. destruct (Nat.even i).
    - split; [|split; by vm_compute]. exists 0%Z, 0%Z.
      split; [by vm_compute|]. split; [lia|reflexivity].
    - split; [|split; by vm_compute]. exists 1%Z, (-1)%Z.
      split; [by vm_compute|]. split; [lia|reflexivity]. }
  split; [exact Hdraw|].
  exact (sampled_edges_well_formed alternating sample_result 4 Hdraw).
Defined.

(** ** The request of [SimulationControl] *)

Lemma removeSubnet_from (i k : nat) (subnets : list SimulationControl.SubnetConfig) :
  snd <$> filter (λ p, p.1 ≠ i) (imap (λ idx s, (k + idx, s)) subnets)
  = if decide (k ≤ i) then delete (i - k) subnets else subnets.
Proof.
  revert k. induction subnets as [|s subnets IH]; intros k.
  - simpl. by case_decide.
  - rewrite imap_cons.
    rewrite (imap_ext _ (λ idx s, (S k + idx, s)))
      by (intros; simpl; f_equal; lia).
    rewrite filter_cons. cbn [fst]. rewrite Nat.add_0_r.
    destruct (decide (k ≠ i)) as [Hk|Hk].
    + cbn [fmap list_fmap snd]. change (list_fmap _ _ snd) with (fmap (M:=list) (@snd nat SimulationControl.SubnetConfig)).
      rewrite IH. destruct (decide (k ≤ i)) as [Hle|Hle].
      * rewrite decide_True by lia.
        replace (i - k) with (S (i - S k)) by lia. done.
      * by rewrite decide_False by lia.
    + apply dec_stable in Hk as ->. rewrite IH.
      rewrite decide_False by lia. rewrite decide_True by lia.
      by rewrite Nat.sub_diag.
Qed.

(** X22. The remove button of subnet [i] deletes exactly the [i]-th
    subnet and keeps the others in order; removing the subnet that
    [addSubnet] has just added gives the earlier list back. *)
Theorem remove_subnet_deletes_one (i : nat)
    (subnets : list SimulationControl.SubnetConfig) :
  SimulationControl.removeSubnet i subnets = delete i subnets
  ∧ SimulationControl.removeSubnet (length subnets)
      (SimulationControl.addSubnet subnets) = subnets.
Proof.
  assert (Hdel : ∀ j l, SimulationControl.removeSubnet j l = delete j l).
  { intros j l. unfold SimulationControl.removeSubnet.
    rewrite (imap_ext _ (λ idx s, (0 + idx, s))) by done.
    rewrite removeSubnet_from, decide_True by lia. by rewrite Nat.sub_0_r. }
  split; [apply Hdel|]. rewrite Hdel. unfold SimulationControl.addSubnet.
  rewrite delete_middle. by rewrite app_nil_r.
Qed.

(** X23. The segmented request of [handleRun] names existing subnets
    only: each interconnect joins two different subnets of the list.
    Subnets from the third on appear in no interconnect. *)
Theorem interconnects_reference_subnets
    (subnets : list SimulationControl.SubnetConfig)
    (ic : SimulationControl.Interconnect) :
  ic ∈ SimulationControl.interconnects subnets →
  SimulationControl.source_subnet ic < length subnets
  ∧ SimulationControl.target_subnet ic < length subnets
  ∧ SimulationControl.source_subnet ic ≠ SimulationControl.target_subnet ic
  ∧ ∀ j, 2 ≤ j → SimulationControl.source_subnet ic ≠ j
                 ∧ SimulationControl.target_subnet ic ≠ j.
Proof.
  unfold SimulationControl.interconnects.
  destruct (Nat.ltb_spec 1 (length subnets)) as [Hlen|Hlen].
  - intros ->%list_elem_of_singleton. simpl. repeat split; lia.
  - by intros ?%elem_of_nil.
Qed.

Lemma interconnects_reference_subnets_witness :
  {| SimulationControl.source_subnet := 0; SimulationControl.target_subnet := 1;
     SimulationControl.firewall := Some true |}
  ∈ SimulationControl.interconnects sample_subnets
  ∧ 0 < length sample_subnets
  ∧ 1 < length sample_subnets
  ∧ 0 ≠ 1
  ∧ ∀ j, 2 ≤ j → 0 ≠ j ∧ 1 ≠ j.
Proof.
  assert (Hin : {| SimulationControl.source_subnet := 0;
                   SimulationControl.target_subnet := 1;
                   SimulationControl.firewall := Some true |}
                ∈ SimulationControl.interconnects sample_subnets)
    by (vm_compute; apply list_elem_of_here).
  split; [exact Hin|].
  exact (interconnects_reference_subnets sample_subnets _ Hin).
Defined.

(** ** The programmatic loop and the batches *)

Lemma set_range_from (attrs : gmap string Value) (n lo : nat)
    (network : gmap string (gmap string Value)) :
  keyword_clash attrs = false →
  (∀ k, lo ≤ k < lo + n → is_Some (network !! device_id k)) →
  ∃ network',
    foldl (λ acc i, network ← acc; set_device_attributes network (device_id i) attrs)
          (Some network) (seq lo n) = Some network'
    ∧ (∀ k, lo ≤ k < lo + n →
         network' !! device_id k = (λ old, attrs ∪ old) <$> network !! device_id k)
    ∧ (∀ s, (∀ k, lo ≤ k < lo + n → s ≠ device_id k) →
         network' !! s = network !! s).
Proof.
  intros Hkeys. revert lo network. induction n as [|n IH]; intros lo network Hex.
  - exists network. split; [done|]. split; [intros k; lia|done].
  - cbn [seq foldl]. cbn [mbind option_bind]. unfold set_device_attributes at 2.
    rewrite Hkeys.
    destruct (Hex lo ltac:(lia)) as [old Hold]. rewrite Hold.
    destruct (IH (S lo) (<[device_id lo := attrs ∪ old]> network))
      as (network' & Hrun & Hin & Hout).
    { intros k Hk. rewrite lookup_insert_ne by (intros ?%(inj device_id); lia).
      apply Hex. lia. }
    exists network'. split; [exact Hrun|]. split.
    + intros k Hk. destruct (decide (k = lo)) as [->|Hne].
      * rewrite Hout by (intros j Hj ?%(inj device_id); lia).
        by rewrite lookup_insert_eq, Hold.
      * rewrite Hin by lia.
        by rewrite lookup_insert_ne by (intros ?%(inj device_id); lia).
    + intros s Hs. rewrite Hout by (intros k Hk; apply Hs; lia).
      rewrite lookup_insert_ne; [done|]. intros <-. by apply (Hs lo); [lia|].
Qed.

(** After a call that raised, the loop is over. *)
Lemma set_range_raised (attrs : gmap string Value) (l : list nat) :
  foldl (λ acc i, network ← acc; set_device_attributes network (device_id i) attrs)
        None l = None.
Proof. induction l as [|i l IH]; [done|]. exact IH. Qed.

Lemma range_definitions_flatten (lo hi : nat) (attrs : gmap string Value) :
  flatten_definitions (range_definitions lo hi attrs)
  = replicate lo ∅ ++ replicate (hi - lo) attrs.
Proof.
  unfold flatten_definitions, range_definitions.
  cbn [mbind list_bind count attributes]. by rewrite app_nil_r, !Nat2Z.id.
Qed.

(** X24. On a network that has the devices [device_0 .. device_{hi-1}],
    the programmatic loop that sets attributes on the devices
    [lo .. hi - 1] gives the same network as the batch assignment with
    two node definitions: [lo] devices without attributes, then
    [hi - lo] devices with the attributes.  ([set_device_attributes] is
    modelled from its documented behaviour.) *)
Theorem programmatic_range_is_a_batch (lo hi : nat) (attrs : gmap string Value)
    (network : gmap string (gmap string Value)) :
  lo ≤ hi →
  (∀ k, k < hi → is_Some (network !! device_id k)) →
  set_range lo hi attrs network
  = _apply_node_definitions network (range_definitions lo hi attrs).
Proof.
  intros Hle Hex. unfold set_range.
  destruct (keyword_clash attrs) eqn:Hclash.
  - (* a clashing keyword: the first call of either loop raises, if there
       is one *)
    destruct (hi - lo) as [|n] eqn:Hn.
    + simpl. symmetry.
      destruct (_apply_node_definitions network (range_definitions lo hi attrs))
        as [net2|] eqn:Hrun.
      * destruct (apply_node_definitions_result _ _ _ Hrun) as (Hin2 & Hout2 & _).
        rewrite range_definitions_flatten, Hn in Hin2, Hout2.
        simpl in Hin2, Hout2. rewrite app_nil_r in Hin2, Hout2.
        f_equal. apply map_eq. intros s.
        destruct (decide (s ∈ device_id <$> seq 0 lo)) as [Hs|Hs].
        -- apply list_elem_of_fmap in Hs as (j & -> & Hj). apply elem_of_seq in Hj.
           rewrite (Hin2 j ∅) by (apply lookup_replicate_2; lia).
           destruct (network !! device_id j); simpl; [|done].
           by rewrite (left_id_L ∅ (∪)).
        -- apply Hout2. rewrite length_replicate. intros j Hj ->. apply Hs.
           apply list_elem_of_fmap. exists j. split; [done|].
           apply elem_of_seq. lia.
      * apply apply_node_definitions_None in Hrun as (j & a & Hj & Ha & _).
        rewrite range_definitions_flatten, Hn in Hj. simpl in Hj.
        rewrite app_nil_r in Hj. apply lookup_replicate in Hj as [-> _].
        done.
    + cbn [seq foldl]. cbn [mbind option_bind].
      unfold set_device_attributes at 2. rewrite Hclash, set_range_raised.
      symmetry. apply apply_node_definitions_None. exists lo, attrs.
      split; [|split; [done|apply Hex; lia]].
      rewrite range_definitions_flatten.
      rewrite lookup_app_r by (rewrite length_replicate; lia).
      rewrite length_replicate, Nat.sub_diag, Hn. done.
  - destruct (set_range_from attrs (hi - lo) lo network)
      as (net1 & -> & Hin1 & Hout1); [done|intros k Hk; apply Hex; lia|].
    destruct (apply_node_definitions_total network (range_definitions lo hi attrs))
      as (net2 & -> & Hin2 & Hout2).
    { repeat constructor; done. }
    rewrite range_definitions_flatten in Hin2, Hout2.
    rewrite length_app, !length_replicate in Hout2.
    f_equal. apply map_eq. intros s.
    destruct (decide (s ∈ device_id <$> seq 0 hi)) as [Hs|Hs].
    + apply list_elem_of_fmap in Hs as (j & -> & Hj). apply elem_of_seq in Hj.
      destruct (decide (j < lo)) as [Hjl|Hjl].
      * rewrite Hout1 by (intros k Hk ?%(inj device_id); lia).
        rewrite (Hin2 j ∅).
        -- destruct (network !! device_id j); simpl; [|done].
           by rewrite (left_id_L ∅ (∪)).
        -- rewrite lookup_app_l by (rewrite length_replicate; lia).
           apply lookup_replicate_2. lia.
      * rewrite Hin1 by lia. rewrite (Hin2 j attrs); [done|].
        rewrite lookup_app_r by (rewrite length_replicate; lia).
        rewrite length_replicate. apply lookup_replicate_2. lia.
    + assert (Hno : ∀ k, k < hi → s ≠ device_id k).
      { intros k Hk ->. apply Hs. apply list_elem_of_fmap. exists k.
        split; [done|]. apply elem_of_seq. lia. }
      rewrite Hout1 by (intros k Hk; apply Hno; lia).
      rewrite Hout2; [done|]. intros k Hk. apply Hno. lia.
Qed.

Lemma programmatic_range_is_a_batch_witness :
  1 ≤ 3
  ∧ (∀ k, k < 3 → is_Some (sample_network !! device_id k))
  ∧ set_range 1 3 {[ "admin_user" := VBool false ]} sample_network
    = _apply_node_definitions sample_network
        (range_definitions 1 3 {[ "admin_user" := VBool false ]}).
Proof.
  assert (Hle : 1 ≤ 3) by lia.
  assert (Hex : ∀ k, k < 3 → is_Some (sample_network !! device_id k)).
  { intros k Hk. apply seed_attributes_nodes. lia. }
  split; [exact Hle|]. split; [exact Hex|].
  exact (programmatic_range_is_a_batch 1 3 {[ "admin_user" := VBool false ]}
           sample_network Hle Hex).
Defined.
